(** * BSON codec of the Ruby driver's C extension (ext/cbson/cbson.c)

    A shallow embedding of [write_element_allow_id], [write_doc],
    [method_serialize], [get_value], [elements_to_hash],
    [method_deserialize], [fast_pack] and [objectid_generate], together with
    the properties of the codec.

    Conventions of the model.
    - A Ruby [VALUE] is a constructor of the inductive [VALUE]; the [TYPE]
      switch and the class-name comparisons of the C code become pattern
      matching.
    - A byte is a [byte]; the buffer and every Ruby string are [list byte].
      A C [char] is signed (x86): [char_to_int] sign-extends it.
    - Multi-byte integers are copied in host order, the host is little-endian:
      [le_split] and [le_combine].
    - A Float is carried as the 64-bit pattern of its [double]. A [Time] is
      a time at a whole number of milliseconds, carried as that number; the
      doubles it goes through when it is written are IEEE 754 binary64 as
      [SpecFloat] has them, and [Time#to_f] is left to the build.
    - [FIX2INT] is that of a build whose [long] is wider than its [int]
      (x86-64): it raises RangeError for a Fixnum outside a C [int].
    - [rb_raise] does not return: the writer yields an [outcome], which is
      either the buffer or the exception; the reader yields a [dres].
    - The serializer mutates the hash it is given ([rb_hash_delete]); every
      writer therefore also returns the value as it is after the call.
      Documents are trees: two occurrences of a hash are two hashes. *)

From Stdlib Require Import String Ascii DecimalString Strings.Byte.
From coqutil Require Import Byte Word.LittleEndianList.
From Stdlib Require Import ZArith List Bool Lia Permutation Sorted SpecFloat.
Import ListNotations.
Set Warnings "-register-all".
Local Open Scope Z_scope.
Local Open Scope list_scope.

(** ** Bytes and C strings *)

Definition bytes := list byte.

Definition str (s : string) : bytes := list_byte_of_string s.

Fixpoint bytes_eqb (a b : bytes) : bool :=
  match a, b with
  | [], [] => true
  | x :: a', y :: b' => Byte.eqb x y && bytes_eqb a' b'
  | _, _ => false
  end.

Definition is_nul (c : byte) : bool := Byte.eqb c Byte.x00.

(** The value of a [char] holding byte [c], as an [int]. *)
Definition char_to_int (c : byte) : Z :=
  let u := byte.unsigned c in if u <? 128 then u else u - 256.

(** [c_str s]: what C reads as a NUL-terminated string at the start of [s]. *)
Fixpoint c_str (s : bytes) : bytes :=
  match s with
  | [] => []
  | c :: s' => if is_nul c then [] else c :: c_str s'
  end.

(** Two's complement reading of the low [w] bits of [z]. *)
Definition swrap (w : Z) (z : Z) : Z :=
  (z + 2 ^ (w - 1)) mod 2 ^ w - 2 ^ (w - 1).

Definition len (s : bytes) : Z := Z.of_nat (length s).

(** ** Ruby values *)

Inductive hash_class := OrderedHash | Hash.

Inductive VALUE :=
| RInteger (n : Z)                              (* T_FIXNUM, T_BIGNUM *)
| RTrue
| RFalse
| RFloat (bits : Z)                             (* T_FLOAT, as 64 bits *)
| RNil
| RHash (klass : hash_class) (entries : list (VALUE * VALUE))
| RArray (items : list VALUE)
| RString (s : bytes)                           (* T_STRING *)
| RCode (code : bytes) (scope_klass : hash_class)
        (scope : list (VALUE * VALUE))          (* T_STRING of class Mongo::Code *)
| RSymbol (name : bytes)
| RBinary (subtype : Z) (data : bytes)          (* Mongo::Binary *)
| RByteBuffer (data : bytes)
| RObjectID (data : list Z)                     (* Mongo::ObjectID, its to_a *)
| RDBRef (namespace : VALUE) (object_id : VALUE)
| RMaxKey
| RMinKey
| RObject (cls : string)                        (* T_OBJECT of another class *)
| RTime (millis : Z)                            (* T_DATA of class Time *)
| RData (cls : string)                          (* T_DATA of another class *)
| RRegexp (pattern : bytes) (options : Z) (extra_options_str : option bytes)
| ROther (cls : string).                        (* any other TYPE *)

Definition entries_t := list (VALUE * VALUE).

(** The nesting depth of a value: the depth of the C recursion that writes it. *)
Fixpoint depth (value : VALUE) : nat :=
  match value with
  | RHash _ hash | RCode _ _ hash =>
      S (fold_right (fun e n => Nat.max (depth (snd e)) n) O hash)
  | RArray values => S (fold_right (fun v n => Nat.max (depth v) n) O values)
  | RDBRef ns oid => S (Nat.max (depth ns) (depth oid))
  | _ => 1%nat
  end.

Definition hash_depth (hash : entries_t) : nat :=
  fold_right (fun e n => Nat.max (depth (snd e)) n) O hash.

(** ** Exceptions and outcomes *)

Inductive exn :=
| NoMemError
| RuntimeError_write_at_position
| TypeError_keys                 (* keys must be strings or symbols *)
| InvalidName_dollar             (* key must not start with '$' *)
| InvalidName_dot                (* key must not contain '.' *)
| RangeError                     (* MongoDB can only handle 8-byte ints; FIX2INT *)
| InvalidDocument_null           (* key names / regex patterns must not contain NUL *)
| InvalidStringEncoding
| InvalidDocument_class (cls : string)   (* cannot serialize an object of class *)
| InvalidDocument_too_large      (* documents are limited to 4MB *)
| TypeError_no_decoder (type : Z)        (* no c decoder for this type yet (%d) *)
| ArgumentError_negative_size
| SystemStackError.              (* the C recursion is deeper than the model's bound *)

Definition is_InvalidName (e : exn) : bool :=
  match e with InvalidName_dollar | InvalidName_dot => true | _ => false end.

Definition buffer_t := bytes.

Inductive outcome :=
| Done (buffer : buffer_t)
| Raise (e : exn).

Definition bindo (o : outcome) (k : buffer_t -> outcome) : outcome :=
  match o with Done b => k b | Raise e => Raise e end.

Notation "b <- o ;; k" := (bindo o (fun b => k))
  (at level 61, o at next level, right associativity).

(** ** The byte buffer (buffer.c) *)

(** Modelled from the spec: buffer.c is not part of the sources at hand.
    [append(bytes)] appends and grows the storage as needed; allocation
    exhaustion is the only failure and the model's storage is unbounded. *)
Definition buffer_write (buffer : buffer_t) (data : bytes) : option buffer_t :=
  Some (buffer ++ data).

(** Modelled from the spec: [position()] is the current write cursor. *)
Definition buffer_get_position (buffer : buffer_t) : Z := len buffer.

(** Modelled from the spec: [reserve(n)] appends [n] bytes and returns their
    starting offset. The reserved bytes are zero here; the C code never reads
    them before it patches them. *)
Definition buffer_save_space (buffer : buffer_t) (size : nat) : option (buffer_t * Z) :=
  Some (buffer ++ repeat Byte.x00 size, len buffer).

(** Modelled from the spec: [patch(offset, bytes)] overwrites an earlier
    region, which must lie within the written part of the buffer. *)
Definition buffer_write_at_position (buffer : buffer_t) (position : Z) (data : bytes)
  : option buffer_t :=
  if (0 <=? position) && (position + len data <=? len buffer) then
    Some (firstn (Z.to_nat position) buffer ++ data
          ++ skipn (Z.to_nat position + length data) buffer)
  else None.

Definition SAFE_WRITE (buffer : buffer_t) (data : bytes) : outcome :=
  match buffer_write buffer data with
  | Some b => Done b
  | None => Raise NoMemError
  end.

Definition SAFE_WRITE_AT_POS (buffer : buffer_t) (position : Z) (data : bytes) : outcome :=
  match buffer_write_at_position buffer position data with
  | Some b => Done b
  | None => Raise RuntimeError_write_at_position
  end.

Definition zero : bytes := [Byte.x00].
Definition one : bytes := [Byte.x01].

(** ** Sorting the extra regex flags *)

Definition cmp_char (a b : byte) : Z := char_to_int a - char_to_int b.

Fixpoint insert_char (c : byte) (l : bytes) : bytes :=
  match l with
  | [] => [c]
  | d :: l' => if cmp_char c d <=? 0 then c :: l else d :: insert_char c l'
  end.

(** [qsort] with [cmp_char] on a run of chars. Chars that compare equal are
    the same char, so the sorted run does not depend on the algorithm. *)
Definition qsort (l : bytes) : bytes := fold_right insert_char [] l.

(** [qsort(buffer + position, n, 1, cmp_char)] *)
Definition qsort_at (buffer : buffer_t) (position : Z) (n : nat) : buffer_t :=
  let p := Z.to_nat position in
  firstn p buffer ++ qsort (firstn n (skipn p buffer)) ++ skipn (p + n) buffer.

(** ** Doubles and C ints *)

(** [(double)z], for an integer [z]. *)
Definition double_of_Z (z : Z) : spec_float := binary_normalize 53 1024 z 0 false.

(** [(long long)round(x)]. [round] gives the nearest integer, a half going
    away from zero. The cast of a double outside [long long], of an infinity
    or of a NaN is undefined in C; x86-64 gives the smallest [long long]. *)
Definition llround_cast (x : spec_float) : Z :=
  match x with
  | S754_zero _ => 0
  | S754_finite s m e =>
      let n := if 0 <=? e then Z.pos m * 2 ^ e
               else (Z.pos m + 2 ^ (- e - 1)) / 2 ^ (- e) in
      let n := if s then - n else n in
      if (- 2 ^ 63 <=? n) && (n <? 2 ^ 63) then n else - 2 ^ 63
  | S754_infinity _ | S754_nan => - 2 ^ 63
  end.

(** [FIX2INT]: the Fixnum as a C [int]; one that does not fit raises
    RangeError ([None] here). *)
Definition FIX2INT (x : Z) : option Z :=
  if (-2147483648 <=? x) && (x <=? 2147483647) then Some x else None.

(** ** Build configuration *)

Inductive result_t := VALID | NOT_UTF_8 | HAS_NULL.

(** What the C code leaves to the build and to the calling convention.
    - [have_ruby_encoding]: HAVE_RUBY_ENCODING_H, which selects [write_utf8].
    - [legal_utf8]: the UTF-8 test of encoding_helpers.c.
    - [foreach_allow_id]: [rb_hash_foreach] calls its callback with three
      arguments, and [write_element_allow_id] takes four; this is the value
      the callback finds in its fourth parameter, which C leaves undefined.
    - [to_f]: Ruby's [Time#to_f], the seconds since the epoch as a double,
      for the Time at this number of milliseconds. *)
Record platform := {
  have_ruby_encoding : bool;
  legal_utf8 : bytes -> bool;
  foreach_allow_id : bool;
  to_f : Z -> spec_float
}.

(** [(long long)round(t * 1000)] for [t] the [to_f] of a Time. *)
Definition time_since_epoch (env : platform) (millis : Z) : Z :=
  let t := to_f env millis in
  llround_cast (SFmul 53 1024 t (double_of_Z 1000)).

Definition IGNORECASE : Z := 1.
Definition EXTENDED : Z := 2.
Definition MULTILINE : Z := 4.

Definition INT2STRING (i : nat) : bytes :=
  str (NilEmpty.string_of_uint (Nat.to_uint i)).

Definition id_str : VALUE := RString (str "_id").
Definition id_sym : VALUE := RSymbol (str "_id").

(** ** Hashes *)

(** Key equality of a Ruby hash, on the keys the codec looks up: strings
    (of any class) by content, symbols by name. *)
Definition key_eql (a b : VALUE) : bool :=
  match a, b with
  | RString s, RString t | RString s, RCode t _ _
  | RCode s _ _, RString t | RCode s _ _, RCode t _ _ => bytes_eqb s t
  | RSymbol s, RSymbol t => bytes_eqb s t
  | _, _ => false
  end.

Definition has_key (hash : entries_t) (key : VALUE) : bool :=
  existsb (fun e => key_eql (fst e) key) hash.

(** [rb_hash_aref]: the value stored under [key], [nil] when there is none. *)
Fixpoint rb_hash_aref (hash : entries_t) (key : VALUE) : VALUE :=
  match hash with
  | [] => RNil
  | (k, v) :: hash' => if key_eql k key then v else rb_hash_aref hash' key
  end.

Definition rb_hash_delete (hash : entries_t) (key : VALUE) : entries_t :=
  filter (fun e => negb (key_eql (fst e) key)) hash.

(** The hash after the value stored under [key] has become [value]. *)
Fixpoint hash_store (hash : entries_t) (key value : VALUE) : entries_t :=
  match hash with
  | [] => []
  | (k, v) :: hash' =>
      if key_eql k key then (k, value) :: hash' else (k, v) :: hash_store hash' key value
  end.

(** ** The serializer *)

Section Serializer.

Variable env : platform.

(** Modelled from the spec: [check_string] of encoding_helpers.c, the
    validator [classify]. HAS_NULL iff NUL bytes are checked for and one
    appears; NOT_UTF_8 iff UTF-8 is checked and the bytes are not legal. *)
Definition check_string (s : bytes) (check_utf8 check_null : bool) : result_t :=
  if check_null && existsb is_nul s then HAS_NULL
  else if check_utf8 && negb (legal_utf8 env s) then NOT_UTF_8
  else VALID.

Definition write_utf8 (buffer : buffer_t) (string : bytes) (check_null : bool) : outcome :=
  if have_ruby_encoding env then
    match check_string string false check_null with
    | HAS_NULL => Raise InvalidDocument_null
    | _ => SAFE_WRITE buffer string
    end
  else
    match check_string string true check_null with
    | HAS_NULL => Raise InvalidDocument_null
    | NOT_UTF_8 => Raise InvalidStringEncoding
    | VALID => SAFE_WRITE buffer string
    end.

Definition write_name_and_type (buffer : buffer_t) (name : bytes) (type : byte) : outcome :=
  buffer <- SAFE_WRITE buffer [type] ;;
  buffer <- write_utf8 buffer name true ;;
  SAFE_WRITE buffer zero.

(** The key as a string: a symbol gives its name, read as a C string; any
    T_STRING is taken as it is; nothing else is a key. *)
Definition key_string (key : VALUE) : option bytes :=
  match key with
  | RSymbol name => Some (c_str name)
  | RString s => Some s
  | RCode s _ _ => Some s
  | _ => None
  end.

(** The test of [check_keys] on one key. *)
Definition check_key (key : bytes) : option exn :=
  match key with
  | c :: _ => if Byte.eqb c "$"%byte then Some InvalidName_dollar
              else if existsb (Byte.eqb "."%byte) key then Some InvalidName_dot else None
  | [] => None
  end.

Definition MAX_DOC : Z := 4 * 1024 * 1024.

Definition flag_set (flags mask : Z) : bool := negb (Z.land flags mask =? 0).

(** The loop over [RARRAY_PTR(as_array)[i]] for the twelve [i]: each entry
    is read with [FIX2INT], cut to a [char] and written. An index past the
    end of the array is undefined in C and reads 0 here. *)
Fixpoint objectid_loop (as_array : list Z) (indices : list nat) (buffer : buffer_t)
  : outcome :=
  match indices with
  | [] => Done buffer
  | i :: rest =>
      match FIX2INT (nth i as_array 0) with
      | None => Raise RangeError
      | Some n =>
          buffer <- SAFE_WRITE buffer [byte.of_Z n] ;;
          objectid_loop as_array rest buffer
      end
  end.

Section WriteDoc.

(** [write_doc] and [write_element_allow_id] call each other; [write_doc]
    is first written over the element writer it calls. *)
Variable write_element_allow_id :
  VALUE -> VALUE -> buffer_t -> bool -> bool -> VALUE * outcome.

(** The loop over the pairs of a hash. Each pair is written at the end of
    the buffer the pair before it has left; the first exception ends the
    loop. *)
Definition each_pair (check_keys allow_id : bool) : entries_t -> buffer_t -> entries_t * outcome :=
  fix loop (hash : entries_t) (buffer : buffer_t) : entries_t * outcome :=
    match hash with
    | [] => ([], Done buffer)
    | (key, value) :: rest =>
        let (value', o) := write_element_allow_id key value buffer check_keys allow_id in
        match o with
        | Done buffer' =>
            let (rest', o') := loop rest buffer' in ((key, value') :: rest', o')
        | Raise e => ((key, value') :: rest, Raise e)
        end
    end.

(** [write_doc] up to its comment "write null byte and fill in length". *)
Definition write_doc_elements (buffer : buffer_t) (klass : hash_class) (hash : entries_t)
    (check_keys move_id : bool) : entries_t * outcome :=
  (* write '_id' first if move_id is true *)
  let '(hash, allow_id, o) :=
    if move_id then
      if has_key hash id_str then
        let (id, o) := write_element_allow_id id_str (rb_hash_aref hash id_str)
                         buffer check_keys true in
        (hash_store hash id_str id, false, o)
      else if has_key hash id_sym then
        let (id, o) := write_element_allow_id id_sym (rb_hash_aref hash id_sym)
                         buffer check_keys true in
        (hash_store hash id_sym id, false, o)
      else (hash, false, Done buffer)
    else
      if has_key hash id_str && has_key hash id_sym
      then (rb_hash_delete hash id_str, true, Done buffer)
      else (hash, true, Done buffer) in
  match o with
  | Raise e => (hash, Raise e)
  | Done buffer =>
      (* we have to check for an OrderedHash and handle that specially *)
      match klass with
      | OrderedHash => each_pair check_keys allow_id hash buffer
      | Hash => each_pair check_keys (foreach_allow_id env) hash buffer
      end
  end.

Definition write_doc_finish (start_position length_location : Z) (buffer : buffer_t) : outcome :=
  buffer <- SAFE_WRITE buffer zero ;;
  let length := buffer_get_position buffer - start_position in
  (* make sure that length doesn't exceed 4MB *)
  if MAX_DOC <? length then Raise InvalidDocument_too_large
  else SAFE_WRITE_AT_POS buffer length_location (le_split 4 length).

Definition write_doc_gen (buffer : buffer_t) (klass : hash_class) (hash : entries_t)
    (check_keys move_id : bool) : entries_t * outcome :=
  let start_position := buffer_get_position buffer in
  match buffer_save_space buffer 4 with
  | None => (hash, Raise NoMemError)
  | Some (buffer, length_location) =>
      let (hash, o) := write_doc_elements buffer klass hash check_keys move_id in
      (hash, buffer <- o ;; write_doc_finish start_position length_location buffer)
  end.

(** The loop over the items of an array, element [i] under the key "i". *)
Definition each_item (check_keys : bool) : nat -> list VALUE -> buffer_t -> list VALUE * outcome :=
  fix loop (i : nat) (values : list VALUE) (buffer : buffer_t) : list VALUE * outcome :=
    match values with
    | [] => ([], Done buffer)
    | value :: rest =>
        let (value', o) :=
          write_element_allow_id (RString (INT2STRING i)) value buffer check_keys false in
        match o with
        | Done buffer' =>
            let (rest', o') := loop (S i) rest buffer' in (value' :: rest', o')
        | Raise e => (value' :: rest, Raise e)
        end
    end.

(** The [switch (TYPE(value))] of [write_element_allow_id], for a key that
    has passed the tests before it. *)
Definition write_value (key : bytes) (value : VALUE) (buffer : buffer_t) (check_keys : bool)
  : VALUE * outcome :=
  match value with
  | RInteger n =>
      (value,
       if (9223372036854775807 <? n) || (n <? -9223372036854775808) then Raise RangeError
       else if (2147483647 <? n) || (n <? -2147483648) then
         buffer <- write_name_and_type buffer key x12 ;;
         SAFE_WRITE buffer (le_split 8 n)
       else
         buffer <- write_name_and_type buffer key x10 ;;
         SAFE_WRITE buffer (le_split 4 n))
  | RTrue =>
      (value, buffer <- write_name_and_type buffer key x08 ;; SAFE_WRITE buffer one)
  | RFalse =>
      (value, buffer <- write_name_and_type buffer key x08 ;; SAFE_WRITE buffer zero)
  | RFloat d =>
      (value, buffer <- write_name_and_type buffer key x01 ;; SAFE_WRITE buffer (le_split 8 d))
  | RNil =>
      (value, write_name_and_type buffer key x0a)
  | RHash klass hash =>
      match write_name_and_type buffer key x03 with
      | Raise e => (value, Raise e)
      | Done buffer =>
          let (hash', o) :=
            write_doc_gen buffer klass hash check_keys false in
          (RHash klass hash', o)
      end
  | RArray values =>
      match write_name_and_type buffer key x04 with
      | Raise e => (value, Raise e)
      | Done buffer =>
          let start_position := buffer_get_position buffer in
          (* save space for length *)
          match buffer_save_space buffer 4 with
          | None => (value, Raise NoMemError)
          | Some (buffer, length_location) =>
              let (values', o) :=
                each_item check_keys 0 values buffer in
              (RArray values',
               buffer <- o ;;
               (* write null byte and fill in length *)
               buffer <- SAFE_WRITE buffer zero ;;
               let obj_length := buffer_get_position buffer - start_position in
               SAFE_WRITE_AT_POS buffer length_location (le_split 4 obj_length))
          end
      end
  | RCode code scope_klass scope =>
      match write_name_and_type buffer key x0f with
      | Raise e => (value, Raise e)
      | Done buffer =>
          let start_position := buffer_get_position buffer in
          match buffer_save_space buffer 4 with
          | None => (value, Raise NoMemError)
          | Some (buffer, length_location) =>
              let length := len code + 1 in
              match (buffer <- SAFE_WRITE buffer (le_split 4 length) ;;
                     buffer <- SAFE_WRITE buffer code ;;
                     SAFE_WRITE buffer zero) with
              | Raise e => (value, Raise e)
              | Done buffer =>
                  let (scope', o) :=
                    write_doc_gen buffer scope_klass scope false false in
                  (RCode code scope_klass scope',
                   buffer <- o ;;
                   let total_length := buffer_get_position buffer - start_position in
                   SAFE_WRITE_AT_POS buffer length_location (le_split 4 total_length))
              end
          end
      end
  | RString s =>
      (value,
       buffer <- write_name_and_type buffer key x02 ;;
       let length := len s + 1 in
       buffer <- SAFE_WRITE buffer (le_split 4 length) ;;
       buffer <- write_utf8 buffer s false ;;
       SAFE_WRITE buffer zero)
  | RSymbol name =>
      let str_value := c_str name in
      let length := len str_value + 1 in
      (value,
       buffer <- write_name_and_type buffer key x0e ;;
       buffer <- SAFE_WRITE buffer (le_split 4 length) ;;
       SAFE_WRITE buffer (str_value ++ zero))
  | RBinary _ string_data | RByteBuffer string_data =>
      (value,
       match (match value with RBinary st _ => FIX2INT st | _ => Some 2 end) with
       | None => Raise RangeError
       | Some st =>
           let subtype := byte.of_Z st in
           let length := len string_data in
           buffer <- write_name_and_type buffer key x05 ;;
           buffer <- (if Byte.eqb subtype x02 then
                        buffer <- SAFE_WRITE buffer (le_split 4 (length + 4)) ;;
                        SAFE_WRITE buffer [subtype]
                      else Done buffer) ;;
           buffer <- SAFE_WRITE buffer (le_split 4 length) ;;
           buffer <- (if Byte.eqb subtype x02 then Done buffer
                      else SAFE_WRITE buffer [subtype]) ;;
           SAFE_WRITE buffer string_data
       end)
  | RObjectID as_array =>
      (value,
       buffer <- write_name_and_type buffer key x07 ;;
       objectid_loop as_array (seq 0 12) buffer)
  | RDBRef ns oid =>
      match write_name_and_type buffer key x03 with
      | Raise e => (value, Raise e)
      | Done buffer =>
          let start_position := buffer_get_position buffer in
          (* save space for length *)
          match buffer_save_space buffer 4 with
          | None => (value, Raise NoMemError)
          | Some (buffer, length_location) =>
              let (ns', o) :=
                write_element_allow_id (RString (str "$ref")) ns buffer false false in
              match o with
              | Raise e => (RDBRef ns' oid, Raise e)
              | Done buffer =>
                  let (oid', o) :=
                    write_element_allow_id (RString (str "$id")) oid buffer false false in
                  (RDBRef ns' oid',
                   buffer <- o ;;
                   (* write null byte and fill in length *)
                   buffer <- SAFE_WRITE buffer zero ;;
                   let obj_length := buffer_get_position buffer - start_position in
                   SAFE_WRITE_AT_POS buffer length_location (le_split 4 obj_length))
              end
          end
      end
  | RMaxKey =>
      (value, write_name_and_type buffer key x7f)
  | RMinKey =>
      (value, write_name_and_type buffer key xff)
  | RObject cls =>
      (value, Raise (InvalidDocument_class cls))
  | RTime millis =>
      let time_since_epoch := time_since_epoch env millis in
      (value,
       buffer <- write_name_and_type buffer key x09 ;;
       SAFE_WRITE buffer (le_split 8 time_since_epoch))
  | RData cls =>
      (value, Raise (InvalidDocument_class cls))
  | RRegexp pattern flags has_extra =>
      (value,
       buffer <- write_name_and_type buffer key x0b ;;
       buffer <- write_utf8 buffer pattern true ;;
       buffer <- SAFE_WRITE buffer zero ;;
       buffer <- (if flag_set flags IGNORECASE then SAFE_WRITE buffer ["i"%byte]
                  else Done buffer) ;;
       buffer <- (if flag_set flags MULTILINE then SAFE_WRITE buffer ["m"%byte]
                  else Done buffer) ;;
       buffer <- (if flag_set flags EXTENDED then SAFE_WRITE buffer ["x"%byte]
                  else Done buffer) ;;
       buffer <- match has_extra with
                 | Some extra =>
                     let old_position := buffer_get_position buffer in
                     buffer <- SAFE_WRITE buffer extra ;;
                     Done (qsort_at buffer old_position (length extra))
                 | None => Done buffer
                 end ;;
       SAFE_WRITE buffer zero)
  | ROther cls =>
      (value, Raise (InvalidDocument_class cls))
  end.

End WriteDoc.

Fixpoint write_element_allow_id (fuel : nat) (key value : VALUE) (buffer : buffer_t)
    (check_keys allow_id : bool) {struct fuel} : VALUE * outcome :=
  match fuel with
  | O => (value, Raise SystemStackError)
  | S fuel =>
  match key_string key with
  | None => (value, Raise TypeError_keys)
  | Some key =>
  if negb allow_id && bytes_eqb (str "_id") (c_str key) then (value, Done buffer)
  else
  match (if check_keys then check_key key else None) with
  | Some e => (value, Raise e)
  | None => write_value (write_element_allow_id fuel) key value buffer check_keys
  end
  end
  end.

Definition write_element (fuel : nat) (key value : VALUE) (buffer : buffer_t)
    (check_keys : bool) : VALUE * outcome :=
  write_element_allow_id fuel key value buffer check_keys false.

Definition write_doc (fuel : nat)
  : buffer_t -> hash_class -> entries_t -> bool -> bool -> entries_t * outcome :=
  write_doc_gen (write_element_allow_id fuel).

(** [method_serialize]: the document after the call, and the string made of
    the buffer or the exception. *)
Definition method_serialize (klass : hash_class) (doc : entries_t) (check_keys move_id : bool)
  : entries_t * outcome :=
  write_doc (S (hash_depth doc)) [] klass doc check_keys move_id.

End Serializer.

(** ** The deserializer *)

(** The result of reading: a value, a Ruby exception, a read outside the
    bytes of the string (undefined in C), or a run that outlasts [fuel]. *)
Inductive dres (A : Type) :=
| Value (a : A)
| Exception (e : exn)
| Undefined
| OutOfFuel.
Arguments Value {A} a.
Arguments Exception {A} e.
Arguments Undefined {A}.
Arguments OutOfFuel {A}.

Definition bindd {A B : Type} (r : dres A) (k : A -> dres B) : dres B :=
  match r with
  | Value a => k a
  | Exception e => Exception e
  | Undefined => Undefined
  | OutOfFuel => OutOfFuel
  end.

Notation "x <~ r ;; k" := (bindd r (fun x => k))
  (at level 61, r at next level, right associativity).

(** A [const char*]: the bytes of the string and an offset into them. *)
Record ptr := { mem : bytes; off : Z }.

Definition ptr_add (buffer : ptr) (k : Z) : ptr :=
  {| mem := mem buffer; off := off buffer + k |}.

(** The bytes of the string from [buffer + i] on. *)
Definition from (buffer : ptr) (i : Z) : option bytes :=
  let a := off buffer + i in
  if (0 <=? a) && (a <=? len (mem buffer)) then Some (skipn (Z.to_nat a) (mem buffer))
  else None.

Definition rd {A : Type} (o : option A) : dres A :=
  match o with Some a => Value a | None => Undefined end.

(** [buffer[i]] *)
Definition peek (buffer : ptr) (i : Z) : dres byte :=
  match from buffer i with
  | Some (c :: _) => Value c
  | _ => Undefined
  end.

(** [n] bytes at [buffer + i]: [memcpy], and [rb_str_new] for [0 <= n]. *)
Definition read_bytes (buffer : ptr) (i : Z) (n : Z) : dres bytes :=
  match from buffer i with
  | Some s => if (0 <=? n) && (n <=? len s) then Value (firstn (Z.to_nat n) s) else Undefined
  | None => Undefined
  end.

(** [rb_str_new(buffer + i, n)] and [STR_NEW]: a negative length raises. *)
Definition STR_NEW (buffer : ptr) (i : Z) (n : Z) : dres bytes :=
  if n <? 0 then Exception ArgumentError_negative_size else read_bytes buffer i n.

(** the [int] at [buffer + i] *)
Definition read_int (buffer : ptr) (i : Z) : dres Z :=
  s <~ read_bytes buffer i 4 ;; Value (swrap 32 (le_combine s)).

(** a [long long] at [buffer + i] *)
Definition read_long_long (buffer : ptr) (i : Z) : dres Z :=
  s <~ read_bytes buffer i 8 ;; Value (swrap 64 (le_combine s)).

(** The C string at [buffer + i]; [strlen] is its length. *)
Definition c_string (buffer : ptr) (i : Z) : dres bytes :=
  match from buffer i with
  | Some s => if existsb is_nul s then Value (c_str s) else Undefined
  | None => Undefined
  end.

(** [strcmp(buffer + i, lit) == 0] for a literal without NUL: the bytes are
    compared one by one up to the first difference. *)
Fixpoint strcmp_eq (s : bytes) (lit : bytes) : dres bool :=
  match lit, s with
  | [], c :: _ => Value (is_nul c)
  | l :: lit', c :: s' => if Byte.eqb c l then strcmp_eq s' lit' else Value false
  | _, [] => Undefined
  end.

Definition strcmp_at (buffer : ptr) (i : Z) (lit : bytes) : dres bool :=
  match from buffer i with
  | Some s => strcmp_eq s lit
  | None => Undefined
  end.

(** [hash[name] = value] on an OrderedHash: the value of a key already
    there is replaced in place, a new key goes to the end. *)
Fixpoint hash_aset (hash : entries_t) (name value : VALUE) : entries_t :=
  match hash with
  | [] => [(name, value)]
  | (k, v) :: hash' =>
      if key_eql k name then (k, value) :: hash' else (k, v) :: hash_aset hash' name value
  end.

(** [Time.at(seconds, microseconds).utc], in milliseconds. *)
Definition Time_at (seconds microseconds : Z) : Z := seconds * 1000 + microseconds / 1000.

(** The loop over the flag chars of a regex: the engine flags and the extra
    chars, of which [char extra[10]] keeps nine. *)
Fixpoint regex_flags (chars : bytes) (flags : Z) (extra : bytes) : Z * bytes :=
  match chars with
  | [] => (flags, extra)
  | flag :: rest =>
      if Byte.eqb flag "i"%byte then regex_flags rest (Z.lor flags IGNORECASE) extra
      else if Byte.eqb flag "m"%byte then regex_flags rest (Z.lor flags MULTILINE) extra
      else if Byte.eqb flag "x"%byte then regex_flags rest (Z.lor flags EXTENDED) extra
      else if len extra <? 9 then regex_flags rest flags (extra ++ [flag])
      else regex_flags rest flags extra
  end.

Definition unpack_C (s : bytes) : list Z := map byte.unsigned s.

Fixpoint get_value (fuel : nat) (buffer : ptr) (position : Z) (type : Z) {struct fuel}
  : dres (VALUE * Z) :=
  match fuel with
  | O => OutOfFuel
  | S fuel =>
  match type with
  | -1 => Value (RMinKey, position)
  | 1 =>
      d <~ read_bytes buffer position 8 ;;
      Value (RFloat (le_combine d), position + 8)
  | 2 | 13 =>
      i <~ read_int buffer position ;;
      let value_length := i - 1 in
      let position := position + 4 in
      value <~ STR_NEW buffer position value_length ;;
      Value (RString value, position + (value_length + 1))
  | 3 =>
      size <~ read_int buffer position ;;
      is_ref <~ strcmp_at buffer (position + 5) (str "$ref") ;;
      value <~ (if is_ref : bool then (* DBRef *)
                  let offset := position + 10 in
                  i <~ read_int buffer offset ;;
                  let collection_length := i - 1 in
                  let offset := offset + 4 in
                  collection <~ STR_NEW buffer offset collection_length ;;
                  let offset := offset + (collection_length + 1) in
                  id_type <~ peek buffer offset ;;
                  let offset := offset + 5 in
                  id <~ get_value fuel buffer offset (char_to_int id_type) ;;
                  Value (RDBRef (RString collection) (fst id))
                else
                  hash <~ elements_loop fuel (ptr_add buffer (position + 4)) (size - 5) 0 [] ;;
                  Value (RHash OrderedHash hash)) ;;
      Value (value, position + size)
  | 4 =>
      size <~ read_int buffer position ;;
      let end_ := position + size - 1 in
      let position := position + 4 in
      r <~ array_loop fuel buffer end_ position [] ;;
      Value (RArray (fst r), snd r + 1)
  | 5 =>
      length <~ read_int buffer position ;;
      c <~ peek buffer (position + 4) ;;
      let subtype := byte.unsigned c in
      data <~ (if subtype =? 2 then STR_NEW buffer (position + 9) (length - 4)
               else STR_NEW buffer (position + 5) length) ;;
      Value (RBinary subtype data, position + (length + 5))
  | 6 => Value (RNil, position)
  | 7 =>
      str <~ read_bytes buffer position 12 ;;
      Value (RObjectID (unpack_C str), position + 12)
  | 8 =>
      c <~ peek buffer position ;;
      Value (if is_nul c then RFalse else RTrue, position + 1)
  | 9 =>
      millis <~ read_long_long buffer position ;;
      let seconds := Z.quot millis 1000 in
      let microseconds := Z.rem millis 1000 * 1000 in
      Value (RTime (Time_at seconds microseconds), position + 8)
  | 10 => Value (RNil, position)
  | 11 =>
      pattern <~ c_string buffer position ;;
      let position := position + (len pattern + 1) in
      chars <~ c_string buffer position ;;
      let (flags, extra) := regex_flags chars 0 [] in
      Value (match extra with
             | [] => RRegexp pattern flags None
             | _ => (* Deserializing a RegexpOfHolding *)
                 RRegexp pattern flags (Some extra)
             end, position + (len chars + 1))
  | 12 =>
      i <~ read_int buffer position ;;
      let collection_length := i - 1 in
      let position := position + 4 in
      collection <~ STR_NEW buffer position collection_length ;;
      let position := position + (collection_length + 1) in
      str <~ read_bytes buffer position 12 ;;
      Value (RDBRef (RString collection) (RObjectID (unpack_C str)), position + 12)
  | 14 =>
      value_length <~ read_int buffer position ;;
      name <~ c_string buffer (position + 4) ;;
      Value (RSymbol name, position + (value_length + 4))
  | 15 =>
      let position := position + 4 in
      i <~ read_int buffer position ;;
      let code_length := i - 1 in
      let position := position + 4 in
      code <~ STR_NEW buffer position code_length ;;
      let position := position + (code_length + 1) in
      scope_size <~ read_int buffer position ;;
      scope <~ elements_loop fuel (ptr_add buffer (position + 4)) (scope_size - 5) 0 [] ;;
      Value (RCode code OrderedHash scope, position + scope_size)
  | 16 =>
      i <~ read_int buffer position ;;
      Value (RInteger i, position + 4)
  | 17 =>
      i <~ read_int buffer position ;;
      j <~ read_int buffer (position + 4) ;;
      Value (RArray [RInteger i; RInteger j], position + 8)
  | 18 =>
      ll <~ read_long_long buffer position ;;
      Value (RInteger ll, position + 8)
  | 127 => Value (RMaxKey, position)
  | _ => Exception (TypeError_no_decoder type)
  end
  end

(** The loop of [elements_to_hash], from [position] on, with the hash built
    so far. *)
with elements_loop (fuel : nat) (buffer : ptr) (max : Z) (position : Z) (hash : entries_t)
    {struct fuel} : dres entries_t :=
  match fuel with
  | O => OutOfFuel
  | S fuel =>
      if position <? max then
        c <~ peek buffer position ;;
        let type := char_to_int c in
        let position := position + 1 in
        name <~ c_string buffer position ;;
        let position := position + (len name + 1) in
        r <~ get_value fuel buffer position type ;;
        elements_loop fuel buffer max (snd r) (hash_aset hash (RString name) (fst r))
      else Value hash
  end

(** The loop of [case 4], with the array built so far. *)
with array_loop (fuel : nat) (buffer : ptr) (end_ : Z) (position : Z) (value : list VALUE)
    {struct fuel} : dres (list VALUE * Z) :=
  match fuel with
  | O => OutOfFuel
  | S fuel =>
      if position <? end_ then
        c <~ peek buffer position ;;
        let type := char_to_int c in
        let position := position + 1 in
        key <~ c_string buffer position ;;
        (* just skip the key, they're in order. *)
        let position := position + (len key + 1) in
        r <~ get_value fuel buffer position type ;;
        array_loop fuel buffer end_ (snd r) (value ++ [fst r])
      else Value (value, position)
  end.

(** [elements_to_hash]; the hash it builds is an OrderedHash. *)
Definition elements_to_hash (fuel : nat) (buffer : ptr) (max : Z) : dres entries_t :=
  elements_loop fuel buffer max 0 [].

Definition method_deserialize (fuel : nat) (bson : bytes) : dres entries_t :=
  let buffer := {| mem := bson; off := 0 |} in
  let remaining := len bson in
  (* NOTE we just swallow the size and end byte here *)
  let buffer := ptr_add buffer 4 in
  let remaining := remaining - 5 in
  elements_to_hash fuel buffer remaining.

(** ** Packing an array of bytes *)

(** [fast_pack], a method of Array: the array holds Fixnums, here their
    values; each one is cut to a [char] and appended to the string. *)
Definition fast_pack (self : list Z) : bytes :=
  map (fun x => byte.of_Z x) self.

(** ** The generator of object ids *)

(** What [objectid_generate] asks of the process and of Ruby: the clock, the
    name of the host ([None] when [gethostname] fails), the MD5 digest of a
    string, the process id and the counter of the ObjectID. *)
Record host := {
  time_now : Z;
  gethostname : option bytes;
  md5_digest : bytes -> bytes;
  getpid : Z;
  get_inc : Z
}.

Inductive generated :=
| Oid (oid : list Z)
| RuntimeError_hostname         (* failed to get hostname *)
| Outside.                      (* a read outside the digest *)

(** [htonl] and [htons] followed by a look at the bytes in memory: the
    bytes of a 32-bit and of a 16-bit number, the high one first. *)
Definition htonl (x : Z) : bytes := rev (le_split 4 x).
Definition htons (x : Z) : bytes := rev (le_split 2 x).

Definition objectid_generate (h : host) : generated :=
  let t := htonl (time_now h) in
  match gethostname h with
  | None => RuntimeError_hostname
  | Some hostname =>
      let digest := md5_digest h (c_str hostname) in
      if (length digest <? 3)%nat then Outside
      else
        let pid := htons (getpid h) in
        let inc := htonl (get_inc h) in
        let oid_bytes := t ++ firstn 3 digest ++ pid ++ firstn 3 (skipn 1 inc) in
        Oid (map byte.unsigned oid_bytes)
  end.

(** A build for Ruby 1.9 on x86-64. [Time#to_f] is that of Ruby 1.9.1:
    [(double)tv_sec + (double)tv_nsec / 1e9]. *)
Definition ruby19 : platform :=
  {| have_ruby_encoding := true; legal_utf8 := fun _ => true; foreach_allow_id := true;
     to_f := fun millis =>
       SFadd 53 1024 (double_of_Z (millis / 1000))
         (SFdiv 53 1024 (double_of_Z (millis mod 1000 * 1000000))
            (double_of_Z 1000000000)) |}.

(** * The vocabulary of the statements *)

(** ** Writers *)

(** No NUL byte in the string. *)
Definition no_nul (s : bytes) : Prop := existsb is_nul s = false.

(** The outcome [o] of a writer run on the empty buffer, moved after [b]. *)
Definition appo (b : buffer_t) (o : outcome) : outcome :=
  match o with Done e => Done (b ++ e) | Raise x => Raise x end.

(** A writer is independent of the buffer it is given when it does to any
    buffer what it does to the empty one, after the bytes already there. *)
Definition indep {X : Type} (F : buffer_t -> X * outcome) : Prop :=
  forall b, F b = (fst (F []), appo b (snd (F []))).

(** The same for a writer that returns its outcome only. *)
Definition appender (f : buffer_t -> outcome) : Prop :=
  forall b, f b = appo b (f []).

(** The exception that stops [write_utf8] on [s], if any. *)
Definition utf8_error (env : platform) (s : bytes) (check_null : bool) : option exn :=
  match write_utf8 env [] s check_null with
  | Raise e => Some e
  | Done _ => None
  end.

(** What the key tests of [write_element_allow_id] decide. *)
Definition id_like (key : VALUE) : bool :=
  match key_string key with
  | Some k => bytes_eqb (str "_id") (c_str k)
  | None => false
  end.

(** The outcome is not the exception of the model's bound. *)
Definition within_bound (o : outcome) : Prop := o <> Raise SystemStackError.

(** The depth of the deepest item. *)
Definition items_depth (values : list VALUE) : nat :=
  fold_right (fun v n => Nat.max (depth v) n) O values.

(** ** Tags and flags *)

(** The types [get_value] has a case for; a tag byte is read as a signed
    char, so 0xFF is -1. *)
Definition known_type (type : Z) : bool :=
  ((1 <=? type) && (type <=? 18)) || (type =? 127) || (type =? -1).

(** Bytes in non-decreasing order, as unsigned bytes. *)
Fixpoint nondecreasing (l : bytes) : bool :=
  match l with
  | c :: ((d :: _) as l') => (byte.unsigned c <=? byte.unsigned d) && nondecreasing l'
  | _ => true
  end.

(** ** The input after the call *)

(** Both spellings of the key "_id" are in the hash. *)
Definition id_clash (hash : entries_t) : bool :=
  has_key hash id_str && has_key hash id_sym.

(** No hash inside [value] holds both spellings. *)
Fixpoint clash_free (value : VALUE) : bool :=
  match value with
  | RHash _ h | RCode _ _ h =>
      negb (id_clash h) && forallb (fun e => clash_free (snd e)) h
  | RArray values => forallb clash_free values
  | RDBRef ns oid => clash_free ns && clash_free oid
  | _ => true
  end.

(** The same for a top-level document: with move_id the document itself may
    hold both spellings. *)
Definition clash_free_doc (move_id : bool) (doc : entries_t) : bool :=
  (move_id || negb (id_clash doc)) && forallb (fun e => clash_free (snd e)) doc.

(** ** The order of the elements *)

(** [out] is [b] followed by a document whose elements are those of [hash],
    each written once, in the order of [hash]. *)
Definition written_in_order (env : platform) (fuel : nat) (check_keys : bool)
    (hash : entries_t) (b out : bytes) : Prop :=
  exists parts,
    Forall2 (fun p part =>
               snd (write_element_allow_id env fuel (fst p) (snd p) [] check_keys true)
               = Done part) hash parts
    /\ out = b ++ le_split 4 (len (concat parts) + 5) ++ concat parts ++ [x00].

(** The document with its "_id" entry first (the string key when there is
    one, else the symbol key) and without any other entry named "_id". *)
Definition id_first (hash : entries_t) : entries_t :=
  let rest := filter (fun e => negb (id_like (fst e))) hash in
  if has_key hash id_str then (id_str, rb_hash_aref hash id_str) :: rest
  else if has_key hash id_sym then (id_sym, rb_hash_aref hash id_sym) :: rest
  else rest.

(** ** Checked keys *)

(** The key is a string or symbol that passes the test of check_keys. *)
Definition key_ok (key : VALUE) : bool :=
  match key_string key with
  | Some k => match check_key k with None => true | Some _ => false end
  | None => false
  end.

(** The pair under [key] is not written by a traversal of [hash]: it was
    deleted before the traversal, or the element writer skips it. *)
Definition not_written (env : platform) (klass : hash_class) (move_id : bool)
    (hash : entries_t) (key : VALUE) : bool :=
  (negb move_id && id_clash hash && key_eql key id_str)
  || (negb (match klass with
            | OrderedHash => negb move_id
            | Hash => foreach_allow_id env
            end) && id_like key).

(** Every key that is written under check_keys, in [value] and below it
    through hashes and arrays, passes the test. *)
Fixpoint keys_checked (env : platform) (value : VALUE) : bool :=
  match value with
  | RHash klass h =>
      forallb (fun e => not_written env klass false h (fst e)
                        || (key_ok (fst e) && keys_checked env (snd e))) h
  | RArray values => forallb (keys_checked env) values
  | _ => true
  end.

(** The same for a top-level document, whose "_id" entry is written first
    under move_id. *)
Definition keys_checked_doc (env : platform) (klass : hash_class) (move_id : bool)
    (doc : entries_t) : bool :=
  (if move_id then
     if has_key doc id_str then keys_checked env (rb_hash_aref doc id_str)
     else if has_key doc id_sym then keys_checked env (rb_hash_aref doc id_sym)
     else true
   else true)
  && forallb (fun e => not_written env klass move_id doc (fst e)
                       || (key_ok (fst e) && keys_checked env (snd e))) doc.

(** An ASCII digit, as in the keys of array items. *)
Definition is_digit (c : byte) : bool :=
  (48 <=? byte.unsigned c) && (byte.unsigned c <=? 57).

(** ** Documents that are read back as they were written *)

(** What follows an element in the buffer: the tag of the next element or
    the terminator of the document, never a '$'. *)
Definition rest_ok (rest : bytes) : Prop :=
  exists c r, rest = c :: r /\ c <> "$"%byte.

(** The key is a plain string. *)
Definition is_string_key (key : VALUE) : bool :=
  match key with RString _ => true | _ => false end.

(** No key of the hash is the key of a later entry. *)
Fixpoint distinct_keys (hash : entries_t) : bool :=
  match hash with
  | [] => true
  | (k, _) :: rest => negb (has_key rest k) && distinct_keys rest
  end.

(** The keys of the hash are strings, no two of them equal. *)
Definition string_keys (hash : entries_t) : bool :=
  forallb (fun e => is_string_key (fst e)) hash && distinct_keys hash.

(** The first key of the hash is "$ref": [get_value] reads such an embedded
    document as a DBRef. *)
Definition ref_first (hash : entries_t) : bool :=
  match hash with
  | (RString k, _) :: _ => bytes_eqb k (str "$ref")
  | _ => false
  end.

(** Extra regex flags as the reader returns them: some, at most nine, none
    of them NUL or an engine flag, in the order of [cmp_char]. *)
Definition extra_ok (extra : bytes) : bool :=
  (1 <=? len extra) && (len extra <=? 9)
  && forallb (fun c => negb (is_nul c || Byte.eqb c "i" || Byte.eqb c "m" || Byte.eqb c "x"))
       extra
  && bytes_eqb (qsort extra) extra.

(** The values that come back as they are: the supported variants, in the
    form in which the reader builds them. A Time is one that the writer
    writes as its own count of milliseconds: the doubles of [time_since_epoch]
    lose nothing of it. *)
Fixpoint canonical (env : platform) (value : VALUE) : bool :=
  match value with
  | RInteger _ | RTrue | RFalse | RNil | RString _ | RMaxKey | RMinKey => true
  | RFloat bits => (0 <=? bits) && (bits <? 2 ^ 64)
  | RHash klass h =>
      match klass with OrderedHash => true | Hash => false end
      && string_keys h && negb (ref_first h)
      && forallb (fun e => canonical env (snd e)) h
  | RArray values => forallb (canonical env) values
  | RCode _ klass h =>
      match klass with OrderedHash => true | Hash => false end
      && string_keys h
      && forallb (fun e => canonical env (snd e)) h
  | RSymbol name => negb (existsb is_nul name)
  | RBinary subtype _ => (0 <=? subtype) && (subtype <? 256)
  | RObjectID data =>
      (length data =? 12)%nat && forallb (fun x => (0 <=? x) && (x <? 256)) data
  | RDBRef ns oid => is_string_key ns && canonical env oid
  | RTime millis => time_since_epoch env millis =? millis
  | RRegexp _ options extra =>
      (0 <=? options) && (options <=? 7)
      && match extra with Some e => extra_ok e | None => true end
  | RByteBuffer _ | RObject _ | RData _ | ROther _ => false
  end.

(** The same for a top-level document, which is read as a document whatever
    its first key. *)
Definition canonical_doc (env : platform) (doc : entries_t) : bool :=
  string_keys doc && forallb (fun e => canonical env (snd e)) doc.

(** Fuel that is enough to read a value back. *)
Fixpoint dsize (value : VALUE) : nat :=
  match value with
  | RHash _ h | RCode _ _ h => S (S (fold_right (fun e n => S (dsize (snd e)) + n)%nat O h))
  | RArray values => S (S (fold_right (fun v n => S (dsize v) + n)%nat O values))
  | RDBRef _ oid => S (dsize oid)
  | _ => 1%nat
  end.

(** Fuel that is enough for the loop over the elements of a document. *)
Definition entries_dsize (h : entries_t) : nat :=
  S (fold_right (fun e n => S (dsize (snd e)) + n)%nat O h).

(** [payload], read as a value of the type of tag [t], gives [v] and moves
    the position to its end. *)
Definition decodes (t : byte) (payload : bytes) (v : VALUE) : Prop :=
  forall fuel buffer position rest,
    (dsize v <= fuel)%nat ->
    from buffer position = Some (payload ++ rest) ->
    rest_ok rest ->
    get_value fuel buffer position (char_to_int t) = Value (v, position + len payload).

(** An element as the reader expects it. *)
Definition element_of (k : bytes) (v : VALUE) (e : bytes) : Prop :=
  exists t payload,
    e = t :: k ++ x00 :: payload /\ no_nul k /\ t <> "$"%byte /\ decodes t payload v.

(** The engine flags as they are written. *)
Definition imx_flags (options : Z) : bytes :=
  (if flag_set options IGNORECASE then ["i"%byte] else [])
  ++ (if flag_set options MULTILINE then ["m"%byte] else [])
  ++ (if flag_set options EXTENDED then ["x"%byte] else []).

(** The extra flags as they are written: sorted by [qsort]. *)
Definition sorted_extra (extra : option bytes) : bytes :=
  match extra with Some e => qsort e | None => [] end.

(** A pair with a string key and the element that holds it. *)
Definition pair_element (p : VALUE * VALUE) (part : bytes) : Prop :=
  exists k, fst p = RString k /\ element_of k (snd p) part.

(** An item of an array and the element that holds it, under some key. *)
Definition item_element (v : VALUE) (part : bytes) : Prop :=
  exists k, element_of k v part.

(** Fuel that is enough for the loop over the items of an array. *)
Definition items_dsize (values : list VALUE) : nat :=
  S (fold_right (fun v n => S (dsize v) + n)%nat O values).

(** ** Object ids *)

(** The number that a list of byte values spells, the high byte first. *)
Definition be_number (l : list Z) : Z := le_combine (fast_pack (rev l)).

(** The values of bytes. *)
Definition byte_values (l : list Z) : Prop := Forall (fun x => 0 <= x < 256) l.

(** ** The exceptions of the serializer *)

(** The exceptions that a call of [method_serialize] with this check_keys
    can raise. *)
Definition serialize_raises (env : platform) (check_keys : bool) (e : exn) : bool :=
  match e with
  | NoMemError | TypeError_keys | RangeError | InvalidDocument_null
  | InvalidDocument_class _ | InvalidDocument_too_large => true
  | InvalidName_dollar | InvalidName_dot => check_keys
  | InvalidStringEncoding => negb (have_ruby_encoding env)
  | _ => false
  end.

(** The same for the element writer, which stops at the model's bound. *)
Definition may_raise (env : platform) (check_keys : bool) (e : exn) : bool :=
  serialize_raises env check_keys e
  || match e with SystemStackError => true | _ => false end.

(** The outcome raises nothing but what [P] allows. *)
Definition raises_in (P : exn -> bool) (o : outcome) : Prop :=
  forall e, o = Raise e -> P e = true.

(** ** The type bytes *)

(** The type byte that the switch of [write_element_allow_id] writes for a
    value, for the classes it has a case for. *)
Definition type_byte (value : VALUE) : option byte :=
  match value with
  | RInteger n => if (2147483647 <? n) || (n <? -2147483648) then Some x12 else Some x10
  | RTrue | RFalse => Some x08
  | RFloat _ => Some x01
  | RNil => Some x0a
  | RHash _ _ | RDBRef _ _ => Some x03
  | RArray _ => Some x04
  | RString _ => Some x02
  | RCode _ _ _ => Some x0f
  | RSymbol _ => Some x0e
  | RBinary _ _ | RByteBuffer _ => Some x05
  | RObjectID _ => Some x07
  | RMaxKey => Some x7f
  | RMinKey => Some xff
  | RTime _ => Some x09
  | RRegexp _ _ _ => Some x0b
  | RObject _ | RData _ | ROther _ => None
  end.

(** ** Containers as documents *)

(** The document that holds the items of an array under the keys "i",
    "i+1", and so on, in decimal. *)
Fixpoint index_keys (i : nat) (items : list VALUE) : entries_t :=
  match items with
  | [] => []
  | v :: rest => (RString (INT2STRING i), v) :: index_keys (S i) rest
  end.

(** The document with the two fields of a DBRef. *)
Definition dbref_doc (ns oid : VALUE) : entries_t :=
  [(RString (str "$ref"), ns); (RString (str "$id"), oid)].

(** ** Regex flags of the reader *)

(** One of the three flag letters of the regex engine. *)
Definition engine_flag (c : byte) : bool :=
  Byte.eqb c "i"%byte || Byte.eqb c "m"%byte || Byte.eqb c "x"%byte.

(** ** Sorting *)

(** The order of [cmp_char] on two chars. *)
Definition char_le (a b : byte) : Prop := char_to_int a <= char_to_int b.

(** ** Keys as the reader returns them *)

(** The key of an element as the reader returns it: the string that a
    string or symbol key is written as. *)
Definition key_to_string (key : VALUE) : VALUE :=
  match key_string key with Some k => RString k | None => key end.

(** The value with every key in it as the reader returns it, and a
    ByteBuffer as the Binary of subtype 2 that it is written as. *)
Fixpoint stringify (value : VALUE) : VALUE :=
  match value with
  | RHash klass h =>
      RHash klass (map (fun e => (key_to_string (fst e), stringify (snd e))) h)
  | RCode code klass h =>
      RCode code klass (map (fun e => (key_to_string (fst e), stringify (snd e))) h)
  | RArray values => RArray (map stringify values)
  | RDBRef ns oid => RDBRef (stringify ns) (stringify oid)
  | RByteBuffer data => RBinary 2 data
  | _ => value
  end.

Definition stringify_doc (doc : entries_t) : entries_t :=
  map (fun e => (key_to_string (fst e), stringify (snd e))) doc.

(** ** Values whose key is written *)

(** The switch of [write_element_allow_id] comes to [write_name_and_type]
    for this value: its class has a case, an integer is within 64 bits and
    the subtype of a Binary fits a C int. *)
Definition names_key (value : VALUE) : bool :=
  match value with
  | RInteger n => (-9223372036854775808 <=? n) && (n <=? 9223372036854775807)
  | RBinary st _ => match FIX2INT st with Some _ => true | None => false end
  | RObject _ | RData _ | ROther _ => false
  | _ => true
  end.

(** The options that the letters "i", "m" and "x" among [chars] stand for. *)
Definition engine_options (chars : bytes) : Z :=
  Z.lor (Z.lor (if existsb (fun c => Byte.eqb c "i"%byte) chars then IGNORECASE else 0)
               (if existsb (fun c => Byte.eqb c "m"%byte) chars then MULTILINE else 0))
        (if existsb (fun c => Byte.eqb c "x"%byte) chars then EXTENDED else 0).

(** * Properties *)

#[local] Arguments Byte.eqb : simpl never.
#[local] Arguments is_nul : simpl never.

(** ** Bytes, lengths, C strings *)

Lemma bytes_eqb_eq (a b : bytes) : bytes_eqb a b = true <-> a = b.
Proof.
  revert b. induction a as [|x a IH]; intros [|y b]; simpl; split; intros H;
    try reflexivity; try discriminate.
  - apply andb_true_iff in H. destruct H as [H1 H2].
    apply byte_dec_bl in H1. apply IH in H2. congruence.
  - inversion H; subst. apply andb_true_iff. split.
    + now apply byte_dec_lb.
    + now apply IH.
Qed.

Lemma bytes_eqb_refl (a : bytes) : bytes_eqb a a = true.
Proof. now apply bytes_eqb_eq. Qed.

Lemma bytes_eqb_neq (a b : bytes) : bytes_eqb a b = false <-> a <> b.
Proof.
  split.
  - intros H E. apply bytes_eqb_eq in E. congruence.
  - intros H. destruct (bytes_eqb a b) eqn:E; [|reflexivity].
    apply bytes_eqb_eq in E. contradiction.
Qed.

Lemma len_nil : len [] = 0.
Proof. reflexivity. Qed.

Lemma len_cons (c : byte) (s : bytes) : len (c :: s) = 1 + len s.
Proof. unfold len. simpl length. lia. Qed.

Lemma len_app (a b : bytes) : len (a ++ b) = len a + len b.
Proof. unfold len. rewrite length_app. lia. Qed.

Lemma len_nonneg (a : bytes) : 0 <= len a.
Proof. unfold len. lia. Qed.

Lemma len_le_split (n : nat) (z : Z) : len (le_split n z) = Z.of_nat n.
Proof. unfold len. now rewrite length_le_split. Qed.

Lemma len_repeat (c : byte) (n : nat) : len (repeat c n) = Z.of_nat n.
Proof. unfold len. now rewrite repeat_length. Qed.

Lemma c_str_no_nul (s : bytes) : no_nul s -> c_str s = s.
Proof.
  unfold no_nul. induction s as [|c s IH]; simpl; [reflexivity|].
  intros H. apply orb_false_iff in H. destruct H as [H1 H2].
  rewrite H1. now rewrite IH.
Qed.

Lemma c_str_is_no_nul (s : bytes) : no_nul (c_str s).
Proof.
  unfold no_nul. induction s as [|c s IH]; simpl; [reflexivity|].
  destruct (is_nul c) eqn:E; simpl; [reflexivity|]. now rewrite E.
Qed.

Lemma c_str_app_nul (s t : bytes) : no_nul s -> c_str (s ++ Byte.x00 :: t) = s.
Proof.
  unfold no_nul. induction s as [|c s IH]; simpl; [reflexivity|].
  intros H. apply orb_false_iff in H. destruct H as [H1 H2].
  rewrite H1. now rewrite IH.
Qed.

Lemma existsb_nul_app_nul (s t : bytes) : existsb is_nul (s ++ Byte.x00 :: t) = true.
Proof. rewrite existsb_app. simpl. now rewrite orb_true_r. Qed.

(** ** Two's complement *)

Lemma swrap_small (w z : Z) :
  0 < w -> - 2 ^ (w - 1) <= z < 2 ^ (w - 1) -> swrap w z = z.
Proof.
  intros Hw Hz. unfold swrap.
  assert (E : 2 ^ w = 2 * 2 ^ (w - 1)).
  { replace w with (Z.succ (w - 1)) at 1 by lia. rewrite Z.pow_succ_r by lia. reflexivity. }
  rewrite Z.mod_small by lia. lia.
Qed.

Lemma swrap_mod (w z : Z) : 0 < w -> swrap w (z mod 2 ^ w) = swrap w z.
Proof.
  intros Hw. unfold swrap.
  assert (0 < 2 ^ w) by (apply Z.pow_pos_nonneg; lia).
  rewrite Zplus_mod_idemp_l. reflexivity.
Qed.

Lemma read_le_split (n : nat) (z : Z) :
  (0 < n)%nat ->
  - 2 ^ (Z.of_nat n * 8 - 1) <= z < 2 ^ (Z.of_nat n * 8 - 1) ->
  swrap (Z.of_nat n * 8) (le_combine (le_split n z)) = z.
Proof.
  intros Hn Hz. rewrite le_combine_split. rewrite swrap_mod by lia.
  apply swrap_small; lia.
Qed.

(** ** Outcomes that append *)

Lemma appo_nil (o : outcome) : appo [] o = o.
Proof. now destruct o. Qed.

Lemma appo_app (b e : buffer_t) (o : outcome) : appo (b ++ e) o = appo b (appo e o).
Proof. destruct o; simpl; [now rewrite app_assoc | reflexivity]. Qed.

Lemma appender_SAFE_WRITE (data : bytes) : appender (fun b => SAFE_WRITE b data).
Proof. intros b. reflexivity. Qed.

Lemma appender_Done : appender Done.
Proof. intros b. simpl. now rewrite app_nil_r. Qed.

Lemma appender_Raise (e : exn) : appender (fun _ => Raise e).
Proof. intros b. reflexivity. Qed.

Lemma appender_bind (f g : buffer_t -> outcome) :
  appender f -> appender g -> appender (fun b => bindo (f b) g).
Proof.
  intros Hf Hg b. rewrite Hf. destruct (f []) as [e|x]; simpl; [|reflexivity].
  rewrite Hg. rewrite (Hg e). now rewrite appo_app.
Qed.

Lemma appender_if (c : bool) (f g : buffer_t -> outcome) :
  appender f -> appender g -> appender (fun b => if c then f b else g b).
Proof. now destruct c. Qed.

Lemma appender_write_utf8 (env : platform) (s : bytes) (check_null : bool) :
  appender (fun b => write_utf8 env b s check_null).
Proof.
  intros b. unfold write_utf8.
  destruct (have_ruby_encoding env); destruct (check_string env s _ check_null); reflexivity.
Qed.

Lemma appender_write_name_and_type (env : platform) (name : bytes) (type : byte) :
  appender (fun b => write_name_and_type env b name type).
Proof.
  unfold write_name_and_type.
  apply appender_bind; [apply appender_SAFE_WRITE|].
  apply appender_bind; [apply appender_write_utf8|apply appender_SAFE_WRITE].
Qed.

Lemma write_utf8_Done (env : platform) (b b' : buffer_t) (s : bytes) (cn : bool) :
  write_utf8 env b s cn = Done b' -> b' = b ++ s /\ (cn = true -> no_nul s).
Proof.
  unfold write_utf8, check_string, no_nul.
  destruct cn; simpl; destruct (existsb is_nul s); simpl;
    destruct (have_ruby_encoding env); simpl;
    try destruct (legal_utf8 env s); simpl; intros H; inversion H; auto; try discriminate.
Qed.

Lemma write_name_and_type_Done (env : platform) (b b' : buffer_t) (name : bytes) (t : byte) :
  write_name_and_type env b name t = Done b' ->
  b' = b ++ t :: name ++ zero /\ no_nul name.
Proof.
  unfold write_name_and_type. simpl.
  destruct (write_utf8 env (b ++ [t]) name true) as [b1|e] eqn:E; simpl; [|discriminate].
  apply write_utf8_Done in E. destruct E as [-> Hn].
  intros H. inversion H. split; [|auto].
  rewrite <- !app_assoc. reflexivity.
Qed.

(** Patching the four bytes reserved at the end of [b]. *)
Lemma patch_reserved (b rest d : bytes) (n : nat) :
  length d = n ->
  buffer_write_at_position (b ++ repeat Byte.x00 n ++ rest) (len b) d
  = Some (b ++ d ++ rest).
Proof.
  intros Hd. unfold buffer_write_at_position.
  pose proof (len_nonneg b). pose proof (len_nonneg rest).
  assert (Hl : len d = Z.of_nat n) by (unfold len; now rewrite Hd).
  destruct ((0 <=? len b) && (len b + len d <=? len (b ++ repeat Byte.x00 n ++ rest))) eqn:E.
  - unfold len. rewrite Nat2Z.id.
    rewrite List.firstn_app_l by reflexivity.
    rewrite Hd, List.skipn_app_r2 by reflexivity.
    rewrite List.skipn_app_r by (now rewrite repeat_length).
    reflexivity.
  - exfalso. apply andb_false_iff in E. rewrite !len_app, len_repeat in E.
    destruct E as [E|E]; apply Z.leb_gt in E; lia.
Qed.

Lemma qsort_length (l : bytes) : length (qsort l) = length l.
Proof.
  assert (Hi : forall c l, length (insert_char c l) = S (length l)).
  { intros c l0. induction l0 as [|d l0 IH]; simpl; [reflexivity|].
    destruct (cmp_char c d <=? 0); simpl; [reflexivity|]. now rewrite IH. }
  induction l as [|c l IH]; simpl; [reflexivity|]. now rewrite Hi, IH.
Qed.

Lemma qsort_at_end (b extra : bytes) :
  qsort_at (b ++ extra) (len b) (length extra) = b ++ qsort extra.
Proof.
  unfold qsort_at, len. rewrite Nat2Z.id.
  rewrite List.firstn_app_l by reflexivity.
  rewrite List.skipn_app_r by reflexivity.
  rewrite firstn_all.
  rewrite skipn_all2 by (rewrite length_app; lia).
  now rewrite app_nil_r.
Qed.

Lemma appender_extra (has_extra : option bytes) :
  appender (fun buffer =>
    match has_extra with
    | Some extra =>
        let old_position := buffer_get_position buffer in
        buffer <- SAFE_WRITE buffer extra ;;
        Done (qsort_at buffer old_position (length extra))
    | None => Done buffer
    end).
Proof.
  destruct has_extra as [extra|]; [|apply appender_Done].
  intros b. cbn [bindo SAFE_WRITE buffer_write appo]. unfold buffer_get_position.
  rewrite qsort_at_end. now rewrite (qsort_at_end [] extra).
Qed.

Lemma appender_option {A : Type} (o : option A) (f : A -> buffer_t -> outcome) (x : exn) :
  (forall a, appender (f a)) ->
  appender (fun b => match o with Some a => f a b | None => Raise x end).
Proof. intros H. destruct o; [apply H|intros b; reflexivity]. Qed.

Lemma appender_objectid_loop (as_array : list Z) (indices : list nat) :
  appender (objectid_loop as_array indices).
Proof.
  induction indices as [|i rest IH]; intros b; cbn [objectid_loop].
  - cbn. now rewrite app_nil_r.
  - destruct (FIX2INT (nth i as_array 0)); [|reflexivity].
    cbn [bindo SAFE_WRITE buffer_write]. rewrite IH, (IH ([] ++ _)).
    now rewrite appo_app.
Qed.

Ltac appender_tac :=
  repeat first
    [ apply appender_SAFE_WRITE
    | apply appender_objectid_loop
    | (apply appender_option; intros ?)
    | apply appender_write_utf8
    | apply appender_write_name_and_type
    | apply appender_Done
    | apply appender_Raise
    | apply appender_extra
    | apply appender_bind
    | apply appender_if ].

Ltac as_appender :=
  match goal with
  | |- forall b : buffer_t, @?F b = appo b _ => change (appender F); appender_tac
  end.

(** The blocks that carry their own length. *)

Lemma doc_finish_eq (b e : bytes) :
  write_doc_finish (len b) (len b) ((b ++ repeat Byte.x00 4) ++ e)
  = if MAX_DOC <? len e + 5 then Raise InvalidDocument_too_large
    else Done (b ++ le_split 4 (len e + 5) ++ e ++ zero).
Proof.
  unfold write_doc_finish. cbn [bindo SAFE_WRITE buffer_write]. unfold buffer_get_position.
  match goal with
  | |- context [le_split 4 ?x] =>
      replace x with (len e + 5)
        by (rewrite !len_app, len_repeat; unfold zero; rewrite len_cons, len_nil; lia)
  end.
  destruct (MAX_DOC <? len e + 5); [reflexivity|].
  unfold SAFE_WRITE_AT_POS. rewrite <- !app_assoc.
  rewrite patch_reserved by apply length_le_split. reflexivity.
Qed.

Lemma block_finish_eq (b e : bytes) :
  (buffer <- SAFE_WRITE ((b ++ repeat Byte.x00 4) ++ e) zero ;;
   SAFE_WRITE_AT_POS buffer (len b)
     (le_split 4 (buffer_get_position buffer - buffer_get_position b)))
  = Done (b ++ le_split 4 (len e + 5) ++ e ++ zero).
Proof.
  cbn [bindo SAFE_WRITE buffer_write]. unfold buffer_get_position.
  match goal with
  | |- context [le_split 4 ?x] =>
      replace x with (len e + 5)
        by (rewrite !len_app, len_repeat; unfold zero; rewrite len_cons, len_nil; lia)
  end.
  unfold SAFE_WRITE_AT_POS. rewrite <- !app_assoc.
  rewrite patch_reserved by apply length_le_split. reflexivity.
Qed.

Lemma code_finish_eq (b e : bytes) :
  SAFE_WRITE_AT_POS ((b ++ repeat Byte.x00 4) ++ e) (len b)
    (le_split 4 (buffer_get_position ((b ++ repeat Byte.x00 4) ++ e) - buffer_get_position b))
  = Done (b ++ le_split 4 (len e + 4) ++ e).
Proof.
  unfold buffer_get_position.
  match goal with
  | |- context [le_split 4 ?x] =>
      replace x with (len e + 4) by (rewrite !len_app, len_repeat; lia)
  end.
  unfold SAFE_WRITE_AT_POS. rewrite <- !app_assoc.
  rewrite patch_reserved by apply length_le_split. reflexivity.
Qed.

(** ** The writers do not depend on the bytes already in the buffer *)

Section Independence.

Variable env : platform.
Variable we : VALUE -> VALUE -> buffer_t -> bool -> bool -> VALUE * outcome.
Hypothesis we_indep : forall k v ck a, indep (fun b => we k v b ck a).

Lemma each_pair_indep (ck a : bool) (hash : entries_t) :
  indep (each_pair we ck a hash).
Proof.
  induction hash as [|[k v] rest IH]; intros b.
  - simpl. now rewrite app_nil_r.
  - simpl. rewrite (we_indep k v ck a b).
    destruct (we k v [] ck a) as [v' [e|x]]; simpl; [|reflexivity].
    rewrite (IH (b ++ e)), (IH e).
    destruct (each_pair we ck a rest []) as [rest' o]; simpl.
    now rewrite appo_app.
Qed.

Lemma each_item_indep (ck : bool) (values : list VALUE) (i : nat) :
  indep (each_item we ck i values).
Proof.
  revert i. induction values as [|v rest IH]; intros i b.
  - simpl. now rewrite app_nil_r.
  - simpl. rewrite (we_indep (RString (INT2STRING i)) v ck false b).
    destruct (we (RString (INT2STRING i)) v [] ck false) as [v' [e|x]]; simpl; [|reflexivity].
    rewrite (IH (S i) (b ++ e)), (IH (S i) e).
    destruct (each_item we ck (S i) rest []) as [rest' o]; simpl.
    now rewrite appo_app.
Qed.

Lemma write_doc_elements_indep (klass : hash_class) (hash : entries_t) (ck mid : bool) :
  indep (fun b => write_doc_elements env we b klass hash ck mid).
Proof.
  intros b. unfold write_doc_elements.
  destruct mid.
  - destruct (has_key hash id_str).
    + rewrite (we_indep id_str _ ck true b).
      destruct (we id_str (rb_hash_aref hash id_str) [] ck true) as [v' [e|x]]; simpl;
        [|reflexivity].
      destruct klass; rewrite (each_pair_indep _ _ _ (b ++ e)), (each_pair_indep _ _ _ e);
        simpl; now rewrite appo_app.
    + destruct (has_key hash id_sym).
      * rewrite (we_indep id_sym _ ck true b).
        destruct (we id_sym (rb_hash_aref hash id_sym) [] ck true) as [v' [e|x]]; simpl;
          [|reflexivity].
        destruct klass; rewrite (each_pair_indep _ _ _ (b ++ e)), (each_pair_indep _ _ _ e);
          simpl; now rewrite appo_app.
      * destruct klass; apply each_pair_indep.
  - destruct (has_key hash id_str && has_key hash id_sym); destruct klass;
      apply each_pair_indep.
Qed.

Lemma write_doc_gen_indep (klass : hash_class) (hash : entries_t) (ck mid : bool) :
  indep (fun b => write_doc_gen env we b klass hash ck mid).
Proof.
  intros b. unfold write_doc_gen, buffer_save_space, buffer_get_position.
  rewrite (write_doc_elements_indep klass hash ck mid (b ++ repeat Byte.x00 4)).
  rewrite (write_doc_elements_indep klass hash ck mid ([] ++ repeat Byte.x00 4)).
  destruct (write_doc_elements env we [] klass hash ck mid) as [h' [e|x]]; simpl fst; simpl snd;
    [|reflexivity].
  cbn [appo bindo].
  change ("000"%byte :: "000"%byte :: "000"%byte :: "000"%byte :: e)
    with (([] ++ repeat Byte.x00 4) ++ e).
  rewrite doc_finish_eq. rewrite (doc_finish_eq [] e).
  destruct (MAX_DOC <? len e + 5); reflexivity.
Qed.

Lemma write_name_and_type_app (b : buffer_t) (name : bytes) (t : byte) :
  write_name_and_type env b name t = appo b (write_name_and_type env [] name t).
Proof. apply (appender_write_name_and_type env name t). Qed.

Lemma write_value_indep (k : bytes) (value : VALUE) (ck : bool) :
  indep (fun b => write_value env we k value b ck).
Proof.
  intros b. unfold write_value.
  destruct value; cbn [fst snd]; try reflexivity;
    try (f_equal; revert b; as_appender; fail).
  - (* RHash *)
    rewrite write_name_and_type_app.
    destruct (write_name_and_type env [] k x03) as [e1|x]; [|reflexivity].
    cbn [appo]. rewrite (write_doc_gen_indep klass entries ck false (b ++ e1)).
    rewrite (write_doc_gen_indep klass entries ck false e1).
    destruct (write_doc_gen env we [] klass entries ck false) as [h' o]; cbn [fst snd].
    now rewrite appo_app.
  - (* RArray *)
    rewrite write_name_and_type_app.
    destruct (write_name_and_type env [] k x04) as [e1|x]; [|reflexivity].
    cbn [appo]. unfold buffer_save_space.
    rewrite (each_item_indep ck items 0 ((b ++ e1) ++ repeat Byte.x00 4)).
    rewrite (each_item_indep ck items 0 (e1 ++ repeat Byte.x00 4)).
    destruct (each_item we ck 0 items []) as [vs' [e2|x]]; cbn [fst snd appo bindo];
      [|reflexivity].
    rewrite (block_finish_eq (b ++ e1) e2), (block_finish_eq e1 e2).
    cbn [appo]. now rewrite <- !app_assoc.
  - (* RCode *)
    rewrite write_name_and_type_app.
    destruct (write_name_and_type env [] k x0f) as [e1|x]; [|reflexivity].
    cbn [appo]. unfold buffer_save_space.
    cbn [bindo SAFE_WRITE buffer_write].
    match goal with
    | |- context [write_doc_gen env we ?b1 scope_klass scope false false] =>
        rewrite (write_doc_gen_indep scope_klass scope false false b1)
    end.
    match goal with
    | |- context [write_doc_gen env we (((?b1 ++ ?z) ++ ?l) ++ ?c) scope_klass scope false false] =>
        rewrite (write_doc_gen_indep scope_klass scope false false (((b1 ++ z) ++ l) ++ c))
    end.
    destruct (write_doc_gen env we [] scope_klass scope false false) as [h' [e2|x]];
      cbn [fst snd appo bindo]; [|reflexivity].
    rewrite <- !app_assoc.
    rewrite (app_assoc b e1), (app_assoc (b ++ e1) (repeat _ _)).
    rewrite (app_assoc e1 (repeat _ _)).
    rewrite (code_finish_eq (b ++ e1)), (code_finish_eq e1).
    cbn [appo]. now rewrite <- !app_assoc.
  - (* RDBRef *)
    rewrite write_name_and_type_app.
    destruct (write_name_and_type env [] k x03) as [e1|x]; [|reflexivity].
    cbn [appo]. unfold buffer_save_space.
    rewrite (we_indep (RString (str "$ref")) value1 false false ((b ++ e1) ++ repeat Byte.x00 4)).
    rewrite (we_indep (RString (str "$ref")) value1 false false (e1 ++ repeat Byte.x00 4)).
    destruct (we (RString (str "$ref")) value1 [] false false) as [ns' [e2|x]];
      cbn [fst snd appo]; [|reflexivity].
    rewrite (we_indep (RString (str "$id")) value2 false false (((b ++ e1) ++ repeat Byte.x00 4) ++ e2)).
    rewrite (we_indep (RString (str "$id")) value2 false false ((e1 ++ repeat Byte.x00 4) ++ e2)).
    destruct (we (RString (str "$id")) value2 [] false false) as [oid' [e3|x]];
      cbn [fst snd appo bindo]; [|reflexivity].
    rewrite <- (app_assoc _ e2 e3), <- (app_assoc _ e2 e3).
    rewrite (block_finish_eq (b ++ e1)), (block_finish_eq e1).
    cbn [appo]. now rewrite <- !app_assoc.
Qed.

End Independence.

Theorem write_element_allow_id_indep (env : platform) (fuel : nat) :
  forall key value check_keys allow_id,
    indep (fun b => write_element_allow_id env fuel key value b check_keys allow_id).
Proof.
  induction fuel as [|fuel IH]; intros key value ck a b; [reflexivity|].
  cbn [write_element_allow_id].
  destruct (key_string key) as [k|]; [|reflexivity].
  destruct (negb a && bytes_eqb (str "_id") (c_str k)); [simpl; now rewrite app_nil_r|].
  destruct (if ck then check_key k else None); [reflexivity|].
  apply write_value_indep. exact IH.
Qed.

Ltac list_norm :=
  repeat (rewrite <- app_assoc || rewrite <- app_comm_cons || rewrite app_nil_l).

Tactic Notation "list_norm" "in" hyp(H) :=
  repeat (rewrite <- app_assoc in H || rewrite <- app_comm_cons in H
          || rewrite app_nil_l in H).

(** ** Closed forms *)

Lemma write_utf8_eq (env : platform) (b : buffer_t) (s : bytes) (cn : bool) :
  write_utf8 env b s cn
  = match utf8_error env s cn with Some e => Raise e | None => Done (b ++ s) end.
Proof.
  unfold utf8_error. rewrite (appender_write_utf8 env s cn b).
  destruct (write_utf8 env [] s cn) as [e|x] eqn:E; [|reflexivity].
  apply write_utf8_Done in E. destruct E as [-> _]. reflexivity.
Qed.

Lemma utf8_error_no_nul (env : platform) (s : bytes) :
  utf8_error env s true = None -> no_nul s.
Proof.
  unfold utf8_error. destruct (write_utf8 env [] s true) eqn:E; [|discriminate].
  intros _. apply write_utf8_Done in E. now apply E.
Qed.

Lemma write_name_and_type_eq (env : platform) (b : buffer_t) (name : bytes) (t : byte) :
  write_name_and_type env b name t
  = match utf8_error env name true with
    | Some e => Raise e
    | None => Done (b ++ t :: name ++ zero)
    end.
Proof.
  unfold write_name_and_type. cbn [bindo SAFE_WRITE buffer_write].
  rewrite write_utf8_eq. destruct (utf8_error env name true); [reflexivity|].
  cbn [bindo]. now rewrite <- !app_assoc.
Qed.

Lemma write_element_allow_id_S (env : platform) (fuel : nat) (key value : VALUE)
    (b : buffer_t) (ck a : bool) :
  write_element_allow_id env (S fuel) key value b ck a
  = match key_string key with
    | None => (value, Raise TypeError_keys)
    | Some k =>
        if negb a && id_like key then (value, Done b)
        else match (if ck then check_key k else None) with
             | Some e => (value, Raise e)
             | None => write_value env (write_element_allow_id env fuel) k value b ck
             end
    end.
Proof.
  cbn [write_element_allow_id]. unfold id_like.
  destruct (key_string key); reflexivity.
Qed.

Lemma write_doc_eq (env : platform) (fuel : nat) (b : buffer_t) (klass : hash_class)
    (hash : entries_t) (ck mid : bool) :
  write_doc env fuel b klass hash ck mid
  = (fst (write_doc_elements env (write_element_allow_id env fuel) [] klass hash ck mid),
     match snd (write_doc_elements env (write_element_allow_id env fuel) [] klass hash ck mid) with
     | Raise x => Raise x
     | Done e =>
         if MAX_DOC <? len e + 5 then Raise InvalidDocument_too_large
         else Done (b ++ le_split 4 (len e + 5) ++ e ++ zero)
     end).
Proof.
  unfold write_doc, write_doc_gen, buffer_save_space, buffer_get_position.
  rewrite (write_doc_elements_indep env _ (write_element_allow_id_indep env fuel)
             klass hash ck mid (b ++ repeat Byte.x00 4)).
  destruct (write_doc_elements env (write_element_allow_id env fuel) [] klass hash ck mid)
    as [h' [e|x]]; cbn [fst snd appo bindo]; [|reflexivity].
  now rewrite doc_finish_eq.
Qed.

(** ** The bound on the recursion *)

Lemma within_bound_Done (b : buffer_t) : within_bound (Done b).
Proof. discriminate. Qed.

Lemma within_bound_bind (o : outcome) (k : buffer_t -> outcome) :
  within_bound o -> (forall b, within_bound (k b)) -> within_bound (bindo o k).
Proof. destruct o; cbn; auto. Qed.

Lemma within_bound_if (c : bool) (o1 o2 : outcome) :
  within_bound o1 -> within_bound o2 -> within_bound (if c then o1 else o2).
Proof. now destruct c. Qed.

Lemma within_bound_SAFE_WRITE (b : buffer_t) (data : bytes) : within_bound (SAFE_WRITE b data).
Proof. discriminate. Qed.

Lemma within_bound_SAFE_WRITE_AT_POS (b : buffer_t) (p : Z) (data : bytes) :
  within_bound (SAFE_WRITE_AT_POS b p data).
Proof.
  unfold SAFE_WRITE_AT_POS. destruct (buffer_write_at_position b p data); discriminate.
Qed.

Lemma within_bound_write_utf8 (env : platform) (b : buffer_t) (s : bytes) (cn : bool) :
  within_bound (write_utf8 env b s cn).
Proof.
  unfold write_utf8.
  destruct (have_ruby_encoding env); [destruct (check_string env s false cn)
                                     |destruct (check_string env s true cn)];
    discriminate.
Qed.

Lemma within_bound_write_name_and_type (env : platform) (b : buffer_t) (k : bytes) (t : byte) :
  within_bound (write_name_and_type env b k t).
Proof.
  unfold write_name_and_type.
  apply within_bound_bind; [apply within_bound_SAFE_WRITE|]. intros b1.
  apply within_bound_bind; [apply within_bound_write_utf8|]. intros b2.
  apply within_bound_SAFE_WRITE.
Qed.

Lemma within_bound_objectid_loop (as_array : list Z) (indices : list nat) (b : buffer_t) :
  within_bound (objectid_loop as_array indices b).
Proof.
  revert b. induction indices as [|i rest IH]; intros b; cbn [objectid_loop];
    [discriminate|].
  destruct (FIX2INT (nth i as_array 0)); [|discriminate].
  apply within_bound_bind; [apply within_bound_SAFE_WRITE|exact IH].
Qed.

Create HintDb bound.
#[local] Hint Resolve within_bound_Done within_bound_bind within_bound_if
  within_bound_SAFE_WRITE within_bound_SAFE_WRITE_AT_POS within_bound_write_utf8
  within_bound_write_name_and_type within_bound_objectid_loop : bound.
#[local] Hint Extern 1 (within_bound (Raise _)) => discriminate : bound.
#[local] Hint Extern 2 (within_bound (match ?x with _ => _ end)) => destruct x : bound.

Lemma depth_pos (value : VALUE) : (1 <= depth value)%nat.
Proof. destruct value; cbn; lia. Qed.

Lemma depth_aref (hash : entries_t) (key : VALUE) :
  has_key hash key = true -> (depth (rb_hash_aref hash key) <= hash_depth hash)%nat.
Proof.
  induction hash as [|[k v] rest IH]; [discriminate|].
  cbn [has_key existsb fst rb_hash_aref]. change (existsb _ rest) with (has_key rest key).
  change (hash_depth ((k, v) :: rest)) with (Nat.max (depth v) (hash_depth rest)).
  destruct (key_eql k key); cbn [orb]; [lia|].
  intros H. specialize (IH H). lia.
Qed.

Lemma hash_depth_delete (hash : entries_t) (key : VALUE) :
  (hash_depth (rb_hash_delete hash key) <= hash_depth hash)%nat.
Proof.
  induction hash as [|[k v] rest IH]; [apply Nat.le_refl|].
  unfold rb_hash_delete in *. cbn [filter fst].
  change (hash_depth ((k, v) :: rest)) with (Nat.max (depth v) (hash_depth rest)).
  destruct (negb (key_eql k key)); [|lia].
  change (hash_depth ((k, v) :: ?r)) with (Nat.max (depth v) (hash_depth r)).
  lia.
Qed.

Lemma hash_depth_store (hash : entries_t) (key value : VALUE) :
  (depth value <= depth (rb_hash_aref hash key))%nat ->
  (hash_depth (hash_store hash key value) <= hash_depth hash)%nat.
Proof.
  induction hash as [|[k v] rest IH]; [intros _; apply Nat.le_refl|].
  cbn [hash_store rb_hash_aref].
  destruct (key_eql k key); intros H.
  - change (Nat.max (depth value) (hash_depth rest)
            <= Nat.max (depth v) (hash_depth rest))%nat. lia.
  - specialize (IH H).
    change (Nat.max (depth v) (hash_depth (hash_store rest key value))
            <= Nat.max (depth v) (hash_depth rest))%nat. lia.
Qed.

Section Bound.

Variable env : platform.
Variable we : VALUE -> VALUE -> buffer_t -> bool -> bool -> VALUE * outcome.
Variable n : nat.
Hypothesis we_bound : forall k v b ck a,
  (depth v <= n)%nat ->
  within_bound (snd (we k v b ck a)) /\ (depth (fst (we k v b ck a)) <= depth v)%nat.

Lemma each_pair_bound (ck a : bool) (hash : entries_t) (b : buffer_t) :
  (hash_depth hash <= n)%nat ->
  within_bound (snd (each_pair we ck a hash b))
  /\ (hash_depth (fst (each_pair we ck a hash b)) <= hash_depth hash)%nat.
Proof.
  revert b. induction hash as [|[k v] rest IH]; intros b.
  - cbn. split; [discriminate|lia].
  - change (hash_depth ((k, v) :: rest)) with (Nat.max (depth v) (hash_depth rest)).
    intros H. cbn [each_pair].
    destruct (we_bound k v b ck a) as [H1 H2]; [lia|].
    destruct (we k v b ck a) as [v' [b'|x]]; cbn [fst snd] in *.
    + destruct (IH b') as [H3 H4]; [lia|].
      destruct (each_pair we ck a rest b') as [rest' o']; cbn [fst snd] in *.
      split; [exact H3|].
      change (Nat.max (depth v') (hash_depth rest')
              <= Nat.max (depth v) (hash_depth rest))%nat. lia.
    + split; [exact H1|].
      change (Nat.max (depth v') (hash_depth rest)
              <= Nat.max (depth v) (hash_depth rest))%nat. lia.
Qed.

Lemma each_item_bound (ck : bool) (items : list VALUE) (i : nat) (b : buffer_t) :
  (items_depth items <= n)%nat ->
  within_bound (snd (each_item we ck i items b))
  /\ (items_depth (fst (each_item we ck i items b)) <= items_depth items)%nat.
Proof.
  revert i b. induction items as [|v rest IH]; intros i b.
  - cbn. split; [discriminate|lia].
  - change (items_depth (v :: rest)) with (Nat.max (depth v) (items_depth rest)).
    intros H. cbn [each_item].
    destruct (we_bound (RString (INT2STRING i)) v b ck false) as [H1 H2]; [lia|].
    destruct (we (RString (INT2STRING i)) v b ck false) as [v' [b'|x]]; cbn [fst snd] in *.
    + destruct (IH (S i) b') as [H3 H4]; [lia|].
      destruct (each_item we ck (S i) rest b') as [rest' o']; cbn [fst snd] in *.
      split; [exact H3|].
      change (Nat.max (depth v') (items_depth rest')
              <= Nat.max (depth v) (items_depth rest))%nat. lia.
    + split; [exact H1|].
      change (Nat.max (depth v') (items_depth rest)
              <= Nat.max (depth v) (items_depth rest))%nat. lia.
Qed.

Lemma write_doc_elements_bound (b : buffer_t) (klass : hash_class) (hash : entries_t)
    (ck mid : bool) :
  (hash_depth hash <= n)%nat ->
  within_bound (snd (write_doc_elements env we b klass hash ck mid))
  /\ (hash_depth (fst (write_doc_elements env we b klass hash ck mid)) <= hash_depth hash)%nat.
Proof.
  intros H.
  assert (Hid : forall key a,
    has_key hash key = true ->
    within_bound (snd (
      let (id, o) := we key (rb_hash_aref hash key) b ck true in
      match o with
      | Raise e => (hash_store hash key id, Raise e)
      | Done buffer =>
          match klass with
          | OrderedHash => each_pair we ck a (hash_store hash key id) buffer
          | Hash => each_pair we ck (foreach_allow_id env) (hash_store hash key id) buffer
          end
      end))
    /\ (hash_depth (fst (
      let (id, o) := we key (rb_hash_aref hash key) b ck true in
      match o with
      | Raise e => (hash_store hash key id, Raise e)
      | Done buffer =>
          match klass with
          | OrderedHash => each_pair we ck a (hash_store hash key id) buffer
          | Hash => each_pair we ck (foreach_allow_id env) (hash_store hash key id) buffer
          end
      end)) <= hash_depth hash)%nat).
  { intros key a Hk. pose proof (depth_aref hash key Hk) as Hd.
    destruct (we_bound key (rb_hash_aref hash key) b ck true) as [H1 H2]; [lia|].
    destruct (we key (rb_hash_aref hash key) b ck true) as [id [b'|x]]; cbn [fst snd] in *.
    - pose proof (hash_depth_store hash key id H2) as Hs.
      destruct klass.
      + destruct (each_pair_bound ck a (hash_store hash key id) b') as [H3 H4]; [lia|].
        split; [exact H3|lia].
      + destruct (each_pair_bound ck (foreach_allow_id env) (hash_store hash key id) b')
          as [H3 H4]; [lia|].
        split; [exact H3|lia].
    - split; [exact H1|]. now apply hash_depth_store. }
  unfold write_doc_elements. destruct mid.
  - destruct (has_key hash id_str) eqn:E1.
    + specialize (Hid id_str false E1).
      destruct (we id_str (rb_hash_aref hash id_str) b ck true) as [id [b'|x]]; exact Hid.
    + destruct (has_key hash id_sym) eqn:E2.
      * specialize (Hid id_sym false E2).
        destruct (we id_sym (rb_hash_aref hash id_sym) b ck true) as [id [b'|x]]; exact Hid.
      * destruct klass; now apply each_pair_bound.
  - pose proof (hash_depth_delete hash id_str) as Hd.
    destruct (has_key hash id_str && has_key hash id_sym).
    + destruct klass.
      * destruct (each_pair_bound ck true (rb_hash_delete hash id_str) b) as [H3 H4]; [lia|].
        split; [exact H3|lia].
      * destruct (each_pair_bound ck (foreach_allow_id env) (rb_hash_delete hash id_str) b)
          as [H3 H4]; [lia|].
        split; [exact H3|lia].
    + destruct klass; now apply each_pair_bound.
Qed.

Lemma within_bound_write_doc_finish (s l : Z) (b : buffer_t) :
  within_bound (write_doc_finish s l b).
Proof. unfold write_doc_finish. auto 6 with bound. Qed.

Lemma write_doc_gen_bound (b : buffer_t) (klass : hash_class) (hash : entries_t)
    (ck mid : bool) :
  (hash_depth hash <= n)%nat ->
  within_bound (snd (write_doc_gen env we b klass hash ck mid))
  /\ (hash_depth (fst (write_doc_gen env we b klass hash ck mid)) <= hash_depth hash)%nat.
Proof.
  intros H. unfold write_doc_gen, buffer_save_space.
  destruct (write_doc_elements_bound (b ++ repeat Byte.x00 4) klass hash ck mid H) as [H1 H2].
  destruct (write_doc_elements env we (b ++ repeat Byte.x00 4) klass hash ck mid) as [h' o].
  cbn [fst snd] in *. split; [|exact H2].
  apply within_bound_bind; [exact H1|]. intros b'. apply within_bound_write_doc_finish.
Qed.

Lemma write_value_bound (key : bytes) (value : VALUE) (b : buffer_t) (ck : bool) :
  (depth value <= S n)%nat ->
  within_bound (snd (write_value env we key value b ck))
  /\ (depth (fst (write_value env we key value b ck)) <= depth value)%nat.
Proof.
  destruct value as [z| | |d| |klass h|items|s|code klass scope|name|st data|data|arr
                    |ns oid| | |cls|t|cls|pattern flags extra|cls]; intros H;
    try (cbn [write_value fst snd]; split; [auto 12 with bound|apply Nat.le_refl]).
  - (* embedded document *)
    cbn [write_value].
    destruct (write_name_and_type env b key x03) as [b1|x] eqn:E.
    + destruct (write_doc_gen_bound b1 klass h ck false) as [H1 H2]; [cbn in H; fold (hash_depth h) in H; lia|].
      destruct (write_doc_gen env we b1 klass h ck false) as [h' o]; cbn [fst snd] in *.
      split; [exact H1|]. cbn [depth]. fold (hash_depth h') (hash_depth h). lia.
    + cbn [fst snd]. split; [|apply Nat.le_refl].
      rewrite <- E. apply within_bound_write_name_and_type.
  - (* array *)
    cbn [write_value].
    destruct (write_name_and_type env b key x04) as [b1|x] eqn:E.
    + unfold buffer_save_space.
      destruct (each_item_bound ck items 0 (b1 ++ repeat Byte.x00 4)) as [H1 H2];
        [cbn in H; fold (items_depth items) in H; lia|].
      destruct (each_item we ck 0 items (b1 ++ repeat Byte.x00 4)) as [items' o];
        cbn [fst snd] in *.
      split; [auto 8 with bound|]. cbn [depth]. fold (items_depth items') (items_depth items).
      lia.
    + cbn [fst snd]. split; [|apply Nat.le_refl].
      rewrite <- E. apply within_bound_write_name_and_type.
  - (* code with scope *)
    cbn [write_value].
    destruct (write_name_and_type env b key x0f) as [b1|x] eqn:E.
    + unfold buffer_save_space. cbn [bindo SAFE_WRITE buffer_write].
      match goal with
      | |- context [write_doc_gen env we ?b2 klass scope false false] =>
          destruct (write_doc_gen_bound b2 klass scope false false) as [H1 H2];
            [cbn in H; fold (hash_depth scope) in H; lia|];
          destruct (write_doc_gen env we b2 klass scope false false) as [h' o]
      end.
      cbn [fst snd] in *.
      split; [auto 8 with bound|]. cbn [depth]. fold (hash_depth h') (hash_depth scope). lia.
    + cbn [fst snd]. split; [|apply Nat.le_refl].
      rewrite <- E. apply within_bound_write_name_and_type.
  - (* DBRef *)
    cbn [write_value]. cbn [depth] in H.
    destruct (write_name_and_type env b key x03) as [b1|x] eqn:E.
    + unfold buffer_save_space.
      destruct (we_bound (RString (str "$ref")) ns (b1 ++ repeat Byte.x00 4) false false)
        as [H1 H2]; [lia|].
      destruct (we (RString (str "$ref")) ns (b1 ++ repeat Byte.x00 4) false false)
        as [ns' [b2|x]]; cbn [fst snd] in *.
      * destruct (we_bound (RString (str "$id")) oid b2 false false) as [H3 H4]; [lia|].
        destruct (we (RString (str "$id")) oid b2 false false) as [oid' o];
          cbn [fst snd] in *.
        split; [auto 8 with bound|]. cbn [depth]. lia.
      * split; [exact H1|]. cbn [depth]. lia.
    + cbn [fst snd]. split; [|apply Nat.le_refl].
      rewrite <- E. apply within_bound_write_name_and_type.
Qed.

End Bound.

Lemma write_element_allow_id_bound (env : platform) (fuel : nat) :
  forall key value b ck a,
    (depth value <= fuel)%nat ->
    within_bound (snd (write_element_allow_id env fuel key value b ck a))
    /\ (depth (fst (write_element_allow_id env fuel key value b ck a)) <= depth value)%nat.
Proof.
  induction fuel as [|fuel IH]; intros key value b ck a H.
  - pose proof (depth_pos value). lia.
  - rewrite write_element_allow_id_S.
    destruct (key_string key) as [k|]; [|split; [discriminate|apply Nat.le_refl]].
    destruct (negb a && id_like key); [split; [discriminate|apply Nat.le_refl]|].
    destruct (if ck then check_key k else None) as [e|] eqn:E.
    + split; [|apply Nat.le_refl]. cbn [snd].
      destruct ck; [|discriminate]. unfold check_key in E.
      repeat match type of E with
             | (if ?c then _ else _) = _ => destruct c
             | match ?c with _ => _ end = _ => destruct c
             end; inversion E; discriminate.
    + now apply write_value_bound with (n := fuel).
Qed.

(** The bound that [method_serialize] gives the recursion is never reached. *)
Theorem method_serialize_within_bound (env : platform) (klass : hash_class)
    (doc : entries_t) (ck mid : bool) :
  within_bound (snd (method_serialize env klass doc ck mid)).
Proof.
  unfold method_serialize, write_doc.
  apply write_doc_gen_bound with (n := S (hash_depth doc)); [|lia].
  apply write_element_allow_id_bound.
Qed.

Section Monotone.

Variable env : platform.
Variables we1 we2 : VALUE -> VALUE -> buffer_t -> bool -> bool -> VALUE * outcome.
Hypothesis we_mono : forall k v b ck a,
  within_bound (snd (we1 k v b ck a)) -> we2 k v b ck a = we1 k v b ck a.

Lemma each_pair_mono (ck a : bool) (hash : entries_t) (b : buffer_t) :
  within_bound (snd (each_pair we1 ck a hash b)) ->
  each_pair we2 ck a hash b = each_pair we1 ck a hash b.
Proof.
  revert b. induction hash as [|[k v] rest IH]; intros b; [reflexivity|].
  cbn [each_pair]. pose proof (we_mono k v b ck a) as Hm.
  destruct (we1 k v b ck a) as [v' [b'|x]]; cbn [snd] in Hm.
  - rewrite Hm by discriminate. specialize (IH b').
    destruct (each_pair we1 ck a rest b') as [rest' o']. cbn [snd] in *.
    intros H. now rewrite (IH H).
  - intros H. now rewrite (Hm H).
Qed.

Lemma each_item_mono (ck : bool) (items : list VALUE) (i : nat) (b : buffer_t) :
  within_bound (snd (each_item we1 ck i items b)) ->
  each_item we2 ck i items b = each_item we1 ck i items b.
Proof.
  revert i b. induction items as [|v rest IH]; intros i b; [reflexivity|].
  cbn [each_item]. pose proof (we_mono (RString (INT2STRING i)) v b ck false) as Hm.
  destruct (we1 (RString (INT2STRING i)) v b ck false) as [v' [b'|x]]; cbn [snd] in Hm.
  - rewrite Hm by discriminate. specialize (IH (S i) b').
    destruct (each_item we1 ck (S i) rest b') as [rest' o']. cbn [snd] in *.
    intros H. now rewrite (IH H).
  - intros H. now rewrite (Hm H).
Qed.

Lemma write_doc_elements_mono (b : buffer_t) (klass : hash_class) (hash : entries_t)
    (ck mid : bool) :
  within_bound (snd (write_doc_elements env we1 b klass hash ck mid)) ->
  write_doc_elements env we2 b klass hash ck mid
  = write_doc_elements env we1 b klass hash ck mid.
Proof.
  unfold write_doc_elements. destruct mid.
  - destruct (has_key hash id_str).
    + pose proof (we_mono id_str (rb_hash_aref hash id_str) b ck true) as Hm.
      destruct (we1 id_str (rb_hash_aref hash id_str) b ck true) as [id [b'|x]];
        cbn [snd] in Hm.
      * rewrite Hm by discriminate. destruct klass; apply each_pair_mono.
      * intros H. now rewrite (Hm H).
    + destruct (has_key hash id_sym).
      * pose proof (we_mono id_sym (rb_hash_aref hash id_sym) b ck true) as Hm.
        destruct (we1 id_sym (rb_hash_aref hash id_sym) b ck true) as [id [b'|x]];
          cbn [snd] in Hm.
        -- rewrite Hm by discriminate. destruct klass; apply each_pair_mono.
        -- intros H. now rewrite (Hm H).
      * destruct klass; apply each_pair_mono.
  - destruct (has_key hash id_str && has_key hash id_sym); destruct klass;
      apply each_pair_mono.
Qed.

Lemma write_doc_gen_mono (b : buffer_t) (klass : hash_class) (hash : entries_t)
    (ck mid : bool) :
  within_bound (snd (write_doc_gen env we1 b klass hash ck mid)) ->
  write_doc_gen env we2 b klass hash ck mid = write_doc_gen env we1 b klass hash ck mid.
Proof.
  unfold write_doc_gen, buffer_save_space.
  pose proof (write_doc_elements_mono (b ++ repeat Byte.x00 4) klass hash ck mid) as Hm.
  destruct (write_doc_elements env we1 (b ++ repeat Byte.x00 4) klass hash ck mid)
    as [h' [b'|x]]; cbn [snd bindo] in *; intros H.
  - now rewrite Hm by discriminate.
  - now rewrite (Hm H).
Qed.

Lemma write_value_mono (key : bytes) (value : VALUE) (b : buffer_t) (ck : bool) :
  within_bound (snd (write_value env we1 key value b ck)) ->
  write_value env we2 key value b ck = write_value env we1 key value b ck.
Proof.
  destruct value as [z| | |d| |klass h|items|s|code klass scope|name|st data|data|arr
                    |ns oid| | |cls|t|cls|pattern flags extra|cls];
    try reflexivity; cbn [write_value].
  - destruct (write_name_and_type env b key x03) as [b1|x]; [|reflexivity].
    pose proof (write_doc_gen_mono b1 klass h ck false) as Hm.
    destruct (write_doc_gen env we1 b1 klass h ck false) as [h' o]; cbn [snd] in *.
    intros H. now rewrite (Hm H).
  - destruct (write_name_and_type env b key x04) as [b1|x]; [|reflexivity].
    unfold buffer_save_space.
    pose proof (each_item_mono ck items 0 (b1 ++ repeat Byte.x00 4)) as Hm.
    destruct (each_item we1 ck 0 items (b1 ++ repeat Byte.x00 4)) as [items' [b'|x]];
      cbn [snd bindo] in *; intros H.
    + now rewrite Hm by discriminate.
    + now rewrite (Hm H).
  - destruct (write_name_and_type env b key x0f) as [b1|x]; [|reflexivity].
    unfold buffer_save_space. cbn [bindo SAFE_WRITE buffer_write].
    match goal with
    | |- context [write_doc_gen env we1 ?b2 klass scope false false] =>
        pose proof (write_doc_gen_mono b2 klass scope false false) as Hm;
        destruct (write_doc_gen env we1 b2 klass scope false false) as [h' [b'|x]]
    end; cbn [snd bindo] in *; intros H.
    + now rewrite Hm by discriminate.
    + now rewrite (Hm H).
  - destruct (write_name_and_type env b key x03) as [b1|x]; [|reflexivity].
    unfold buffer_save_space.
    pose proof (we_mono (RString (str "$ref")) ns (b1 ++ repeat Byte.x00 4) false false)
      as Hm1.
    destruct (we1 (RString (str "$ref")) ns (b1 ++ repeat Byte.x00 4) false false)
      as [ns' [b2|x]]; cbn [snd] in Hm1.
    + rewrite Hm1 by discriminate.
      pose proof (we_mono (RString (str "$id")) oid b2 false false) as Hm2.
      destruct (we1 (RString (str "$id")) oid b2 false false) as [oid' [b3|x]];
        cbn [snd bindo] in *; intros H.
      * now rewrite Hm2 by discriminate.
      * now rewrite (Hm2 H).
    + intros H. now rewrite (Hm1 H).
Qed.

End Monotone.

Lemma write_element_allow_id_mono (env : platform) (fuel : nat) :
  forall key value b ck a,
    within_bound (snd (write_element_allow_id env fuel key value b ck a)) ->
    write_element_allow_id env (S fuel) key value b ck a
    = write_element_allow_id env fuel key value b ck a.
Proof.
  induction fuel as [|fuel IH]; intros key value b ck a H.
  - now contradiction H.
  - rewrite (write_element_allow_id_S env (S fuel)).
    rewrite (write_element_allow_id_S env fuel) in *.
    destruct (key_string key) as [k|]; [|reflexivity].
    destruct (negb a && id_like key); [reflexivity|].
    destruct (if ck then check_key k else None); [reflexivity|].
    now apply write_value_mono.
Qed.

(** More fuel than the depth of the value changes nothing. *)
Theorem fuel_enough (env : platform) (key value : VALUE) (b : buffer_t) (ck a : bool)
    (fuel : nat) :
  (depth value <= fuel)%nat ->
  write_element_allow_id env fuel key value b ck a
  = write_element_allow_id env (depth value) key value b ck a.
Proof.
  induction 1 as [|fuel Hle IH]; [reflexivity|].
  rewrite write_element_allow_id_mono; [exact IH|].
  now apply write_element_allow_id_bound.
Qed.

(** [method_serialize] with more fuel is [method_serialize]. *)
Theorem method_serialize_fuel (env : platform) (klass : hash_class) (doc : entries_t)
    (ck mid : bool) (fuel : nat) :
  (S (hash_depth doc) <= fuel)%nat ->
  write_doc env fuel [] klass doc ck mid = method_serialize env klass doc ck mid.
Proof.
  unfold method_serialize.
  induction 1 as [|fuel Hle IH]; [reflexivity|].
  rewrite <- IH. unfold write_doc.
  apply write_doc_gen_mono.
  - intros k v b ck' a. apply write_element_allow_id_mono.
  - apply write_doc_gen_bound with (n := fuel); [|lia].
    apply write_element_allow_id_bound.
Qed.

(** ** Integers (C2) *)

(** C2. An integer element is written with tag 0x10 and four little-endian
    bytes when it fits 32 bits, with tag 0x12 and eight little-endian bytes
    when it fits 64 bits only, and raises RangeError otherwise. The key is
    one that reaches the switch: a string or symbol, not skipped, accepted
    by the key checks and written without error. *)
Theorem C2_integer_width (env : platform) (fuel : nat) (key : VALUE) (k : bytes) (n : Z)
    (b : buffer_t) (ck a : bool) :
  key_string key = Some k ->
  negb a && id_like key = false ->
  (if ck then check_key k else None) = None ->
  utf8_error env k true = None ->
  let out := snd (write_element_allow_id env (S fuel) key (RInteger n) b ck a) in
  (- 2 ^ 31 <= n <= 2 ^ 31 - 1 ->
     out = Done (b ++ x10 :: k ++ zero ++ le_split 4 n)
     /\ length (le_split 4 n) = 4%nat /\ swrap 32 (le_combine (le_split 4 n)) = n)
  /\ ((n < - 2 ^ 31 \/ 2 ^ 31 - 1 < n) -> - 2 ^ 63 <= n <= 2 ^ 63 - 1 ->
     out = Done (b ++ x12 :: k ++ zero ++ le_split 8 n)
     /\ length (le_split 8 n) = 8%nat /\ swrap 64 (le_combine (le_split 8 n)) = n)
  /\ ((n < - 2 ^ 63 \/ 2 ^ 63 - 1 < n) -> out = Raise RangeError).
Proof.
  intros Hk Hskip Hck Hname out. subst out.
  rewrite write_element_allow_id_S, Hk, Hskip, Hck.
  unfold write_value. cbn [snd].
  rewrite !write_name_and_type_eq, Hname. cbn [bindo SAFE_WRITE buffer_write].
  change (2 ^ 31) with 2147483648. change (2 ^ 63) with 9223372036854775808.
  split; [|split].
  - intros H.
    replace ((9223372036854775807 <? n) || (n <? -9223372036854775808)) with false
      by (symmetry; apply orb_false_iff; split; apply Z.ltb_ge; lia).
    replace ((2147483647 <? n) || (n <? -2147483648)) with false
      by (symmetry; apply orb_false_iff; split; apply Z.ltb_ge; lia).
    split; [now list_norm|]. split; [apply length_le_split|].
    apply (read_le_split 4 n); simpl; lia.
  - intros H H'.
    replace ((9223372036854775807 <? n) || (n <? -9223372036854775808)) with false
      by (symmetry; apply orb_false_iff; split; apply Z.ltb_ge; lia).
    replace ((2147483647 <? n) || (n <? -2147483648)) with true
      by (symmetry; apply orb_true_iff; destruct H; [right|left]; apply Z.ltb_lt; lia).
    split; [now list_norm|]. split; [apply length_le_split|].
    apply (read_le_split 8 n); simpl; lia.
  - intros H.
    replace ((9223372036854775807 <? n) || (n <? -9223372036854775808)) with true
      by (symmetry; apply orb_true_iff; destruct H; [right|left]; apply Z.ltb_lt; lia).
    reflexivity.
Qed.

Lemma C2_integer_width_witness :
  snd (write_element_allow_id ruby19 1 (RString (str "a")) (RInteger 1) [] true true)
  = Done (x10 :: str "a" ++ zero ++ le_split 4 1)
  /\ snd (write_element_allow_id ruby19 1 (RSymbol (str "n")) (RInteger 5000000000) [] true false)
     = Done (x12 :: str "n" ++ zero ++ le_split 8 5000000000)
  /\ snd (write_element_allow_id ruby19 1 (RString (str "a")) (RInteger (2 ^ 63)) [] false true)
     = Raise RangeError.
Proof.
  split; [|split].
  - apply (C2_integer_width ruby19 0 (RString (str "a")) (str "a") 1 [] true true);
      try reflexivity; lia.
  - apply (C2_integer_width ruby19 0 (RSymbol (str "n")) (str "n") 5000000000 [] true false);
      try reflexivity; lia.
  - apply (C2_integer_width ruby19 0 (RString (str "a")) (str "a") (2 ^ 63) [] false true);
      try reflexivity; lia.
Defined.

(** ** Unknown tags (C9) *)




(** ** The size limit (C8) *)

Lemma MAX_DOC_value : MAX_DOC = 4194304.
Proof. reflexivity. Qed.

Lemma read_length_prefix (n : Z) :
  0 <= n <= MAX_DOC -> swrap 32 (le_combine (le_split 4 n)) = n.
Proof.
  rewrite MAX_DOC_value. intros H. apply (read_le_split 4 n); simpl; lia.
Qed.

Lemma write_doc_Done (env : platform) (fuel : nat) (b : buffer_t) (klass : hash_class)
    (hash h' : entries_t) (ck mid : bool) (out : buffer_t) :
  write_doc env fuel b klass hash ck mid = (h', Done out) ->
  exists body,
    snd (write_doc_elements env (write_element_allow_id env fuel) [] klass hash ck mid)
    = Done body
    /\ out = b ++ le_split 4 (len body + 5) ++ body ++ zero
    /\ len body + 5 <= MAX_DOC.
Proof.
  rewrite write_doc_eq. intros H. inversion H as [[H1 H2]]. clear H H1.
  destruct (snd (write_doc_elements env (write_element_allow_id env fuel) [] klass hash ck mid))
    as [body|x]; [|discriminate].
  destruct (MAX_DOC <? len body + 5) eqn:E; [discriminate|].
  inversion H2. exists body. repeat split. now apply Z.ltb_ge.
Qed.

Lemma method_serialize_closed (env : platform) (klass : hash_class) (doc : entries_t)
    (ck mid : bool) :
  snd (method_serialize env klass doc ck mid)
  = match snd (write_doc_elements env (write_element_allow_id env (S (hash_depth doc))) []
                 klass doc ck mid) with
    | Raise x => Raise x
    | Done e =>
        if 4 * 2 ^ 20 <? len (le_split 4 (len e + 5) ++ e ++ [x00])
        then Raise InvalidDocument_too_large
        else Done (le_split 4 (len e + 5) ++ e ++ [x00])
    end.
Proof.
  unfold method_serialize. rewrite write_doc_eq. cbn [fst snd].
  destruct (snd (write_doc_elements env _ [] klass doc ck mid)) as [e|x]; [|reflexivity].
  replace (len (le_split 4 (len e + 5) ++ e ++ [x00])) with (len e + 5)
    by (rewrite !len_app, len_le_split, len_cons, len_nil; lia).
  reflexivity.
Qed.

(** C8. The output of a successful call is at most 4 MiB long. Once the
    elements of the top-level document are written, making [e], the document
    takes [len e + 5] bytes with its length and its terminator: the call
    raises InvalidDocument when that is more than 4 MiB and returns the
    document otherwise. *)
Theorem C8_document_size_limit (env : platform) :
  (forall klass doc ck mid h' out,
      method_serialize env klass doc ck mid = (h', Done out) ->
      len out <= 4 * 2 ^ 20)
  /\ (forall klass doc ck mid,
      snd (method_serialize env klass doc ck mid)
      = match snd (write_doc_elements env (write_element_allow_id env (S (hash_depth doc))) []
                     klass doc ck mid) with
        | Raise x => Raise x
        | Done e =>
            if 4 * 2 ^ 20 <? len (le_split 4 (len e + 5) ++ e ++ [x00])
            then Raise InvalidDocument_too_large
            else Done (le_split 4 (len e + 5) ++ e ++ [x00])
        end).
Proof.
  split; [|apply method_serialize_closed].
  change (4 * 2 ^ 20) with MAX_DOC.
  intros klass doc ck mid h' out H. unfold method_serialize in H.
  apply write_doc_Done in H. destruct H as [body [_ [-> Hmax]]].
  rewrite app_nil_l, !len_app, len_le_split. unfold zero. rewrite len_cons, len_nil. lia.
Qed.

Lemma C8_document_size_limit_witness :
  len (le_split 4 12 ++ x10 :: str "a" ++ x00 :: le_split 4 1 ++ [x00]) <= 4 * 2 ^ 20.
Proof.
  apply (proj1 (C8_document_size_limit ruby19) OrderedHash
           [(RString (str "a"), RInteger 1)] false false
           [(RString (str "a"), RInteger 1)]).
  reflexivity.
Defined.

(** A document that is too large: one string of 4 MiB. *)
Example too_large_document (s : bytes) :
  len s = 4 * 2 ^ 20 ->
  snd (method_serialize ruby19 OrderedHash [(RString (str "s"), RString s)] false false)
  = Raise InvalidDocument_too_large.
Proof.
  intros Hs. rewrite method_serialize_closed.
  change (hash_depth [(RString (str "s"), RString s)]) with 1%nat.
  unfold write_doc_elements.
  replace (has_key [(RString (str "s"), RString s)] id_str
           && has_key [(RString (str "s"), RString s)] id_sym) with false by reflexivity.
  cbn [each_pair]. rewrite write_element_allow_id_S.
  cbn [key_string]. replace (negb true && id_like (RString (str "s"))) with false by reflexivity.
  unfold write_value.
  rewrite !write_name_and_type_eq.
  replace (utf8_error ruby19 (str "s") true) with (@None exn) by reflexivity.
  cbn [bindo SAFE_WRITE buffer_write snd fst]. rewrite write_utf8_eq.
  replace (utf8_error ruby19 s false) with (@None exn) by reflexivity.
  cbn [bindo SAFE_WRITE buffer_write snd fst].
  match goal with
  | |- (if ?c then _ else _) = _ => replace c with true; [reflexivity|]
  end.
  symmetry. apply Z.ltb_lt.
  unfold zero.
  repeat (rewrite len_app || rewrite len_le_split || rewrite len_cons || rewrite len_nil).
  rewrite Hs. pose proof (len_nonneg (str "s")). lia.
Qed.

(** ** Regex flags (C4) *)

(** C4, at a failing input. The regex /a/m with the extra flag letter 'l'
    is written with the flag bytes "ml": the engine flags come first, in the
    order i, m, x, and [qsort] sorts only the extra letters after them. *)
Theorem C4_flags_not_sorted :
  snd (method_serialize ruby19 OrderedHash
         [(RString (str "r"), RRegexp (str "a") MULTILINE (Some (str "l")))] false false)
  = Done (le_split 4 13 ++ x0b :: str "r" ++ x00 :: str "a" ++ x00 :: str "ml" ++ [x00; x00])
  /\ nondecreasing (str "ml") = false.
Proof. split; reflexivity. Qed.

(** ** The empty key (C10) *)

(** C10. With check_keys the empty key passes the key tests, as a string
    and as a symbol: it is not "_id", the test for '$' looks at the first
    char of a key that has one, and the loop for '.' finds nothing. The
    element writer goes on to the switch over the value. *)
Theorem C10_empty_key_accepted (env : platform) (fuel : nat) (value : VALUE)
    (b : buffer_t) (allow_id : bool) :
  check_key [] = None
  /\ write_element_allow_id env (S fuel) (RString []) value b true allow_id
     = write_value env (write_element_allow_id env fuel) [] value b true
  /\ write_element_allow_id env (S fuel) (RSymbol []) value b true allow_id
     = write_value env (write_element_allow_id env fuel) [] value b true.
Proof.
  split; [reflexivity|].
  split; rewrite write_element_allow_id_S; cbn [key_string c_str];
    unfold id_like; cbn [key_string c_str];
    replace (bytes_eqb (str "_id") []) with false by reflexivity;
    now rewrite andb_false_r.
Qed.

Example empty_key_document :
  snd (method_serialize ruby19 OrderedHash [(RString [], RInteger 1)] true false)
  = Done (le_split 4 11 ++ x10 :: x00 :: le_split 4 1 ++ [x00]).
Proof. reflexivity. Qed.

(** ** Closed forms of the containers *)

Lemma len_le_split_4 (z : Z) : len (le_split 4 z) = 4.
Proof. apply len_le_split. Qed.

Lemma len_le_split_8 (z : Z) : len (le_split 8 z) = 8.
Proof. apply len_le_split. Qed.

Ltac len_simpl :=
  repeat (rewrite len_app || rewrite len_le_split_4 || rewrite len_le_split_8
          || rewrite len_le_split || rewrite len_cons
          || rewrite len_nil || rewrite len_repeat).

Tactic Notation "len_simpl" "in" hyp(H) :=
  repeat (rewrite len_app in H || rewrite len_le_split_4 in H || rewrite len_le_split_8 in H
          || rewrite len_le_split in H || rewrite len_cons in H
          || rewrite len_nil in H || rewrite len_repeat in H).

Section ContainerForms.

Variable env : platform.
Variable fuel : nat.

Local Abbreviation W := (write_element_allow_id env fuel).

Lemma write_value_hash_eq (k : bytes) (klass : hash_class) (h : entries_t)
    (b : buffer_t) (ck : bool) :
  write_value env W k (RHash klass h) b ck
  = match utf8_error env k true with
    | Some e => (RHash klass h, Raise e)
    | None =>
        (RHash klass (fst (write_doc env fuel [] klass h ck false)),
         appo (b ++ x03 :: k ++ zero) (snd (write_doc env fuel [] klass h ck false)))
    end.
Proof.
  unfold write_value. rewrite write_name_and_type_eq.
  destruct (utf8_error env k true); [reflexivity|].
  rewrite (write_doc_gen_indep env _ (write_element_allow_id_indep env fuel)
             klass h ck false (b ++ x03 :: k ++ zero)).
  reflexivity.
Qed.

Lemma write_value_array_eq (k : bytes) (items : list VALUE) (b : buffer_t) (ck : bool) :
  write_value env W k (RArray items) b ck
  = match utf8_error env k true with
    | Some e => (RArray items, Raise e)
    | None =>
        (RArray (fst (each_item W ck 0 items [])),
         match snd (each_item W ck 0 items []) with
         | Raise x => Raise x
         | Done e => Done (b ++ x04 :: k ++ zero ++ le_split 4 (len e + 5) ++ e ++ zero)
         end)
    end.
Proof.
  unfold write_value. rewrite write_name_and_type_eq.
  destruct (utf8_error env k true); [reflexivity|].
  unfold buffer_save_space.
  rewrite (each_item_indep _ (write_element_allow_id_indep env fuel) ck items 0
             ((b ++ x04 :: k ++ zero) ++ repeat Byte.x00 4)).
  destruct (each_item W ck 0 items []) as [vs' [e|x]]; cbn [fst snd appo bindo];
    [|reflexivity].
  rewrite block_finish_eq. now list_norm.
Qed.

Lemma write_value_code_eq (k code : bytes) (klass : hash_class) (scope : entries_t)
    (b : buffer_t) (ck : bool) :
  write_value env W k (RCode code klass scope) b ck
  = match utf8_error env k true with
    | Some e => (RCode code klass scope, Raise e)
    | None =>
        (RCode code klass (fst (write_doc env fuel [] klass scope false false)),
         match snd (write_doc env fuel [] klass scope false false) with
         | Raise x => Raise x
         | Done e =>
             Done (b ++ x0f :: k ++ zero
                   ++ le_split 4 (len (le_split 4 (len code + 1) ++ code ++ zero ++ e) + 4)
                   ++ le_split 4 (len code + 1) ++ code ++ zero ++ e)
         end)
    end.
Proof.
  unfold write_value. rewrite write_name_and_type_eq.
  destruct (utf8_error env k true); [reflexivity|].
  unfold buffer_save_space. cbn [bindo SAFE_WRITE buffer_write].
  match goal with
  | |- context [write_doc_gen env W ?b1 klass scope false false] =>
      rewrite (write_doc_gen_indep env _ (write_element_allow_id_indep env fuel)
                 klass scope false false b1)
  end.
  fold (write_doc env fuel).
  destruct (write_doc env fuel [] klass scope false false) as [h' [e|x]];
    cbn [fst snd appo bindo]; [|reflexivity].
  rewrite <- !app_assoc.
  rewrite (app_assoc b (x0f :: k ++ zero)).
  rewrite (app_assoc (b ++ x0f :: k ++ zero) (repeat _ _)).
  rewrite code_finish_eq. now list_norm.
Qed.

Lemma write_value_dbref_eq (k : bytes) (ns oid : VALUE) (b : buffer_t) (ck : bool) :
  write_value env W k (RDBRef ns oid) b ck
  = match utf8_error env k true with
    | Some e => (RDBRef ns oid, Raise e)
    | None =>
        let X1 := W (RString (str "$ref")) ns [] false false in
        match snd X1 with
        | Raise e => (RDBRef (fst X1) oid, Raise e)
        | Done e1 =>
            let X2 := W (RString (str "$id")) oid [] false false in
            (RDBRef (fst X1) (fst X2),
             match snd X2 with
             | Raise x => Raise x
             | Done e2 =>
                 Done (b ++ x03 :: k ++ zero ++ le_split 4 (len (e1 ++ e2) + 5)
                       ++ (e1 ++ e2) ++ zero)
             end)
        end
    end.
Proof.
  unfold write_value. rewrite write_name_and_type_eq.
  destruct (utf8_error env k true); [reflexivity|].
  unfold buffer_save_space. cbv zeta.
  rewrite (write_element_allow_id_indep env fuel (RString (str "$ref")) ns false false
             ((b ++ x03 :: k ++ zero) ++ repeat Byte.x00 4)).
  destruct (W (RString (str "$ref")) ns [] false false) as [ns' [e1|x]];
    cbn [fst snd appo]; [|reflexivity].
  rewrite (write_element_allow_id_indep env fuel (RString (str "$id")) oid false false
             (((b ++ x03 :: k ++ zero) ++ repeat Byte.x00 4) ++ e1)).
  destruct (W (RString (str "$id")) oid [] false false) as [oid' [e2|x]];
    cbn [fst snd appo bindo]; [|reflexivity].
  rewrite <- (app_assoc _ e1 e2).
  rewrite block_finish_eq. now list_norm.
Qed.

(** The elements a loop has written, one run of bytes for each pair. *)
Lemma each_pair_parts (ck a : bool) (hash : entries_t) (e : bytes) :
  snd (each_pair W ck a hash []) = Done e ->
  exists parts,
    Forall2 (fun p part => snd (W (fst p) (snd p) [] ck a) = Done part) hash parts
    /\ e = concat parts.
Proof.
  revert e. induction hash as [|[k v] rest IH]; intros e.
  - cbn. intros H. inversion H. exists []. split; [constructor|reflexivity].
  - cbn [each_pair].
    destruct (W k v [] ck a) as [v' [e1|x]] eqn:E1; [|discriminate].
    rewrite (each_pair_indep _ (write_element_allow_id_indep env fuel) ck a rest e1).
    destruct (each_pair W ck a rest []) as [rest' [e2|x]]; cbn [fst snd appo];
      [|discriminate].
    intros H. inversion H. destruct (IH e2 eq_refl) as [parts [HF ->]].
    exists (e1 :: parts). split; [|reflexivity].
    constructor; [|exact HF]. cbn [fst snd]. now rewrite E1.
Qed.

Lemma each_item_parts (ck : bool) (items : list VALUE) (i : nat) (e : bytes) :
  snd (each_item W ck i items []) = Done e ->
  exists parts,
    length parts = length items
    /\ (forall j v part, nth_error items j = Some v -> nth_error parts j = Some part ->
          snd (W (RString (INT2STRING (i + j))) v [] ck false) = Done part)
    /\ e = concat parts.
Proof.
  revert i e. induction items as [|v rest IH]; intros i e.
  - cbn. intros H. inversion H. exists []. split; [reflexivity|]. split; [|reflexivity].
    intros [|j] ? ? ?; discriminate.
  - cbn [each_item].
    destruct (W (RString (INT2STRING i)) v [] ck false) as [v' [e1|x]] eqn:E1; [|discriminate].
    rewrite (each_item_indep _ (write_element_allow_id_indep env fuel) ck rest (S i) e1).
    destruct (each_item W ck (S i) rest []) as [rest' [e2|x]] eqn:E2; cbn [fst snd appo];
      [|discriminate].
    intros H. inversion H.
    destruct (IH (S i) e2) as [parts [HL [HF ->]]]; [now rewrite E2|].
    exists (e1 :: parts). split; [cbn; now rewrite HL|]. split; [|reflexivity].
    intros [|j] w part Hw Hp; cbn in Hw, Hp.
    + inversion Hw; inversion Hp; subst. rewrite Nat.add_0_r. now rewrite E1.
    + replace (i + S j)%nat with (S i + j)%nat by lia. now apply HF.
Qed.

End ContainerForms.

(** ** Length prefix and terminator (C7) *)

(** C7. Every [write_doc] that returns, for the top-level document or for
    a nested one written into the same buffer, has appended four bytes that
    read as the little-endian length of what it appended, then the elements,
    then a 0x00 byte; so the output of [method_serialize] starts with its
    own length and ends with 0x00. The embedded documents written without
    [write_doc], for a DBRef and for an array, are framed in the same way:
    the four bytes of their length, their elements, a 0x00 byte. *)
Theorem C7_length_prefix_and_terminator (env : platform) :
  (forall fuel b klass hash ck mid h' out,
      write_doc env fuel b klass hash ck mid = (h', Done out) ->
      exists body,
        out = b ++ le_split 4 (len body + 5) ++ body ++ [x00]
        /\ swrap 32 (le_combine (le_split 4 (len body + 5)))
           = len (le_split 4 (len body + 5) ++ body ++ [x00]))
  /\ (forall klass doc ck mid h' out,
      method_serialize env klass doc ck mid = (h', Done out) ->
      swrap 32 (le_combine (firstn 4 out)) = len out
      /\ exists front, out = front ++ [x00])
  /\ (forall fuel k value b ck v' out,
      match value with RHash _ _ | RArray _ | RDBRef _ _ => True | _ => False end ->
      write_value env (write_element_allow_id env fuel) k value b ck = (v', Done out) ->
      exists body,
        out = b ++ (match value with RArray _ => x04 | _ => x03 end) :: k ++ x00
                :: le_split 4 (len body + 5) ++ body ++ [x00]).
Proof.
  assert (L : forall fuel b klass hash ck mid h' out,
      write_doc env fuel b klass hash ck mid = (h', Done out) ->
      exists body,
        out = b ++ le_split 4 (len body + 5) ++ body ++ [x00]
        /\ swrap 32 (le_combine (le_split 4 (len body + 5)))
           = len (le_split 4 (len body + 5) ++ body ++ [x00])).
  { intros fuel b klass hash ck mid h' out H.
    apply write_doc_Done in H. destruct H as [body [_ [-> Hmax]]].
    exists body. split; [reflexivity|].
    pose proof (len_nonneg body).
    rewrite read_length_prefix by lia.
    rewrite !len_app, len_le_split, len_cons, len_nil. lia. }
  split; [exact L|]. split.
  - intros klass doc ck mid h' out H. unfold method_serialize in H.
    apply L in H. destruct H as [body [-> Hlen]]. split.
    + rewrite app_nil_l. rewrite List.firstn_app_l by (now rewrite length_le_split).
      exact Hlen.
    + exists (le_split 4 (len body + 5) ++ body). now rewrite app_nil_l, <- app_assoc.
  - intros fuel k value b ck v' out Hv H.
    destruct value as [| | | | |klass entries|values| | | | | | |ns oid| | | | | | |];
      try contradiction; clear Hv.
    + rewrite write_value_hash_eq in H.
      destruct (utf8_error env k true); [discriminate|].
      destruct (write_doc env fuel [] klass entries ck false) as [h' [e|x]] eqn:E;
        [|discriminate].
      apply L in E. destruct E as [body [-> _]].
      cbn [fst snd appo] in H. inversion H. exists body.
      unfold zero. now list_norm.
    + rewrite write_value_array_eq in H.
      destruct (utf8_error env k true); [discriminate|].
      destruct (snd (each_item (write_element_allow_id env fuel) ck 0 values []))
        as [e|x]; [|discriminate].
      inversion H. exists e. unfold zero. now list_norm.
    + rewrite write_value_dbref_eq in H.
      destruct (utf8_error env k true); [discriminate|]. cbv zeta in H.
      destruct (snd (write_element_allow_id env fuel (RString (str "$ref")) ns []
                       false false)) as [e1|x]; [|discriminate].
      destruct (snd (write_element_allow_id env fuel (RString (str "$id")) oid []
                       false false)) as [e2|x]; [|discriminate].
      inversion H. exists (e1 ++ e2). unfold zero. now list_norm.
Qed.

Lemma C7_length_prefix_and_terminator_witness :
  swrap 32 (le_combine (firstn 4 (le_split 4 12 ++ x10 :: str "a" ++ x00 :: le_split 4 1 ++ [x00])))
  = 12
  /\ exists front,
      le_split 4 12 ++ x10 :: str "a" ++ x00 :: le_split 4 1 ++ [x00] = front ++ [x00].
Proof.
  apply (proj1 (proj2 (C7_length_prefix_and_terminator ruby19)) OrderedHash
           [(RString (str "a"), RInteger 1)] false false
           [(RString (str "a"), RInteger 1)]).
  reflexivity.
Defined.

(** ** The input document after the call (C5) *)

Lemma hash_store_aref (hash : entries_t) (key : VALUE) :
  hash_store hash key (rb_hash_aref hash key) = hash.
Proof.
  induction hash as [|[k v] rest IH]; cbn; [reflexivity|].
  destruct (key_eql k key); [reflexivity|]. now rewrite IH.
Qed.

Lemma clash_free_aref (hash : entries_t) (key : VALUE) :
  forallb (fun e => clash_free (snd e)) hash = true ->
  clash_free (rb_hash_aref hash key) = true.
Proof.
  induction hash as [|[k v] rest IH]; cbn; [reflexivity|].
  intros H. apply andb_true_iff in H. destruct H as [H1 H2].
  destruct (key_eql k key); auto.
Qed.

Section Unchanged.

Variable env : platform.
Variable we : VALUE -> VALUE -> buffer_t -> bool -> bool -> VALUE * outcome.
Hypothesis we_fst : forall k v b ck a, clash_free v = true -> fst (we k v b ck a) = v.

Lemma each_pair_fst (ck a : bool) (hash : entries_t) (b : buffer_t) :
  forallb (fun e => clash_free (snd e)) hash = true ->
  fst (each_pair we ck a hash b) = hash.
Proof.
  revert b. induction hash as [|[k v] rest IH]; intros b H; [reflexivity|].
  cbn in H. apply andb_true_iff in H. destruct H as [H1 H2].
  cbn [each_pair]. pose proof (we_fst k v b ck a H1) as Hv.
  destruct (we k v b ck a) as [v' [b'|x]]; cbn [fst] in Hv; subst v'; [|reflexivity].
  specialize (IH b' H2). destruct (each_pair we ck a rest b') as [rest' o].
  cbn [fst] in *. now subst.
Qed.

Lemma each_item_fst (ck : bool) (items : list VALUE) (i : nat) (b : buffer_t) :
  forallb clash_free items = true ->
  fst (each_item we ck i items b) = items.
Proof.
  revert i b. induction items as [|v rest IH]; intros i b H; [reflexivity|].
  cbn in H. apply andb_true_iff in H. destruct H as [H1 H2].
  cbn [each_item]. pose proof (we_fst (RString (INT2STRING i)) v b ck false H1) as Hv.
  destruct (we (RString (INT2STRING i)) v b ck false) as [v' [b'|x]]; cbn [fst] in Hv;
    subst v'; [|reflexivity].
  specialize (IH (S i) b' H2). destruct (each_item we ck (S i) rest b') as [rest' o].
  cbn [fst] in *. now subst.
Qed.

Lemma write_doc_gen_fst (b : buffer_t) (klass : hash_class) (hash : entries_t) (ck mid : bool) :
  clash_free_doc mid hash = true ->
  fst (write_doc_gen env we b klass hash ck mid) = hash.
Proof.
  unfold clash_free_doc, id_clash. intros H.
  apply andb_true_iff in H. destruct H as [H1 H2].
  unfold write_doc_gen, buffer_save_space, write_doc_elements.
  destruct mid; cbn [orb] in H1.
  - destruct (has_key hash id_str).
    + pose proof (we_fst id_str _ (b ++ repeat Byte.x00 4) ck true
                    (clash_free_aref hash id_str H2)) as Hv.
      destruct (we id_str (rb_hash_aref hash id_str) _ ck true) as [v' [b'|x]];
        cbn [fst] in Hv; subst v'; rewrite hash_store_aref; [|reflexivity].
      destruct klass;
        match goal with
        | |- context [each_pair we ck ?a hash b'] =>
            pose proof (each_pair_fst ck a hash b' H2) as Hh;
            destruct (each_pair we ck a hash b') as [h' o]; cbn [fst] in *; now subst
        end.
    + destruct (has_key hash id_sym).
      * pose proof (we_fst id_sym _ (b ++ repeat Byte.x00 4) ck true
                      (clash_free_aref hash id_sym H2)) as Hv.
        destruct (we id_sym (rb_hash_aref hash id_sym) _ ck true) as [v' [b'|x]];
          cbn [fst] in Hv; subst v'; rewrite hash_store_aref; [|reflexivity].
        destruct klass;
          match goal with
          | |- context [each_pair we ck ?a hash b'] =>
              pose proof (each_pair_fst ck a hash b' H2) as Hh;
              destruct (each_pair we ck a hash b') as [h' o]; cbn [fst] in *; now subst
          end.
      * destruct klass;
          match goal with
          | |- context [each_pair we ck ?a hash ?b'] =>
              pose proof (each_pair_fst ck a hash b' H2) as Hh;
              destruct (each_pair we ck a hash b') as [h' o]; cbn [fst] in *; now subst
          end.
  - apply negb_true_iff in H1. rewrite H1.
    destruct klass;
      match goal with
      | |- context [each_pair we ck ?a hash ?b'] =>
          pose proof (each_pair_fst ck a hash b' H2) as Hh;
          destruct (each_pair we ck a hash b') as [h' o]; cbn [fst] in *; now subst
      end.
Qed.

Lemma write_value_fst (k : bytes) (v : VALUE) (b : buffer_t) (ck : bool) :
  clash_free v = true -> fst (write_value env we k v b ck) = v.
Proof.
  intros H. unfold write_value.
  destruct v; try reflexivity; cbn [clash_free] in H.
  - (* RHash *)
    destruct (write_name_and_type env b k x03) as [b1|x]; [|reflexivity].
    pose proof (write_doc_gen_fst b1 klass entries ck false H) as Hh.
    destruct (write_doc_gen env we b1 klass entries ck false) as [h' o].
    cbn [fst] in *. now subst.
  - (* RArray *)
    destruct (write_name_and_type env b k x04) as [b1|x]; [|reflexivity].
    unfold buffer_save_space.
    pose proof (each_item_fst ck items 0 (b1 ++ repeat Byte.x00 4) H) as Hh.
    destruct (each_item we ck 0 items _) as [vs' o]. cbn [fst] in *. now subst.
  - (* RCode *)
    destruct (write_name_and_type env b k x0f) as [b1|x]; [|reflexivity].
    unfold buffer_save_space. cbn [bindo SAFE_WRITE buffer_write].
    match goal with
    | |- context [write_doc_gen env we ?b2 scope_klass scope false false] =>
        pose proof (write_doc_gen_fst b2 scope_klass scope false false H) as Hh;
        destruct (write_doc_gen env we b2 scope_klass scope false false) as [h' o]
    end.
    cbn [fst] in *. now subst.
  - (* RDBRef *)
    apply andb_true_iff in H. destruct H as [H1 H2].
    destruct (write_name_and_type env b k x03) as [b1|x]; [|reflexivity].
    unfold buffer_save_space.
    match goal with
    | |- context [we (RString (str "$ref")) v1 ?b2 false false] =>
        pose proof (we_fst (RString (str "$ref")) v1 b2 false false H1) as Hv;
        destruct (we (RString (str "$ref")) v1 b2 false false) as [ns' [b3|x]]
    end; cbn [fst] in Hv; subst ns'; [|reflexivity].
    pose proof (we_fst (RString (str "$id")) v2 b3 false false H2) as Hv.
    destruct (we (RString (str "$id")) v2 b3 false false) as [oid' o].
    cbn [fst] in *. now subst.
Qed.

End Unchanged.

Lemma write_element_allow_id_fst (env : platform) (fuel : nat) :
  forall key value b ck a,
    clash_free value = true ->
    fst (write_element_allow_id env fuel key value b ck a) = value.
Proof.
  induction fuel as [|fuel IH]; intros key value b ck a H; [reflexivity|].
  rewrite write_element_allow_id_S.
  destruct (key_string key) as [k|]; [|reflexivity].
  destruct (negb a && id_like key); [reflexivity|].
  destruct (if ck then check_key k else None); [reflexivity|].
  now apply write_value_fst.
Qed.

Lemma each_pair_keys (we : VALUE -> VALUE -> buffer_t -> bool -> bool -> VALUE * outcome)
    (ck a : bool) (hash : entries_t) (b : buffer_t) :
  map fst (fst (each_pair we ck a hash b)) = map fst hash.
Proof.
  revert b. induction hash as [|[k v] rest IH]; intros b; [reflexivity|].
  cbn [each_pair]. destruct (we k v b ck a) as [v' [b'|x]]; [|reflexivity].
  specialize (IH b'). destruct (each_pair we ck a rest b') as [rest' o].
  cbn [fst map] in *. now rewrite IH.
Qed.

Lemma has_key_keys (h h' : entries_t) (key : VALUE) :
  map fst h = map fst h' -> has_key h key = has_key h' key.
Proof.
  unfold has_key. revert h'. induction h as [|[k v] rest IH]; intros [|[k' v'] rest'] H;
    try discriminate; [reflexivity|].
  cbn in H. inversion H; subst. cbn. now rewrite (IH rest').
Qed.

Lemma has_key_delete (hash : entries_t) (key : VALUE) :
  has_key (rb_hash_delete hash key) key = false.
Proof.
  unfold has_key, rb_hash_delete. induction hash as [|[k v] rest IH]; [reflexivity|].
  cbn. destruct (key_eql k key) eqn:E; cbn; [exact IH|]. now rewrite E.
Qed.

(** C5, amended. The call leaves the document as it was, whether it returns
    or raises, when no hash that is written with move_id false (the top-level
    document without move_id, every nested document and scope) holds both the
    string key "_id" and the symbol key :_id. A top-level document that holds
    both and is written without move_id has lost its string key "_id" after
    the call. *)
Theorem C5_input_unchanged_without_clash (env : platform) (klass : hash_class)
    (doc : entries_t) (check_keys move_id : bool) :
  (clash_free_doc move_id doc = true ->
     fst (method_serialize env klass doc check_keys move_id) = doc)
  /\ (id_clash doc = true -> move_id = false ->
     has_key (fst (method_serialize env klass doc check_keys move_id)) id_str = false).
Proof.
  split.
  - intros H. unfold method_serialize, write_doc.
    apply write_doc_gen_fst; [|exact H].
    intros k v b ck a Hv. now apply write_element_allow_id_fst.
  - intros H ->. unfold method_serialize, write_doc, write_doc_gen, buffer_save_space,
      write_doc_elements.
    unfold id_clash in H. rewrite H.
    destruct klass;
      match goal with
      | |- context [each_pair ?we check_keys ?a ?h ?b] =>
          pose proof (each_pair_keys we check_keys a h b) as Hk;
          destruct (each_pair we check_keys a h b) as [h' o]
      end; cbn [fst] in *;
      rewrite (has_key_keys _ _ id_str Hk); apply has_key_delete.
Qed.

Lemma C5_input_unchanged_without_clash_witness :
  fst (method_serialize ruby19 OrderedHash
         [(id_str, RInteger 1); (RString (str "b"), RHash Hash [(id_sym, RObject "Date")])]
         true false)
  = [(id_str, RInteger 1); (RString (str "b"), RHash Hash [(id_sym, RObject "Date")])]
  /\ has_key (fst (method_serialize ruby19 OrderedHash
                     [(id_str, RInteger 1); (id_sym, RInteger 2)] false false)) id_str
     = false.
Proof.
  split.
  - apply (proj1 (C5_input_unchanged_without_clash ruby19 OrderedHash _ true false)).
    reflexivity.
  - apply (proj2 (C5_input_unchanged_without_clash ruby19 OrderedHash _ false false));
      reflexivity.
Defined.

(** C5 as stated fails: a document with both spellings of "_id", written
    without move_id, comes back without its string key. *)
Lemma C5_counterexample :
  fst (method_serialize ruby19 OrderedHash
         [(id_str, RInteger 1); (id_sym, RInteger 2)] false false)
  <> [(id_str, RInteger 1); (id_sym, RInteger 2)].
Proof. vm_compute. discriminate. Qed.

(** ** The order of the elements (C6) *)

Lemma key_eql_id_str_like (k : VALUE) : key_eql k id_str = true -> id_like k = true.
Proof.
  unfold id_like. destruct k; cbn; try discriminate.
  - intros H. apply bytes_eqb_eq in H. subst. reflexivity.
  - intros H. apply bytes_eqb_eq in H. subst. reflexivity.
Qed.

Lemma key_eql_id_sym_like (k : VALUE) : key_eql k id_sym = true -> id_like k = true.
Proof.
  unfold id_like. destruct k; cbn; try discriminate.
  intros H. apply bytes_eqb_eq in H. subst. reflexivity.
Qed.

Lemma filter_hash_store (hash : entries_t) (key value : VALUE) :
  (forall k, key_eql k key = true -> id_like k = true) ->
  filter (fun e => negb (id_like (fst e))) (hash_store hash key value)
  = filter (fun e => negb (id_like (fst e))) hash.
Proof.
  intros Hk. induction hash as [|[k v] rest IH]; [reflexivity|].
  cbn [hash_store]. destruct (key_eql k key) eqn:E.
  - cbn. now rewrite (Hk k E).
  - cbn. now rewrite IH.
Qed.

Lemma has_key_filter_id (hash : entries_t) (key : VALUE) :
  (forall k, key_eql k key = true -> id_like k = true) ->
  has_key (filter (fun e => negb (id_like (fst e))) hash) key = false.
Proof.
  intros Hk. unfold has_key. induction hash as [|[k v] rest IH]; [reflexivity|].
  cbn. destruct (id_like k) eqn:E; cbn; [exact IH|].
  rewrite IH. destruct (key_eql k key) eqn:E'; [|reflexivity].
  apply Hk in E'. congruence.
Qed.

Lemma each_pair_skip (env : platform) (fuel : nat) (ck : bool) (hash : entries_t)
    (b : buffer_t) :
  snd (each_pair (write_element_allow_id env (S fuel)) ck false hash b)
  = snd (each_pair (write_element_allow_id env (S fuel)) ck true
           (filter (fun e => negb (id_like (fst e))) hash) b).
Proof.
  revert b. induction hash as [|[k v] rest IH]; intros b; [reflexivity|].
  cbn [each_pair filter fst]. rewrite write_element_allow_id_S.
  destruct (id_like k) eqn:E.
  - assert (Hs : exists s, key_string k = Some s).
    { unfold id_like in E. destruct (key_string k); [eauto|discriminate]. }
    destruct Hs as [s ->]. cbn [negb andb].
    specialize (IH b).
    destruct (each_pair (write_element_allow_id env (S fuel)) ck false rest b).
    cbn [snd] in *. exact IH.
  - cbn [negb andb each_pair]. rewrite write_element_allow_id_S, E.
    cbn [negb andb].
    destruct (key_string k) as [s|]; [|reflexivity].
    destruct (if ck then check_key s else None); [reflexivity|].
    destruct (write_value env (write_element_allow_id env fuel) s v b ck) as [v' [b'|x]];
      [|reflexivity].
    specialize (IH b').
    destruct (each_pair (write_element_allow_id env (S fuel)) ck false rest b').
    destruct (each_pair (write_element_allow_id env (S fuel)) ck true _ b').
    cbn [snd] in *. exact IH.
Qed.

Lemma write_doc_elements_move_id (env : platform) (fuel : nat) (hash : entries_t)
    (ck : bool) (b : buffer_t) :
  snd (write_doc_elements env (write_element_allow_id env (S fuel)) b OrderedHash hash ck true)
  = snd (write_doc_elements env (write_element_allow_id env (S fuel)) b OrderedHash
           (id_first hash) ck false).
Proof.
  unfold write_doc_elements, id_first.
  set (rest := filter (fun e => negb (id_like (fst e))) hash).
  assert (Hstr : has_key rest id_str = false)
    by (apply has_key_filter_id, key_eql_id_str_like).
  assert (Hsym : has_key rest id_sym = false)
    by (apply has_key_filter_id, key_eql_id_sym_like).
  destruct (has_key hash id_str) eqn:E1; [|destruct (has_key hash id_sym) eqn:E2].
  - replace (has_key ((id_str, rb_hash_aref hash id_str) :: rest) id_str
             && has_key ((id_str, rb_hash_aref hash id_str) :: rest) id_sym) with false
      by (unfold has_key in *; cbn; now rewrite Hsym).
    cbn [each_pair].
    destruct (write_element_allow_id env (S fuel) id_str (rb_hash_aref hash id_str) b ck true)
      as [id' [b'|x]]; [|reflexivity].
    rewrite each_pair_skip.
    rewrite (filter_hash_store hash id_str id' key_eql_id_str_like). fold rest.
    now destruct (each_pair _ ck true rest b').
  - replace (has_key ((id_sym, rb_hash_aref hash id_sym) :: rest) id_str
             && has_key ((id_sym, rb_hash_aref hash id_sym) :: rest) id_sym) with false
      by (unfold has_key in *; cbn; now rewrite Hstr).
    cbn [each_pair].
    destruct (write_element_allow_id env (S fuel) id_sym (rb_hash_aref hash id_sym) b ck true)
      as [id' [b'|x]]; [|reflexivity].
    rewrite each_pair_skip.
    rewrite (filter_hash_store hash id_sym id' key_eql_id_sym_like). fold rest.
    now destruct (each_pair _ ck true rest b').
  - rewrite Hstr. cbn [andb]. apply each_pair_skip.
Qed.

Lemma write_doc_in_order (env : platform) (fuel : nat) (b : buffer_t) (hash h' : entries_t)
    (ck : bool) (out : bytes) :
  id_clash hash = false ->
  write_doc env fuel b OrderedHash hash ck false = (h', Done out) ->
  written_in_order env fuel ck hash b out.
Proof.
  intros Hc H. apply write_doc_Done in H. destruct H as [body [Hb [-> _]]].
  unfold write_doc_elements in Hb. unfold id_clash in Hc. rewrite Hc in Hb.
  apply each_pair_parts in Hb. destruct Hb as [parts [HF ->]].
  exists parts. split; [exact HF|reflexivity].
Qed.

(** C6, amended, for a document of class OrderedHash. With move_id the
    output is that of the document [id_first], whose "_id" entry comes first
    and which has no other entry named "_id", written without move_id.
    Without move_id, and unless the document holds both spellings of "_id",
    the elements are those of the document, once each and in its order. A
    nested document is written by [write_doc] without move_id whatever the
    flag of the call, so the same holds for it. *)
Theorem C6_move_id_order (env : platform) (fuel : nat) (ck : bool) :
  (forall b hash,
      snd (write_doc env (S fuel) b OrderedHash hash ck true)
      = snd (write_doc env (S fuel) b OrderedHash (id_first hash) ck false))
  /\ (forall b hash h' out,
      id_clash hash = false ->
      write_doc env fuel b OrderedHash hash ck false = (h', Done out) ->
      written_in_order env fuel ck hash b out)
  /\ (forall key k b hash allow_id out,
      key_string key = Some k ->
      id_clash hash = false ->
      snd (write_element_allow_id env (S fuel) key (RHash OrderedHash hash) b ck allow_id)
      = Done out ->
      out = b \/ written_in_order env fuel ck hash (b ++ x03 :: k ++ [x00]) out).
Proof.
  split; [|split].
  - intros b hash. rewrite !write_doc_eq. cbn [snd].
    now rewrite write_doc_elements_move_id.
  - intros b hash h' out. apply write_doc_in_order.
  - intros key k b hash a out Hk Hc H.
    rewrite write_element_allow_id_S, Hk in H.
    destruct (negb a && id_like key); [left; cbn in H; congruence|].
    destruct (if ck then check_key k else None); [discriminate|].
    rewrite write_value_hash_eq in H.
    destruct (utf8_error env k true); [discriminate|]. cbn [snd] in H.
    destruct (write_doc env fuel [] OrderedHash hash ck false) as [h' [e|x]] eqn:E;
      [|discriminate].
    cbn in H. inversion H. right.
    apply (write_doc_in_order env fuel _ hash h' ck) in E; [|exact Hc].
    destruct E as [parts [HF ->]]. exists parts. split; [exact HF|].
    unfold zero. now list_norm.
Qed.

Lemma C6_move_id_order_witness :
  written_in_order ruby19 1 true
    [(RString (str "b"), RInteger 2); (id_sym, RInteger 7)] []
    (le_split 4 21 ++ x10 :: str "b" ++ x00 :: le_split 4 2
     ++ x10 :: str "_id" ++ x00 :: le_split 4 7 ++ [x00])
  /\ (x03 :: str "d" ++ x00 :: le_split 4 5 ++ [x00] = []
      \/ written_in_order ruby19 1 true [] ([] ++ x03 :: str "d" ++ [x00])
           (x03 :: str "d" ++ x00 :: le_split 4 5 ++ [x00])).
Proof.
  split.
  - apply (proj1 (proj2 (C6_move_id_order ruby19 1 true)) []
             [(RString (str "b"), RInteger 2); (id_sym, RInteger 7)]
             [(RString (str "b"), RInteger 2); (id_sym, RInteger 7)]);
      reflexivity.
  - apply (proj2 (proj2 (C6_move_id_order ruby19 1 true)) (RString (str "d")) (str "d")
             [] [] true); reflexivity.
Defined.

(** C6 as stated fails without move_id: the document below holds both
    spellings of "_id"; its string entry is deleted before the traversal, so
    the output is not made of the three elements of the document. *)
Lemma C6_counterexample :
  snd (method_serialize ruby19 OrderedHash
         [(id_str, RInteger 1); (id_sym, RInteger 2); (RString (str "b"), RInteger 3)]
         false false)
  = Done (le_split 4 21 ++ x10 :: str "_id" ++ x00 :: le_split 4 2
          ++ x10 :: str "b" ++ x00 :: le_split 4 3 ++ [x00])
  /\ ~ written_in_order ruby19 2 false
         [(id_str, RInteger 1); (id_sym, RInteger 2); (RString (str "b"), RInteger 3)] []
         (le_split 4 21 ++ x10 :: str "_id" ++ x00 :: le_split 4 2
          ++ x10 :: str "b" ++ x00 :: le_split 4 3 ++ [x00]).
Proof.
  split; [reflexivity|].
  intros [parts [HF Hout]].
  inversion HF as [|p1 q1 l1 r1 H1 HF1]; subst.
  inversion HF1 as [|p2 q2 l2 r2 H2 HF2]; subst.
  inversion HF2 as [|p3 q3 l3 r3 H3 HF3]; subst.
  inversion HF3; subst.
  vm_compute in H1, H2, H3.
  inversion H1; inversion H2; inversion H3; subst.
  vm_compute in Hout. discriminate.
Qed.

(** ** Key checks (C3) *)

Lemma INT2STRING_digits (i : nat) : forallb is_digit (INT2STRING i) = true.
Proof.
  unfold INT2STRING. generalize (Nat.to_uint i). intros d.
  induction d; cbn; try reflexivity; exact IHd.
Qed.

Lemma digits_no_nul (s : bytes) : forallb is_digit s = true -> no_nul s.
Proof.
  unfold no_nul. induction s as [|c s IH]; cbn; [reflexivity|].
  intros H. apply andb_true_iff in H. destruct H as [H1 H2].
  rewrite (IH H2), orb_false_r.
  unfold is_nul. destruct (Byte.eqb c x00) eqn:E; [|reflexivity].
  apply byte_dec_bl in E. subst. discriminate.
Qed.

Lemma digits_not_id (s : bytes) :
  forallb is_digit s = true -> id_like (RString s) = false.
Proof.
  unfold id_like. cbn [key_string]. destruct s as [|c s]; [reflexivity|].
  cbn [forallb c_str]. intros H. apply andb_true_iff in H. destruct H as [H1 H2].
  destruct (is_nul c); [reflexivity|].
  change (str "_id") with ("_"%byte :: str "id"). cbn [bytes_eqb].
  destruct (Byte.eqb "_" c) eqn:E'; [|reflexivity].
  apply byte_dec_bl in E'. subst. discriminate.
Qed.

Lemma digits_key_ok (s : bytes) : forallb is_digit s = true -> check_key s = None.
Proof.
  destruct s as [|c s]; [reflexivity|]. intros H. unfold check_key.
  assert (Hd : forall l, forallb is_digit l = true -> existsb (Byte.eqb ".") l = false).
  { induction l as [|d l IH]; cbn; [reflexivity|]. intros Hl.
    apply andb_true_iff in Hl. destruct Hl as [H1 H2]. rewrite (IH H2), orb_false_r.
    destruct (Byte.eqb "." d) eqn:E; [|reflexivity].
    apply byte_dec_bl in E. subst. discriminate. }
  rewrite (Hd _ H). cbn in H. apply andb_true_iff in H. destruct H as [H1 _].
  destruct (Byte.eqb c "$") eqn:E; [|reflexivity].
  apply byte_dec_bl in E. subst. discriminate.
Qed.

Section KeysChecked.

Variable env : platform.
Variable we : VALUE -> VALUE -> buffer_t -> bool -> bool -> VALUE * outcome.
Hypothesis we_checked : forall key v b a b',
  snd (we key v b true a) = Done b' ->
  negb a && id_like key = true \/ (key_ok key = true /\ keys_checked env v = true).

Lemma each_pair_checked (a : bool) (hash : entries_t) (b b' : buffer_t) :
  snd (each_pair we true a hash b) = Done b' ->
  forallb (fun e => (negb a && id_like (fst e))
                    || (key_ok (fst e) && keys_checked env (snd e))) hash = true.
Proof.
  revert b. induction hash as [|[k v] rest IH]; intros b H; [reflexivity|].
  cbn [each_pair] in H. pose proof (we_checked k v b a) as Hw.
  destruct (we k v b true a) as [v' [b1|x]]; [|discriminate].
  specialize (Hw b1 eq_refl). specialize (IH b1).
  destruct (each_pair we true a rest b1) as [rest' o]. cbn [snd] in *.
  cbn [forallb fst snd]. rewrite (IH H), andb_true_r.
  destruct Hw as [Hw|[Hw1 Hw2]]; [now rewrite Hw|].
  rewrite Hw1, Hw2. apply orb_true_r.
Qed.

Lemma each_item_checked (items : list VALUE) (i : nat) (b b' : buffer_t) :
  snd (each_item we true i items b) = Done b' ->
  forallb (keys_checked env) items = true.
Proof.
  revert i b. induction items as [|v rest IH]; intros i b H; [reflexivity|].
  cbn [each_item] in H. pose proof (we_checked (RString (INT2STRING i)) v b false) as Hw.
  destruct (we (RString (INT2STRING i)) v b true false) as [v' [b1|x]]; [|discriminate].
  specialize (Hw b1 eq_refl). specialize (IH (S i) b1).
  destruct (each_item we true (S i) rest b1) as [rest' o]. cbn [snd] in *.
  cbn [forallb]. rewrite (IH H), andb_true_r.
  destruct Hw as [Hw|[_ Hw]]; [|exact Hw].
  rewrite (digits_not_id _ (INT2STRING_digits i)) in Hw. discriminate.
Qed.

Lemma forallb_delete (Q : VALUE * VALUE -> bool) (hash : entries_t) (key : VALUE) :
  forallb Q (rb_hash_delete hash key) = true ->
  forallb (fun e => key_eql (fst e) key || Q e) hash = true.
Proof.
  unfold rb_hash_delete. induction hash as [|[k v] rest IH]; [reflexivity|].
  cbn. destruct (key_eql k key); cbn; [exact IH|].
  intros H. apply andb_true_iff in H. destruct H as [H1 H2]. now rewrite H1, IH.
Qed.

Lemma forallb_store (Q : VALUE * VALUE -> bool) (hash : entries_t) (key value : VALUE) :
  (forall k, key_eql k key = true -> Q (k, rb_hash_aref hash key) = true) ->
  forallb Q (hash_store hash key value) = true ->
  forallb Q hash = true.
Proof.
  induction hash as [|[k v] rest IH]; [reflexivity|].
  cbn [hash_store rb_hash_aref]. destruct (key_eql k key) eqn:E.
  - intros Hk H. cbn in H. apply andb_true_iff in H. destruct H as [_ H].
    cbn. now rewrite (Hk k E), H.
  - intros Hk H. cbn in H. apply andb_true_iff in H. destruct H as [H1 H2].
    cbn. now rewrite H1, (IH Hk H2).
Qed.

Lemma forallb_weaken {A : Type} (P Q : A -> bool) (l : list A) :
  (forall x, P x = true -> Q x = true) -> forallb P l = true -> forallb Q l = true.
Proof.
  intros H. induction l as [|x l IH]; [reflexivity|]. cbn. intros Hl.
  apply andb_true_iff in Hl. destruct Hl as [H1 H2]. now rewrite (H x H1), IH.
Qed.

Lemma write_doc_gen_checked (b : buffer_t) (klass : hash_class) (hash h' : entries_t)
    (mid : bool) (b' : buffer_t) :
  write_doc_gen env we b klass hash true mid = (h', Done b') ->
  keys_checked_doc env klass mid hash = true.
Proof.
  unfold write_doc_gen, buffer_save_space, write_doc_elements, keys_checked_doc, not_written.
  set (b0 := b ++ repeat Byte.x00 4).
  destruct mid; cbn [negb andb orb].
  - destruct (has_key hash id_str) eqn:E1; [|destruct (has_key hash id_sym) eqn:E2].
    + pose proof (we_checked id_str (rb_hash_aref hash id_str) b0 true) as Hw.
      destruct (we id_str (rb_hash_aref hash id_str) b0 true true) as [id' [b1|x]];
        [|discriminate].
      destruct (Hw b1 eq_refl) as [Hw'|[_ Hw']]; [discriminate|]. rewrite Hw'. cbn [andb].
      intros H.
      assert (Hl : exists a, a = match klass with OrderedHash => false
                                 | Hash => foreach_allow_id env end
                 /\ exists o, snd (each_pair we true a (hash_store hash id_str id') b1) = Done o).
      { destruct klass; eexists; (split; [reflexivity|]);
          match goal with
          | H : context [each_pair we true ?a ?h ?bb] |- _ =>
              destruct (each_pair we true a h bb) as [hh [oo|xx]]; cbn in H;
                [exists oo; reflexivity|discriminate]
          end. }
      destruct Hl as [a [Ha [o Ho]]]. apply each_pair_checked in Ho.
      apply forallb_store in Ho.
      * revert Ho. apply forallb_weaken. intros [k v]. cbn [fst snd]. subst a.
        now destruct klass.
      * intros k Hk. cbn [fst snd]. rewrite Hw'.
        replace (key_ok k) with true; [apply orb_true_r|].
        unfold key_ok. destruct k; cbn in Hk; try discriminate;
          apply bytes_eqb_eq in Hk; subst; reflexivity.
    + pose proof (we_checked id_sym (rb_hash_aref hash id_sym) b0 true) as Hw.
      destruct (we id_sym (rb_hash_aref hash id_sym) b0 true true) as [id' [b1|x]];
        [|discriminate].
      destruct (Hw b1 eq_refl) as [Hw'|[_ Hw']]; [discriminate|]. rewrite Hw'. cbn [andb].
      intros H.
      assert (Hl : exists a, a = match klass with OrderedHash => false
                                 | Hash => foreach_allow_id env end
                 /\ exists o, snd (each_pair we true a (hash_store hash id_sym id') b1) = Done o).
      { destruct klass; eexists; (split; [reflexivity|]);
          match goal with
          | H : context [each_pair we true ?a ?h ?bb] |- _ =>
              destruct (each_pair we true a h bb) as [hh [oo|xx]]; cbn in H;
                [exists oo; reflexivity|discriminate]
          end. }
      destruct Hl as [a [Ha [o Ho]]]. apply each_pair_checked in Ho.
      apply forallb_store in Ho.
      * revert Ho. apply forallb_weaken. intros [k v]. cbn [fst snd]. subst a.
        now destruct klass.
      * intros k Hk. cbn [fst snd]. rewrite Hw'.
        replace (key_ok k) with true; [apply orb_true_r|].
        unfold key_ok. destruct k; cbn in Hk; try discriminate;
          apply bytes_eqb_eq in Hk; subst; reflexivity.
    + intros H.
      assert (Hl : exists a, a = match klass with OrderedHash => false
                                 | Hash => foreach_allow_id env end
                 /\ exists o, snd (each_pair we true a hash b0) = Done o).
      { destruct klass; eexists; (split; [reflexivity|]);
          match goal with
          | H : context [each_pair we true ?a ?h ?bb] |- _ =>
              destruct (each_pair we true a h bb) as [hh [oo|xx]]; cbn in H;
                [exists oo; reflexivity|discriminate]
          end. }
      destruct Hl as [a [Ha [o Ho]]]. apply each_pair_checked in Ho.
      revert Ho. apply forallb_weaken. intros [k v]. cbn [fst snd]. subst a.
      now destruct klass.
  - unfold id_clash. intros H.
    assert (Hl : exists a h, a = match klass with OrderedHash => true
                                 | Hash => foreach_allow_id env end
               /\ h = (if has_key hash id_str && has_key hash id_sym
                       then rb_hash_delete hash id_str else hash)
               /\ exists o, snd (each_pair we true a h b0) = Done o).
    { destruct (has_key hash id_str && has_key hash id_sym); destruct klass;
        do 2 eexists; (split; [reflexivity|]); (split; [reflexivity|]);
        match goal with
        | H : context [each_pair we true ?a ?h ?bb] |- _ =>
            destruct (each_pair we true a h bb) as [hh [oo|xx]]; cbn in H;
              [exists oo; reflexivity|discriminate]
        end. }
    destruct Hl as [a [h [Ha [Hh [o Ho]]]]]. apply each_pair_checked in Ho.
    destruct (has_key hash id_str && has_key hash id_sym); subst h.
    + apply forallb_delete in Ho. revert Ho. apply forallb_weaken.
      intros [k v]. cbn [fst snd]. subst a.
      destruct (key_eql k id_str); [reflexivity|]. now destruct klass.
    + revert Ho. apply forallb_weaken. intros [k v]. cbn [fst snd]. subst a.
      now destruct klass.
Qed.

Lemma write_value_checked (k : bytes) (v : VALUE) (b b' : buffer_t) :
  snd (write_value env we k v b true) = Done b' -> keys_checked env v = true.
Proof.
  unfold write_value. destruct v; try reflexivity; cbn [keys_checked].
  - (* RHash *)
    destruct (write_name_and_type env b k x03) as [b1|x]; [|discriminate].
    destruct (write_doc_gen env we b1 klass entries true false) as [h' [o|x]] eqn:E;
      [|discriminate].
    intros _. apply write_doc_gen_checked in E.
    unfold keys_checked_doc in E. exact E.
  - (* RArray *)
    destruct (write_name_and_type env b k x04) as [b1|x]; [|discriminate].
    unfold buffer_save_space.
    destruct (each_item we true 0 items _) as [vs' [o|x]] eqn:E; [|discriminate].
    intros _. apply (each_item_checked items 0 (b1 ++ repeat Byte.x00 4) o).
    now rewrite E.
Qed.

End KeysChecked.

Lemma key_ok_check (key : VALUE) (k : bytes) :
  key_string key = Some k -> check_key k = None -> key_ok key = true.
Proof. unfold key_ok. intros -> ->. reflexivity. Qed.

Lemma write_element_allow_id_checked (env : platform) (fuel : nat) :
  forall key v b a b',
    snd (write_element_allow_id env fuel key v b true a) = Done b' ->
    negb a && id_like key = true \/ (key_ok key = true /\ keys_checked env v = true).
Proof.
  induction fuel as [|fuel IH]; intros key v b a b' H; [discriminate|].
  rewrite write_element_allow_id_S in H.
  destruct (key_string key) as [k|] eqn:Ek; [|discriminate].
  destruct (negb a && id_like key); [now left|]. right.
  destruct (check_key k) eqn:Ec; [discriminate|].
  split; [now apply (key_ok_check key k)|].
  now apply (write_value_checked env _ IH k v b b').
Qed.

Lemma check_key_None (k : bytes) :
  check_key k = None <-> (forall s, k <> "$"%byte :: s) /\ ~ In "."%byte k.
Proof.
  assert (Hdot : forall l, existsb (Byte.eqb ".") l = false <-> ~ In "."%byte l).
  { induction l as [|d l IH]; cbn; [tauto|].
    rewrite orb_false_iff, IH. split.
    - intros [H1 H2] [H|H]; [|tauto]. subst. now rewrite (byte_dec_lb eq_refl) in H1.
    - intros H. split; [|tauto]. destruct (Byte.eqb "." d) eqn:E; [|reflexivity].
      apply byte_dec_bl in E. subst. tauto. }
  destruct k as [|c k]; [cbn; split; [split; [discriminate|tauto]|reflexivity]|].
  unfold check_key. destruct (Byte.eqb c "$") eqn:E.
  - apply byte_dec_bl in E. subst. split; [discriminate|].
    intros [H _]. now specialize (H k).
  - destruct (existsb (Byte.eqb ".") (c :: k)) eqn:E'.
    + split; [discriminate|]. intros [_ H]. apply Hdot in H. congruence.
    + split; [|reflexivity]. intros _. split; [|now apply Hdot].
      intros s Hs. inversion Hs; subst. now rewrite (byte_dec_lb eq_refl) in E.
Qed.

(** C3, amended. Under check_keys a key that starts with '$' or contains
    '.' makes the element writer raise InvalidName before it writes anything
    of the element; so when the call returns, every key that was written for
    the top-level document or below it through embedded documents and arrays
    passes the test. The scope of a CodeWithScope value and the fields of a
    DBRef are written with check_keys off: [keys_checked] does not look at
    them. *)
Theorem C3_keys_checked (env : platform) :
  (forall k, check_key k = None <-> (forall s, k <> "$"%byte :: s) /\ ~ In "."%byte k)
  /\ (forall fuel key k value b allow_id,
      key_string key = Some k ->
      negb allow_id && id_like key = false ->
      check_key k <> None ->
      exists e,
        write_element_allow_id env (S fuel) key value b true allow_id = (value, Raise e)
        /\ is_InvalidName e = true)
  /\ (forall klass doc move_id h' out,
      method_serialize env klass doc true move_id = (h', Done out) ->
      keys_checked_doc env klass move_id doc = true).
Proof.
  split; [exact check_key_None|]. split.
  - intros fuel key k value b a Hk Hs Hc.
    rewrite write_element_allow_id_S, Hk, Hs.
    destruct (check_key k) as [e|] eqn:E; [|congruence].
    exists e. split; [reflexivity|].
    unfold check_key in E. destruct k as [|c k]; [discriminate|].
    destruct (Byte.eqb c "$"); [now inversion E|].
    destruct (existsb (Byte.eqb ".") (c :: k)); now inversion E.
  - intros klass doc mid h' out H. unfold method_serialize, write_doc in H.
    apply (write_doc_gen_checked env _ (write_element_allow_id_checked env _)) in H.
    exact H.
Qed.

Lemma C3_keys_checked_witness :
  (exists e,
      write_element_allow_id ruby19 1 (RString (str "$bad")) (RInteger 1) [] true true
      = (RInteger 1, Raise e)
      /\ is_InvalidName e = true)
  /\ keys_checked_doc ruby19 OrderedHash false
       [(RString (str "a"), RArray [RHash Hash [(RSymbol (str "b"), RInteger 1)]])] = true.
Proof.
  split.
  - apply (proj1 (proj2 (C3_keys_checked ruby19)) 0%nat (RString (str "$bad")) (str "$bad"));
      [reflexivity|reflexivity|discriminate].
  - eapply (proj2 (proj2 (C3_keys_checked ruby19)) OrderedHash
              [(RString (str "a"), RArray [RHash Hash [(RSymbol (str "b"), RInteger 1)]])]
              false).
    vm_compute. reflexivity.
Defined.

(** C3 as stated fails: with check_keys the call returns for a document
    whose CodeWithScope value has the scope key "$bad", and the key is in
    the output. *)
Lemma C3_counterexample :
  snd (method_serialize ruby19 OrderedHash
         [(RString (str "c"),
           RCode (str "x") OrderedHash [(RString (str "$bad"), RInteger 1)])] true false)
  = Done (le_split 4 33 ++ x0f :: str "c" ++ x00 :: le_split 4 25
          ++ le_split 4 2 ++ str "x" ++ x00
          :: le_split 4 15 ++ x10 :: str "$bad" ++ x00 :: le_split 4 1 ++ [x00; x00]).
Proof. reflexivity. Qed.

(** ** Reading what was written (C1) *)

(** *** The read primitives at a known place *)

Lemma from_ptr_add (buffer : ptr) (k p : Z) :
  from (ptr_add buffer k) p = from buffer (k + p).
Proof. unfold from, ptr_add. cbn [mem off]. now rewrite Z.add_assoc. Qed.

Lemma from_shift (buffer : ptr) (p : Z) (a r : bytes) :
  from buffer p = Some (a ++ r) -> from buffer (p + len a) = Some r.
Proof.
  unfold from. pose proof (len_nonneg a) as Ha.
  destruct ((0 <=? off buffer + p) && (off buffer + p <=? len (mem buffer))) eqn:E;
    [|discriminate].
  apply andb_true_iff in E. destruct E as [E1 E2].
  apply Z.leb_le in E1, E2. intros H. inversion H as [H'].
  assert (Hl : len (a ++ r) = len (mem buffer) - (off buffer + p)).
  { rewrite <- H'. unfold len in *. rewrite length_skipn. lia. }
  rewrite len_app in Hl. pose proof (len_nonneg r).
  replace ((0 <=? off buffer + (p + len a))
           && (off buffer + (p + len a) <=? len (mem buffer))) with true
    by (symmetry; apply andb_true_iff; split; apply Z.leb_le; lia).
  replace (Z.to_nat (off buffer + (p + len a)))
    with (length a + Z.to_nat (off buffer + p))%nat by (unfold len in *; lia).
  rewrite <- skipn_skipn, H'. now rewrite List.skipn_app_r.
Qed.

Lemma from_shift1 (buffer : ptr) (p : Z) (c : byte) (r : bytes) :
  from buffer p = Some (c :: r) -> from buffer (p + 1) = Some r.
Proof. intros H. apply (from_shift buffer p [c] r H). Qed.

Lemma peek_at (buffer : ptr) (p : Z) (c : byte) (r : bytes) :
  from buffer p = Some (c :: r) -> peek buffer p = Value c.
Proof. unfold peek. now intros ->. Qed.

Lemma read_bytes_at (buffer : ptr) (p : Z) (a r : bytes) :
  from buffer p = Some (a ++ r) -> read_bytes buffer p (len a) = Value a.
Proof.
  unfold read_bytes. intros ->. pose proof (len_nonneg a). pose proof (len_nonneg r).
  replace ((0 <=? len a) && (len a <=? len (a ++ r))) with true
    by (symmetry; apply andb_true_iff; split; apply Z.leb_le; rewrite ?len_app; lia).
  unfold len. rewrite Nat2Z.id. now rewrite List.firstn_app_l.
Qed.

Lemma STR_NEW_at (buffer : ptr) (p : Z) (a r : bytes) :
  from buffer p = Some (a ++ r) -> STR_NEW buffer p (len a) = Value a.
Proof.
  intros H. unfold STR_NEW. pose proof (len_nonneg a).
  replace (len a <? 0) with false by (symmetry; apply Z.ltb_ge; lia).
  now apply (read_bytes_at buffer p a r).
Qed.

Lemma read_int_at (buffer : ptr) (p n : Z) (r : bytes) :
  from buffer p = Some (le_split 4 n ++ r) ->
  - 2 ^ 31 <= n < 2 ^ 31 ->
  read_int buffer p = Value n.
Proof.
  intros H Hn. unfold read_int.
  change 4 with (Z.of_nat 4). rewrite <- (len_le_split 4 n).
  rewrite (read_bytes_at buffer p _ r H). cbn [bindd].
  f_equal. apply (read_le_split 4 n); [lia|exact Hn].
Qed.

Lemma read_long_long_at (buffer : ptr) (p n : Z) (r : bytes) :
  from buffer p = Some (le_split 8 n ++ r) ->
  - 2 ^ 63 <= n < 2 ^ 63 ->
  read_long_long buffer p = Value n.
Proof.
  intros H Hn. unfold read_long_long.
  change 8 with (Z.of_nat 8). rewrite <- (len_le_split 8 n).
  rewrite (read_bytes_at buffer p _ r H). cbn [bindd].
  f_equal. apply (read_le_split 8 n); [lia|exact Hn].
Qed.

Lemma c_string_at (buffer : ptr) (p : Z) (s r : bytes) :
  from buffer p = Some (s ++ x00 :: r) -> no_nul s -> c_string buffer p = Value s.
Proof.
  intros H Hs. unfold c_string. rewrite H.
  rewrite existsb_nul_app_nul. now rewrite c_str_app_nul.
Qed.

Lemma strcmp_eq_cstr (k r lit : bytes) :
  no_nul k -> no_nul lit -> strcmp_eq (k ++ x00 :: r) lit = Value (bytes_eqb k lit).
Proof.
  unfold no_nul. revert k. induction lit as [|l lit IH]; intros k Hk Hl.
  - destruct k as [|c k]; [reflexivity|]. cbn in Hk. apply orb_false_iff in Hk.
    destruct Hk as [Hk _]. cbn. now rewrite Hk.
  - cbn in Hl. apply orb_false_iff in Hl. destruct Hl as [Hl1 Hl2].
    destruct k as [|c k].
    + cbn. destruct (Byte.eqb x00 l) eqn:E; [|reflexivity].
      apply byte_dec_bl in E. subst. discriminate.
    + cbn in Hk. apply orb_false_iff in Hk. destruct Hk as [_ Hk].
      cbn. destruct (Byte.eqb c l); [now apply IH|reflexivity].
Qed.

Lemma rest_ok_cons (c : byte) (r : bytes) : c <> "$"%byte -> rest_ok (c :: r).
Proof. intros H. now exists c, r. Qed.

Lemma strcmp_ref_rest (rest : bytes) :
  rest_ok rest -> strcmp_eq rest (str "$ref") = Value false.
Proof.
  intros [c [r [-> Hc]]]. cbn.
  destruct (Byte.eqb c "$") eqn:E; [|reflexivity].
  apply byte_dec_bl in E. contradiction.
Qed.

(** *** Canonical documents *)

(** *** Leaves *)

Lemma element_intro (k : bytes) (v : VALUE) (t : byte) (payload e : bytes) :
  e = t :: k ++ x00 :: payload -> no_nul k -> t <> "$"%byte -> decodes t payload v ->
  element_of k v e.
Proof. intros. exists t, payload. auto. Qed.

Ltac elem_shape := unfold zero, one; cbn [app]; list_norm; cbn [app]; try reflexivity.

Ltac start_decode :=
  let Hf := fresh "Hf" in
  intros fuel buffer position rest Hf Hfrom Hrest;
  destruct fuel as [|fuel]; [cbn in Hf; lia|]; clear Hf.

Ltac pows :=
  change (2 ^ 31) with 2147483648 in *;
  change (2 ^ 63) with 9223372036854775808 in *;
  change (2 ^ 64) with 18446744073709551616 in *.

Section Leaves.

Variable env : platform.
Variable we : VALUE -> VALUE -> buffer_t -> bool -> bool -> VALUE * outcome.

Lemma integer_element (k : bytes) (n : Z) (ck : bool) (e : bytes) :
  snd (write_value env we k (RInteger n) [] ck) = Done e -> element_of k (RInteger n) e.
Proof.
  unfold write_value. cbn [snd]. rewrite !write_name_and_type_eq.
  destruct ((9223372036854775807 <? n) || (n <? -9223372036854775808)) eqn:E1;
    [discriminate|].
  apply orb_false_iff in E1. destruct E1 as [E1 E1']. apply Z.ltb_ge in E1, E1'.
  destruct (utf8_error env k true) eqn:Eu.
  { destruct ((2147483647 <? n) || (n <? -2147483648)); discriminate. }
  apply utf8_error_no_nul in Eu.
  destruct ((2147483647 <? n) || (n <? -2147483648)) eqn:E2;
    cbn [bindo SAFE_WRITE buffer_write]; intros H; inversion H.
  - apply (element_intro k _ x12 (le_split 8 n)); [elem_shape|exact Eu|discriminate|].
    start_decode. change (char_to_int x12) with 18. cbn [get_value].
    rewrite (read_long_long_at buffer position n rest) by (try assumption; pows; lia).
    cbn [bindd]. now len_simpl.
  - apply orb_false_iff in E2. destruct E2 as [E2 E2']. apply Z.ltb_ge in E2, E2'.
    apply (element_intro k _ x10 (le_split 4 n)); [elem_shape|exact Eu|discriminate|].
    start_decode. change (char_to_int x10) with 16. cbn [get_value].
    rewrite (read_int_at buffer position n rest) by (try assumption; pows; lia).
    cbn [bindd]. now len_simpl.
Qed.

Lemma bool_nil_element (k : bytes) (v : VALUE) (ck : bool) (e : bytes) :
  match v with RTrue | RFalse | RNil | RMaxKey | RMinKey => True | _ => False end ->
  snd (write_value env we k v [] ck) = Done e -> element_of k v e.
Proof.
  intros Hv. unfold write_value.
  destruct v; try contradiction; cbn [snd]; rewrite !write_name_and_type_eq;
    (destruct (utf8_error env k true) eqn:Eu; [discriminate|]);
    apply utf8_error_no_nul in Eu;
    cbn [bindo SAFE_WRITE buffer_write]; intros H; inversion H.
  - apply (element_intro k _ x08 one); [elem_shape|exact Eu|discriminate|].
    start_decode. change (char_to_int x08) with 8. cbn [get_value].
    unfold one in *. rewrite (peek_at buffer position x01 rest) by assumption.
    cbn [bindd]. reflexivity.
  - apply (element_intro k _ x08 zero); [elem_shape|exact Eu|discriminate|].
    start_decode. change (char_to_int x08) with 8. cbn [get_value].
    unfold zero in *. rewrite (peek_at buffer position x00 rest) by assumption.
    cbn [bindd]. reflexivity.
  - apply (element_intro k _ x0a []); [elem_shape|exact Eu|discriminate|].
    start_decode. change (char_to_int x0a) with 10. cbn [get_value].
    now rewrite len_nil, Z.add_0_r.
  - apply (element_intro k _ x7f []); [elem_shape|exact Eu|discriminate|].
    start_decode. change (char_to_int x7f) with 127. cbn [get_value].
    now rewrite len_nil, Z.add_0_r.
  - apply (element_intro k _ xff []); [elem_shape|exact Eu|discriminate|].
    start_decode. change (char_to_int xff) with (-1). cbn [get_value].
    now rewrite len_nil, Z.add_0_r.
Qed.

Lemma float_element (k : bytes) (d : Z) (ck : bool) (e : bytes) :
  canonical env (RFloat d) = true ->
  snd (write_value env we k (RFloat d) [] ck) = Done e -> element_of k (RFloat d) e.
Proof.
  cbn [canonical]. intros Hc. apply andb_true_iff in Hc. destruct Hc as [H1 H2].
  apply Z.leb_le in H1. apply Z.ltb_lt in H2.
  unfold write_value. cbn [snd]. rewrite !write_name_and_type_eq.
  destruct (utf8_error env k true) eqn:Eu; [discriminate|].
  apply utf8_error_no_nul in Eu.
  cbn [bindo SAFE_WRITE buffer_write]. intros H. inversion H.
  apply (element_intro k _ x01 (le_split 8 d)); [elem_shape|exact Eu|discriminate|].
  start_decode. change (char_to_int x01) with 1. cbn [get_value].
  change 8 with (Z.of_nat 8) at 1. rewrite <- (len_le_split 8 d) at 1.
  rewrite (read_bytes_at buffer position _ rest) by assumption.
  cbn [bindd]. rewrite le_combine_split.
  rewrite Z.mod_small by (change (2 ^ (Z.of_nat 8 * 8)) with (2 ^ 64); lia).
  now len_simpl.
Qed.

Lemma llround_cast_range (x : spec_float) : - 2 ^ 63 <= llround_cast x < 2 ^ 63.
Proof.
  unfold llround_cast. pows. destruct x as [s|s| |s m e]; try lia.
  match goal with
  | |- context [if ?c then _ else _] => destruct c eqn:E
  end; [|lia].
  apply andb_true_iff in E. destruct E as [E1 E2].
  apply Z.leb_le in E1. apply Z.ltb_lt in E2. lia.
Qed.

Lemma time_element (k : bytes) (ms : Z) (ck : bool) (e : bytes) :
  canonical env (RTime ms) = true ->
  snd (write_value env we k (RTime ms) [] ck) = Done e -> element_of k (RTime ms) e.
Proof.
  cbn [canonical]. intros Hc. apply Z.eqb_eq in Hc.
  assert (H12 : - 2 ^ 63 <= ms < 2 ^ 63).
  { rewrite <- Hc. unfold time_since_epoch. apply llround_cast_range. }
  destruct H12 as [H1 H2].
  unfold write_value. cbn [snd]. rewrite Hc. rewrite !write_name_and_type_eq.
  destruct (utf8_error env k true) eqn:Eu; [discriminate|].
  apply utf8_error_no_nul in Eu.
  cbn [bindo SAFE_WRITE buffer_write]. intros H. inversion H.
  apply (element_intro k _ x09 (le_split 8 ms)); [elem_shape|exact Eu|discriminate|].
  start_decode. change (char_to_int x09) with 9. cbn [get_value].
  rewrite (read_long_long_at buffer position ms rest) by (try assumption; lia).
  cbn [bindd]. len_simpl.
  replace (Time_at (ms ÷ 1000) (Z.rem ms 1000 * 1000)) with ms; [reflexivity|].
  unfold Time_at. rewrite Z.div_mul by lia.
  pose proof (Z.quot_rem' ms 1000). lia.
Qed.

Lemma string_element (k s : bytes) (ck : bool) (e : bytes) :
  snd (write_value env we k (RString s) [] ck) = Done e ->
  len e < 2 ^ 31 ->
  element_of k (RString s) e.
Proof.
  unfold write_value. cbn [snd]. rewrite !write_name_and_type_eq.
  destruct (utf8_error env k true) eqn:Eu; [discriminate|].
  apply utf8_error_no_nul in Eu.
  cbn [bindo SAFE_WRITE buffer_write]. rewrite write_utf8_eq.
  destruct (utf8_error env s false); [discriminate|].
  cbn [bindo SAFE_WRITE buffer_write]. intros H Hlen. inversion H. subst e.
  apply (element_intro k _ x02 (le_split 4 (len s + 1) ++ s ++ zero));
    [elem_shape|exact Eu|discriminate|].
  start_decode. change (char_to_int x02) with 2. cbn [get_value].
  revert Hlen. len_simpl. unfold zero in *. len_simpl. intros Hlen.
  pose proof (len_nonneg s). pose proof (len_nonneg k).
  rewrite <- app_assoc in *.
  rewrite (read_int_at buffer position (len s + 1) _ Hfrom) by (pows; lia).
  cbn [bindd]. replace (len s + 1 - 1) with (len s) by lia.
  apply from_shift in Hfrom. rewrite len_le_split_4 in Hfrom. rewrite <- ?app_assoc in Hfrom.
  rewrite (STR_NEW_at buffer _ s _ Hfrom). cbn [bindd].
  f_equal. f_equal. lia.
Qed.

Lemma symbol_element (k name : bytes) (ck : bool) (e : bytes) :
  canonical env (RSymbol name) = true ->
  snd (write_value env we k (RSymbol name) [] ck) = Done e ->
  len e < 2 ^ 31 ->
  element_of k (RSymbol name) e.
Proof.
  cbn [canonical]. intros Hc. apply negb_true_iff in Hc.
  unfold write_value. cbn [snd]. rewrite !write_name_and_type_eq.
  rewrite (c_str_no_nul name Hc).
  destruct (utf8_error env k true) eqn:Eu; [discriminate|].
  apply utf8_error_no_nul in Eu.
  cbn [bindo SAFE_WRITE buffer_write]. intros H Hlen. inversion H. subst e.
  apply (element_intro k _ x0e (le_split 4 (len name + 1) ++ name ++ zero));
    [elem_shape|exact Eu|discriminate|].
  start_decode. change (char_to_int x0e) with 14. cbn [get_value].
  revert Hlen. len_simpl. unfold zero in *. len_simpl. intros Hlen.
  pose proof (len_nonneg name). pose proof (len_nonneg k).
  rewrite <- app_assoc in *.
  rewrite (read_int_at buffer position (len name + 1) _ Hfrom) by (pows; lia).
  cbn [bindd].
  apply from_shift in Hfrom. rewrite len_le_split_4 in Hfrom.
  rewrite <- ?app_assoc in Hfrom. cbn [app] in Hfrom.
  rewrite (c_string_at buffer _ name _ Hfrom Hc). cbn [bindd].
  f_equal. f_equal. lia.
Qed.

Lemma from_skip (buffer : ptr) (p q : Z) (a r : bytes) :
  from buffer p = Some (a ++ r) -> q = p + len a -> from buffer q = Some r.
Proof. intros H ->. now apply (from_shift buffer p a r). Qed.

Lemma of_Z_eqb_2 (st : Z) :
  0 <= st < 256 -> Byte.eqb (byte.of_Z st) x02 = (st =? 2).
Proof.
  intros H. destruct (Byte.eqb (byte.of_Z st) x02) eqn:E.
  - apply byte_dec_bl in E. apply (f_equal byte.unsigned) in E.
    rewrite byte.unsigned_of_Z in E. unfold byte.wrap in E.
    rewrite Z.mod_small in E by (change (2 ^ 8) with 256; lia).
    subst. reflexivity.
  - destruct (st =? 2) eqn:E'; [|reflexivity].
    apply Z.eqb_eq in E'. subst. discriminate.
Qed.

Lemma unsigned_of_Z_small (st : Z) : 0 <= st < 256 -> byte.unsigned (byte.of_Z st) = st.
Proof.
  intros H. rewrite byte.unsigned_of_Z. unfold byte.wrap.
  apply Z.mod_small. change (2 ^ 8) with 256. lia.
Qed.

Lemma FIX2INT_fits (x : Z) : -2147483648 <= x <= 2147483647 -> FIX2INT x = Some x.
Proof.
  intros H. unfold FIX2INT.
  now rewrite (proj2 (andb_true_iff _ _)) by (split; apply Z.leb_le; lia).
Qed.

Lemma binary_element (k : bytes) (st : Z) (data : bytes) (ck : bool) (e : bytes) :
  canonical env (RBinary st data) = true ->
  snd (write_value env we k (RBinary st data) [] ck) = Done e ->
  len e < 2 ^ 31 ->
  element_of k (RBinary st data) e.
Proof.
  cbn [canonical]. intros Hc. apply andb_true_iff in Hc. destruct Hc as [H1 H2].
  apply Z.leb_le in H1. apply Z.ltb_lt in H2.
  unfold write_value. cbn [snd]. rewrite (FIX2INT_fits st) by lia. cbv zeta.
  rewrite !write_name_and_type_eq.
  destruct (utf8_error env k true) eqn:Eu; [discriminate|].
  apply utf8_error_no_nul in Eu.
  rewrite (of_Z_eqb_2 st) by lia.
  pose proof (len_nonneg data). pose proof (len_nonneg k).
  destruct (st =? 2) eqn:E2; cbn [bindo SAFE_WRITE buffer_write]; intros Hw Hlen;
    inversion Hw; subst e.
  - apply Z.eqb_eq in E2. subst st.
    apply (element_intro k _ x05
             (le_split 4 (len data + 4) ++ [x02] ++ le_split 4 (len data) ++ data));
      [change (byte.of_Z 2) with x02; elem_shape|exact Eu|discriminate|].
    start_decode. change (char_to_int x05) with 5. cbn [get_value].
    revert Hlen. change (byte.of_Z 2) with x02. unfold zero. len_simpl. intros Hlen.
    rewrite <- !app_assoc in *.
    rewrite (read_int_at buffer position (len data + 4) _ Hfrom) by (pows; lia).
    cbn [bindd].
    assert (Hp : from buffer (position + 4)
                 = Some (x02 :: le_split 4 (len data) ++ data ++ rest)).
    { apply (from_skip buffer position _ (le_split 4 (len data + 4)) _ Hfrom).
      now len_simpl. }
    rewrite (peek_at buffer _ _ _ Hp). cbn [bindd].
    change (byte.unsigned x02 =? 2) with true. cbv iota.
    assert (Hd : from buffer (position + 9) = Some (data ++ rest)).
    { apply (from_skip buffer (position + 4) _ (x02 :: le_split 4 (len data)) _).
      - cbn [app]. exact Hp.
      - len_simpl. lia. }
    replace (len data + 4 - 4) with (len data) by lia.
    rewrite (STR_NEW_at buffer _ data _ Hd). cbn [bindd].
    f_equal. f_equal. cbn [app]. len_simpl. lia.
  - apply Z.eqb_neq in E2.
    apply (element_intro k _ x05
             (le_split 4 (len data) ++ [byte.of_Z st] ++ data));
      [elem_shape|exact Eu|discriminate|].
    start_decode. change (char_to_int x05) with 5. cbn [get_value].
    revert Hlen. unfold zero. len_simpl. intros Hlen.
    rewrite <- !app_assoc in *.
    rewrite (read_int_at buffer position (len data) _ Hfrom) by (pows; lia).
    cbn [bindd].
    assert (Hp : from buffer (position + 4) = Some (byte.of_Z st :: data ++ rest)).
    { apply (from_skip buffer position _ (le_split 4 (len data)) _ Hfrom).
      now len_simpl. }
    rewrite (peek_at buffer _ _ _ Hp). cbn [bindd].
    rewrite (unsigned_of_Z_small st) by lia.
    replace (st =? 2) with false by (symmetry; now apply Z.eqb_neq).
    assert (Hd : from buffer (position + 5) = Some (data ++ rest)).
    { apply (from_skip buffer (position + 4) _ [byte.of_Z st] _).
      - cbn [app]. exact Hp.
      - len_simpl. lia. }
    rewrite (STR_NEW_at buffer _ data _ Hd). cbn [bindd].
    f_equal. f_equal. cbn [app]. len_simpl. lia.
Qed.

Lemma objectid_loop_fits (as_array : list Z) (indices : list nat) :
  (forall i, In i indices -> -2147483648 <= nth i as_array 0 <= 2147483647) ->
  forall b,
    objectid_loop as_array indices b
    = Done (b ++ map (fun i => byte.of_Z (nth i as_array 0)) indices).
Proof.
  induction indices as [|i rest IH]; intros H b; cbn [objectid_loop map].
  - now rewrite app_nil_r.
  - rewrite FIX2INT_fits by (apply H; now left).
    cbn [bindo SAFE_WRITE buffer_write].
    rewrite IH by (intros j Hj; apply H; now right).
    now rewrite <- app_assoc.
Qed.

Lemma objectid_roundtrip (data : list Z) :
  length data = 12%nat ->
  forallb (fun x => (0 <=? x) && (x <? 256)) data = true ->
  (forall b, objectid_loop data (seq 0 12) b = Done (b ++ fast_pack data))
  /\ unpack_C (fast_pack data) = data /\ len (fast_pack data) = 12.
Proof.
  intros Hl Hr.
  assert (Hm : forall l, forallb (fun x => (0 <=? x) && (x <? 256)) l = true ->
                         map byte.unsigned (map byte.of_Z l) = l).
  { induction l as [|x l IH]; [reflexivity|]. cbn [forallb map]. intros Hx.
    apply andb_true_iff in Hx. destruct Hx as [Hx1 Hx2].
    apply andb_true_iff in Hx1. destruct Hx1 as [Ha Hb].
    apply Z.leb_le in Ha. apply Z.ltb_lt in Hb.
    rewrite (IH Hx2). now rewrite unsigned_of_Z_small by lia. }
  assert (Hf : forall i, -2147483648 <= nth i data 0 <= 2147483647).
  { intros i. destruct (nth_in_or_default i data 0) as [Hin| ->]; [|lia].
    rewrite forallb_forall in Hr. specialize (Hr _ Hin).
    apply andb_true_iff in Hr. destruct Hr as [Ha Hb].
    apply Z.leb_le in Ha. apply Z.ltb_lt in Hb. lia. }
  assert (He : map (fun i => byte.of_Z (nth i data 0)) (seq 0 12) = fast_pack data).
  { unfold fast_pack.
    do 13 (destruct data as [|? data]; try discriminate Hl). reflexivity. }
  split; [|split].
  - intros b. rewrite objectid_loop_fits by (intros i _; apply Hf). now rewrite He.
  - unfold unpack_C, fast_pack. now apply Hm.
  - unfold len, fast_pack. now rewrite length_map, Hl.
Qed.

Lemma objectid_element (k : bytes) (data : list Z) (ck : bool) (e : bytes) :
  canonical env (RObjectID data) = true ->
  snd (write_value env we k (RObjectID data) [] ck) = Done e ->
  element_of k (RObjectID data) e.
Proof.
  cbn [canonical]. intros Hc. apply andb_true_iff in Hc. destruct Hc as [H1 H2].
  apply Nat.eqb_eq in H1. destruct (objectid_roundtrip data H1 H2) as [Hw [Hu Hl]].
  unfold write_value. cbn [snd]. rewrite !write_name_and_type_eq.
  destruct (utf8_error env k true) eqn:Eu; [discriminate|].
  apply utf8_error_no_nul in Eu.
  cbn [bindo]. rewrite Hw. intros H. inversion H.
  apply (element_intro k _ x07 (fast_pack data)); [elem_shape|exact Eu|discriminate|].
  start_decode. change (char_to_int x07) with 7. cbn [get_value].
  rewrite <- Hl at 1.
  rewrite (read_bytes_at buffer position _ rest) by assumption.
  cbn [bindd]. now rewrite Hu, Hl.
Qed.

Lemma regexp_written (k pattern : bytes) (options : Z) (extra : option bytes)
    (ck : bool) (e : bytes) :
  snd (write_value env we k (RRegexp pattern options extra) [] ck) = Done e ->
  no_nul k /\ no_nul pattern
  /\ e = x0b :: k ++ x00 :: pattern ++ x00 :: imx_flags options ++ sorted_extra extra ++ [x00].
Proof.
  unfold write_value. cbn [snd]. rewrite !write_name_and_type_eq.
  destruct (utf8_error env k true) eqn:Eu; [discriminate|].
  apply utf8_error_no_nul in Eu.
  cbn [bindo SAFE_WRITE buffer_write]. rewrite write_utf8_eq.
  destruct (utf8_error env pattern true) eqn:Ep; [discriminate|].
  apply utf8_error_no_nul in Ep.
  cbn [bindo SAFE_WRITE buffer_write].
  unfold imx_flags, sorted_extra.
  destruct (flag_set options IGNORECASE), (flag_set options MULTILINE),
    (flag_set options EXTENDED); cbn [bindo SAFE_WRITE buffer_write];
    (destruct extra as [x|]; cbn [bindo SAFE_WRITE buffer_write];
     [unfold buffer_get_position; rewrite qsort_at_end|]);
    cbn [bindo SAFE_WRITE buffer_write]; intros H; inversion H;
    (split; [exact Eu|]); (split; [exact Ep|]); elem_shape.
Qed.

Lemma regex_flags_extra (X : bytes) (flags : Z) (acc : bytes) :
  forallb (fun c => negb (is_nul c || Byte.eqb c "i" || Byte.eqb c "m" || Byte.eqb c "x")) X
  = true ->
  len acc + len X <= 9 ->
  regex_flags X flags acc = (flags, acc ++ X).
Proof.
  revert acc. induction X as [|c X IH]; intros acc HX Hl.
  - cbn. now rewrite app_nil_r.
  - cbn [forallb] in HX. apply andb_true_iff in HX. destruct HX as [Hc HX].
    apply negb_true_iff in Hc. apply orb_false_iff in Hc. destruct Hc as [Hc Hx].
    apply orb_false_iff in Hc. destruct Hc as [Hc Hm].
    apply orb_false_iff in Hc. destruct Hc as [Hn Hi].
    cbn [regex_flags]. rewrite Hi, Hm, Hx.
    rewrite len_cons in Hl. pose proof (len_nonneg X).
    replace (len acc <? 9) with true by (symmetry; apply Z.ltb_lt; lia).
    rewrite IH; [now rewrite <- app_assoc|exact HX|].
    rewrite len_app, len_cons, len_nil. lia.
Qed.

Lemma regex_flags_imx (options : Z) (X : bytes) :
  0 <= options <= 7 ->
  forallb (fun c => negb (is_nul c || Byte.eqb c "i" || Byte.eqb c "m" || Byte.eqb c "x")) X
  = true ->
  len X <= 9 ->
  regex_flags (imx_flags options ++ X) 0 [] = (options, X)
  /\ no_nul (imx_flags options ++ X).
Proof.
  intros Ho HX Hl.
  assert (Hn : no_nul X).
  { unfold no_nul. clear Hl. induction X as [|c X IH]; [reflexivity|].
    cbn [forallb] in HX. apply andb_true_iff in HX. destruct HX as [Hc HX].
    apply negb_true_iff in Hc. apply orb_false_iff in Hc. destruct Hc as [Hc _].
    apply orb_false_iff in Hc. destruct Hc as [Hc _].
    apply orb_false_iff in Hc. destruct Hc as [Hc _].
    cbn [existsb]. now rewrite Hc, IH. }
  assert (Hcases : options = 0 \/ options = 1 \/ options = 2 \/ options = 3
                   \/ options = 4 \/ options = 5 \/ options = 6 \/ options = 7) by lia.
  unfold no_nul in *.
  destruct Hcases as [->|[->|[->|[->|[->|[->|[->| ->]]]]]]];
    (split; [apply (regex_flags_extra X _ [] HX); rewrite len_nil; lia
            |rewrite existsb_app, Hn; reflexivity]).
Qed.

Lemma regexp_element (k pattern : bytes) (options : Z) (extra : option bytes)
    (ck : bool) (e : bytes) :
  canonical env (RRegexp pattern options extra) = true ->
  snd (write_value env we k (RRegexp pattern options extra) [] ck) = Done e ->
  element_of k (RRegexp pattern options extra) e.
Proof.
  cbn [canonical]. intros Hc Hw.
  apply andb_true_iff in Hc. destruct Hc as [Hc He].
  apply andb_true_iff in Hc. destruct Hc as [H1 H2].
  apply Z.leb_le in H1, H2.
  apply regexp_written in Hw. destruct Hw as [Hk [Hp ->]].
  assert (HX : forallb (fun c => negb (is_nul c || Byte.eqb c "i" || Byte.eqb c "m"
                                       || Byte.eqb c "x")) (sorted_extra extra) = true
               /\ len (sorted_extra extra) <= 9
               /\ match sorted_extra extra with
                  | [] => RRegexp pattern options None
                  | _ => RRegexp pattern options (Some (sorted_extra extra))
                  end = RRegexp pattern options extra).
  { destruct extra as [x|]; cbn [sorted_extra]; [|repeat split; cbn; lia].
    unfold extra_ok in He.
    apply andb_true_iff in He. destruct He as [He Hs].
    apply andb_true_iff in He. destruct He as [He Hf].
    apply andb_true_iff in He. destruct He as [Hl1 Hl2].
    apply bytes_eqb_eq in Hs. rewrite Hs.
    apply Z.leb_le in Hl1, Hl2. repeat split; try assumption.
    destruct x; [cbn in Hl1; lia|reflexivity]. }
  destruct HX as [HX [HL HR]].
  destruct (regex_flags_imx options (sorted_extra extra) (conj H1 H2) HX HL) as [Hrf Hnn].
  apply (element_intro k _ x0b
           (pattern ++ x00 :: (imx_flags options ++ sorted_extra extra) ++ [x00]));
    [now rewrite <- app_assoc|exact Hk|discriminate|].
  start_decode. change (char_to_int x0b) with 11. cbn [get_value].
  list_norm in Hfrom.
  rewrite (c_string_at buffer position pattern _ Hfrom Hp). cbn [bindd].
  assert (Hq : from buffer (position + (len pattern + 1))
               = Some ((imx_flags options ++ sorted_extra extra) ++ x00 :: rest)).
  { apply (from_skip buffer position _ (pattern ++ [x00]) _).
    - list_norm. cbn [app]. exact Hfrom.
    - now len_simpl. }
  rewrite (c_string_at buffer _ _ _ Hq Hnn). cbn [bindd].
  rewrite Hrf. rewrite HR. f_equal. f_equal. len_simpl. lia.
Qed.

End Leaves.

(** *** The loops of the reader *)

Lemma has_key_app (h h' : entries_t) (key : VALUE) :
  has_key (h ++ h') key = has_key h key || has_key h' key.
Proof. unfold has_key. apply existsb_app. Qed.

Lemma hash_aset_new (hash : entries_t) (name value : VALUE) :
  has_key hash name = false -> hash_aset hash name value = hash ++ [(name, value)].
Proof.
  unfold has_key. induction hash as [|[k v] rest IH]; [reflexivity|].
  cbn. intros H. apply orb_false_iff in H. destruct H as [H1 H2].
  rewrite H1. now rewrite IH.
Qed.

Lemma key_eql_string_sym (a b : bytes) :
  key_eql (RString a) (RString b) = key_eql (RString b) (RString a).
Proof.
  cbn. destruct (bytes_eqb a b) eqn:E.
  - apply bytes_eqb_eq in E. subst. now rewrite bytes_eqb_refl.
  - destruct (bytes_eqb b a) eqn:E'; [|reflexivity].
    apply bytes_eqb_eq in E'. subst. now rewrite bytes_eqb_refl in E.
Qed.

Lemma has_key_In (h : entries_t) (key : VALUE) (p : VALUE * VALUE) :
  has_key h key = false -> In p h -> key_eql (fst p) key = false.
Proof.
  unfold has_key. induction h as [|q rest IH]; [contradiction|].
  cbn. intros H. apply orb_false_iff in H. destruct H as [H1 H2].
  intros [->|Hin]; [exact H1|now apply IH].
Qed.

Lemma element_nonempty (k : bytes) (v : VALUE) (part : bytes) :
  element_of k v part -> 1 <= len part.
Proof.
  intros [t [payload [-> _]]]. rewrite len_cons.
  pose proof (len_nonneg (k ++ x00 :: payload)). lia.
Qed.

Lemma rest_ok_parts (parts : list bytes) (h : entries_t) (rest0 : bytes) :
  Forall2 pair_element h parts -> rest_ok (concat parts ++ x00 :: rest0).
Proof.
  intros HF. destruct HF as [|p part h' parts' Hp _].
  - apply rest_ok_cons. discriminate.
  - destruct Hp as [k [_ [t [payload [-> [_ [Ht _]]]]]]].
    cbn [concat app]. now apply rest_ok_cons.
Qed.

Lemma elements_loop_reads (h : entries_t) (parts : list bytes) :
  Forall2 pair_element h parts ->
  forall fuel buffer position acc rest0,
    (entries_dsize h <= fuel)%nat ->
    from buffer position = Some (concat parts ++ x00 :: rest0) ->
    (forall p, In p h -> has_key acc (fst p) = false) ->
    distinct_keys h = true ->
    elements_loop fuel buffer (position + len (concat parts)) position acc
    = Value (acc ++ h).
Proof.
  induction 1 as [|p part h parts Hp HF IH];
    intros fuel buffer position acc rest0 Hfuel Hfrom Hacc Hd.
  - unfold entries_dsize in Hfuel. cbn [fold_right] in Hfuel.
    destruct fuel as [|fuel]; [lia|]. cbn [elements_loop concat].
    rewrite len_nil, Z.add_0_r, Z.ltb_irrefl. now rewrite app_nil_r.
  - pose proof (rest_ok_parts parts h rest0 HF) as Hrest.
    destruct p as [key v]. destruct Hp as [k [Hk [t [payload [-> [Hnn [Ht Hdec]]]]]]].
    cbn [fst snd] in *. subst key.
    unfold entries_dsize in Hfuel. cbn [fold_right snd] in Hfuel.
    destruct fuel as [|fuel]; [lia|].
    cbn [elements_loop concat].
    pose proof (len_nonneg (concat parts)). pose proof (len_nonneg k).
    pose proof (len_nonneg payload).
    replace (position <? position + len ((t :: k ++ x00 :: payload) ++ concat parts))
      with true by (symmetry; apply Z.ltb_lt; len_simpl; lia).
    cbn [concat] in Hfrom. list_norm in Hfrom.
    rewrite (peek_at buffer position t _ Hfrom). cbn [bindd].
    pose proof (from_shift1 _ _ _ _ Hfrom) as Hfrom1.
    rewrite (c_string_at buffer _ k _ Hfrom1 Hnn). cbn [bindd].
    assert (Hfrom2 : from buffer (position + 1 + (len k + 1))
                     = Some (payload ++ concat parts ++ x00 :: rest0)).
    { apply (from_skip buffer (position + 1) _ (k ++ [x00]) _).
      - list_norm. cbn [app]. exact Hfrom1.
      - now len_simpl. }
    rewrite (Hdec fuel buffer _ _ ltac:(lia) Hfrom2 Hrest). cbn [bindd fst snd].
    cbn [distinct_keys] in Hd. apply andb_true_iff in Hd. destruct Hd as [Hd1 Hd2].
    apply negb_true_iff in Hd1.
    rewrite hash_aset_new by (apply (Hacc (RString k, v)); now left).
    replace (position + len ((t :: k ++ x00 :: payload) ++ concat parts))
      with ((position + 1 + (len k + 1) + len payload) + len (concat parts))
      by (len_simpl; lia).
    rewrite (IH fuel buffer _ (acc ++ [(RString k, v)]) rest0).
    + now rewrite <- app_assoc.
    + unfold entries_dsize. lia.
    + apply (from_skip buffer _ _ payload _ Hfrom2). reflexivity.
    + intros p Hin. rewrite has_key_app.
      rewrite (Hacc p (or_intror Hin)). cbn [orb].
      unfold has_key. cbn [existsb fst]. rewrite orb_false_r.
      pose proof (has_key_In h (RString k) p Hd1 Hin) as Hne.
      destruct HF as [|]; [contradiction|].
      clear -Hne Hin IH HF H2. revert Hne.
      assert (Hs : exists kp, fst p = RString kp).
      { destruct Hin as [<-|Hin].
        - destruct H2 as [kp [Hkp _]]. eauto.
        - clear -HF Hin. induction HF as [|q part' l l' Hq HF' IHl]; [contradiction|].
          destruct Hin as [<-|Hin]; [destruct Hq as [kp [Hkp _]]; eauto|now apply IHl]. }
      destruct Hs as [kp ->]. now rewrite key_eql_string_sym.
    + exact Hd2.
Qed.

Lemma array_loop_reads (items : list VALUE) (parts : list bytes) :
  Forall2 item_element items parts ->
  forall fuel buffer position acc rest0,
    (items_dsize items <= fuel)%nat ->
    from buffer position = Some (concat parts ++ x00 :: rest0) ->
    array_loop fuel buffer (position + len (concat parts)) position acc
    = Value (acc ++ items, position + len (concat parts)).
Proof.
  induction 1 as [|v part items parts Hp HF IH];
    intros fuel buffer position acc rest0 Hfuel Hfrom.
  - unfold items_dsize in Hfuel. cbn [fold_right] in Hfuel.
    destruct fuel as [|fuel]; [lia|]. cbn [array_loop concat].
    rewrite len_nil, Z.add_0_r, Z.ltb_irrefl. now rewrite app_nil_r.
  - assert (Hrest : rest_ok (concat parts ++ x00 :: rest0)).
    { destruct HF as [|v' part' ? ? [k' [t' [payload' [-> [_ [Ht' _]]]]]] _].
      - apply rest_ok_cons. discriminate.
      - cbn [concat app]. now apply rest_ok_cons. }
    destruct Hp as [k [t [payload [-> [Hnn [Ht Hdec]]]]]].
    unfold items_dsize in Hfuel. cbn [fold_right] in Hfuel.
    destruct fuel as [|fuel]; [lia|].
    cbn [array_loop concat].
    pose proof (len_nonneg (concat parts)). pose proof (len_nonneg k).
    pose proof (len_nonneg payload).
    replace (position <? position + len ((t :: k ++ x00 :: payload) ++ concat parts))
      with true by (symmetry; apply Z.ltb_lt; len_simpl; lia).
    cbn [concat] in Hfrom. list_norm in Hfrom.
    rewrite (peek_at buffer position t _ Hfrom). cbn [bindd].
    pose proof (from_shift1 _ _ _ _ Hfrom) as Hfrom1.
    rewrite (c_string_at buffer _ k _ Hfrom1 Hnn). cbn [bindd].
    assert (Hfrom2 : from buffer (position + 1 + (len k + 1))
                     = Some (payload ++ concat parts ++ x00 :: rest0)).
    { apply (from_skip buffer (position + 1) _ (k ++ [x00]) _).
      - list_norm. exact Hfrom1.
      - now len_simpl. }
    rewrite (Hdec fuel buffer _ _ ltac:(lia) Hfrom2 Hrest). cbn [bindd fst snd].
    replace (position + len ((t :: k ++ x00 :: payload) ++ concat parts))
      with ((position + 1 + (len k + 1) + len payload) + len (concat parts))
      by (len_simpl; lia).
    rewrite (IH fuel buffer _ (acc ++ [v]) rest0).
    + now rewrite <- app_assoc.
    + unfold items_dsize. lia.
    + apply (from_skip buffer _ _ payload _ Hfrom2). reflexivity.
Qed.

Lemma len_concat_part (parts : list bytes) (part : bytes) :
  In part parts -> len part <= len (concat parts).
Proof.
  induction parts as [|q parts IH]; [contradiction|].
  cbn [concat]. rewrite len_app. pose proof (len_nonneg q).
  pose proof (len_nonneg (concat parts)).
  intros [->|Hin]; [lia|]. specialize (IH Hin). lia.
Qed.

Lemma string_keys_no_sym (h : entries_t) :
  forallb (fun e => is_string_key (fst e)) h = true -> has_key h id_sym = false.
Proof.
  unfold has_key. induction h as [|[k v] rest IH]; [reflexivity|].
  cbn [forallb existsb fst]. intros H. apply andb_true_iff in H. destruct H as [H1 H2].
  rewrite (IH H2), orb_false_r. destruct k; try discriminate. reflexivity.
Qed.

(** *** Containers *)

Section RoundTrip.

Variable env : platform.
Variable fuel : nat.

Local Abbreviation W := (write_element_allow_id env fuel).

Hypothesis IHW : forall key k v ck a e,
  canonical env v = true ->
  key_string key = Some k ->
  negb a && id_like key = false ->
  snd (W key v [] ck a) = Done e ->
  len e < 2 ^ 31 ->
  element_of k v e.

Lemma pairs_elements (ck : bool) (h : entries_t) (parts : list bytes) :
  Forall2 (fun p part => snd (W (fst p) (snd p) [] ck true) = Done part) h parts ->
  forallb (fun e => is_string_key (fst e)) h = true ->
  forallb (fun e => canonical env (snd e)) h = true ->
  len (concat parts) < 2 ^ 31 ->
  Forall2 pair_element h parts.
Proof.
  induction 1 as [|[key v] part h parts Hp HF IH]; intros Hs Hc Hl; [constructor|].
  cbn [forallb fst snd] in *.
  apply andb_true_iff in Hs. destruct Hs as [Hs1 Hs2].
  apply andb_true_iff in Hc. destruct Hc as [Hc1 Hc2].
  cbn [concat] in Hl. rewrite len_app in Hl.
  pose proof (len_nonneg part). pose proof (len_nonneg (concat parts)).
  constructor; [|apply IH; try assumption; lia].
  destruct key; try discriminate. exists s. split; [reflexivity|].
  apply (IHW (RString s) s v ck true part); try assumption; try reflexivity. cbn [snd]. lia.
Qed.

Lemma doc_written (ck : bool) (h h' : entries_t) (d : bytes) :
  string_keys h = true ->
  forallb (fun e => canonical env (snd e)) h = true ->
  write_doc env fuel [] OrderedHash h ck false = (h', Done d) ->
  len d < 2 ^ 31 ->
  exists parts,
    d = le_split 4 (len (concat parts) + 5) ++ concat parts ++ [x00]
    /\ len (concat parts) + 5 < 2 ^ 31
    /\ Forall2 pair_element h parts
    /\ distinct_keys h = true.
Proof.
  unfold string_keys. intros Hs Hc Hw Hl.
  apply andb_true_iff in Hs. destruct Hs as [Hs Hd].
  apply write_doc_in_order in Hw.
  - destruct Hw as [parts [HF ->]]. exists parts.
    rewrite ?app_nil_l in Hl. revert Hl. len_simpl. intros Hl.
    pose proof (len_nonneg (concat parts)).
    split; [reflexivity|]. split; [lia|]. split; [|exact Hd].
    apply (pairs_elements ck); try assumption. lia.
  - unfold id_clash. rewrite (string_keys_no_sym h Hs). apply andb_false_r.
Qed.

Lemma first_key_not_ref (h : entries_t) (parts : list bytes) (rest : bytes) :
  Forall2 pair_element h parts ->
  ref_first h = false ->
  rest_ok rest ->
  strcmp_eq (skipn 1 (concat parts ++ x00 :: rest)) (str "$ref") = Value false.
Proof.
  intros HF Hr Hrest. destruct HF as [|[key v] part h parts Hp HF].
  - cbn. now apply strcmp_ref_rest.
  - destruct Hp as [k [Hk [t [payload [-> [Hnn _]]]]]]. cbn [fst] in Hk. subst key.
    cbn [concat app skipn]. list_norm.
    rewrite strcmp_eq_cstr; [|exact Hnn|reflexivity].
    cbn [ref_first] in Hr. now rewrite Hr.
Qed.

Lemma hash_element (k : bytes) (klass : hash_class) (h : entries_t) (ck : bool) (e : bytes) :
  canonical env (RHash klass h) = true ->
  snd (write_value env W k (RHash klass h) [] ck) = Done e ->
  len e < 2 ^ 31 ->
  element_of k (RHash klass h) e.
Proof.
  cbn [canonical]. intros Hc Hw Hl.
  apply andb_true_iff in Hc. destruct Hc as [Hc Hcv].
  apply andb_true_iff in Hc. destruct Hc as [Hc Hr].
  apply andb_true_iff in Hc. destruct Hc as [Hk Hs].
  destruct klass; [|discriminate]. apply negb_true_iff in Hr.
  rewrite write_value_hash_eq in Hw.
  destruct (utf8_error env k true) eqn:Eu; [discriminate|].
  apply utf8_error_no_nul in Eu. cbn [snd] in Hw.
  destruct (write_doc env fuel [] OrderedHash h ck false) as [h' [d|x]] eqn:Ed;
    [|discriminate].
  cbn [snd appo] in Hw. inversion Hw. subst e. clear Hw.
  rewrite ?app_nil_l in Hl. revert Hl. unfold zero. len_simpl. intros Hl.
  pose proof (len_nonneg k). pose proof (len_nonneg d).
  apply doc_written in Ed; [|assumption|assumption|lia].
  destruct Ed as [parts [-> [Hlp [HF Hd]]]].
  apply (element_intro k _ x03 (le_split 4 (len (concat parts) + 5) ++ concat parts ++ [x00]));
    [elem_shape|exact Eu|discriminate|].
  intros dfuel buffer position rest Hf Hfrom Hrest.
  cbn [dsize] in Hf. destruct dfuel as [|dfuel]; [lia|].
  change (char_to_int x03) with 3. cbn [get_value].
  pose proof (len_nonneg (concat parts)).
  list_norm in Hfrom.
  rewrite (read_int_at buffer position _ _ Hfrom) by (pows; lia). cbn [bindd].
  assert (Hb : from buffer (position + 4) = Some (concat parts ++ x00 :: rest)).
  { apply (from_skip buffer position _ _ _ Hfrom). now len_simpl. }
  assert (Hs5 : strcmp_at buffer (position + 5) (str "$ref") = Value false).
  { unfold strcmp_at.
    assert (Hb5 : from buffer (position + 5)
                  = Some (skipn 1 (concat parts ++ x00 :: rest))).
    { destruct (concat parts ++ x00 :: rest) as [|c r] eqn:E.
      - destruct (concat parts); discriminate.
      - cbn [skipn]. apply (from_skip buffer (position + 4) _ [c] _ Hb).
        len_simpl. lia. }
    rewrite Hb5. now apply (first_key_not_ref h). }
  rewrite Hs5. cbn [bindd].
  replace (len (concat parts) + 5 - 5) with (0 + len (concat parts)) by lia.
  rewrite (elements_loop_reads h parts HF dfuel _ 0 [] rest).
  - cbn [bindd app]. f_equal. f_equal. len_simpl. lia.
  - unfold entries_dsize. lia.
  - rewrite from_ptr_add. now rewrite Z.add_0_r.
  - reflexivity.
  - exact Hd.
Qed.

Lemma code_element (k code : bytes) (klass : hash_class) (h : entries_t) (ck : bool)
    (e : bytes) :
  canonical env (RCode code klass h) = true ->
  snd (write_value env W k (RCode code klass h) [] ck) = Done e ->
  len e < 2 ^ 31 ->
  element_of k (RCode code klass h) e.
Proof.
  cbn [canonical]. intros Hc Hw Hl.
  apply andb_true_iff in Hc. destruct Hc as [Hc Hcv].
  apply andb_true_iff in Hc. destruct Hc as [Hk Hs].
  destruct klass; [|discriminate].
  rewrite write_value_code_eq in Hw.
  destruct (utf8_error env k true) eqn:Eu; [discriminate|].
  apply utf8_error_no_nul in Eu. cbn [snd] in Hw.
  destruct (write_doc env fuel [] OrderedHash h false false) as [h' [d|x]] eqn:Ed;
    [|discriminate].
  cbn [snd] in Hw. inversion Hw. subst e. clear Hw.
  rewrite ?app_nil_l in Hl. revert Hl. unfold zero. len_simpl. intros Hl.
  pose proof (len_nonneg k). pose proof (len_nonneg d). pose proof (len_nonneg code).
  apply doc_written in Ed; [|assumption|assumption|lia].
  destruct Ed as [parts [-> [Hlp [HF Hd]]]].
  set (doc := le_split 4 (len (concat parts) + 5) ++ concat parts ++ [x00]) in *.
  set (inner := le_split 4 (len code + 1) ++ code ++ [x00] ++ doc).
  apply (element_intro k _ x0f (le_split 4 (len inner + 4) ++ inner));
    [subst inner; elem_shape|exact Eu|discriminate|].
  intros dfuel buffer position rest Hf Hfrom Hrest.
  cbn [dsize] in Hf. destruct dfuel as [|dfuel]; [lia|].
  change (char_to_int x0f) with 15. cbn [get_value].
  pose proof (len_nonneg (concat parts)).
  assert (Hdl : len doc = len (concat parts) + 5) by (subst doc; len_simpl; lia).
  assert (Hil : len inner = len code + len doc + 5) by (subst inner; len_simpl; lia).
  assert (Hq1 : from buffer (position + 4)
               = Some (le_split 4 (len code + 1) ++ code ++ x00 :: doc ++ rest)).
  { apply (from_skip buffer position _ (le_split 4 (len inner + 4)) _).
    - subst inner. list_norm in Hfrom. exact Hfrom.
    - now len_simpl. }
  rewrite (read_int_at buffer _ _ _ Hq1) by (pows; lia). cbn [bindd].
  replace (len code + 1 - 1) with (len code) by lia.
  assert (Hq2 : from buffer (position + 4 + 4) = Some (code ++ x00 :: doc ++ rest)).
  { apply (from_skip buffer _ _ _ _ Hq1). now len_simpl. }
  rewrite (STR_NEW_at buffer _ _ _ Hq2). cbn [bindd].
  assert (Hq3 : from buffer (position + 4 + 4 + (len code + 1))
               = Some (le_split 4 (len (concat parts) + 5)
                       ++ concat parts ++ x00 :: rest)).
  { apply (from_skip buffer (position + 4 + 4) _ (code ++ [x00]) _).
    - subst doc. list_norm in Hq2. list_norm. exact Hq2.
    - now len_simpl. }
  rewrite (read_int_at buffer _ _ _ Hq3) by (pows; lia). cbn [bindd].
  replace (len (concat parts) + 5 - 5) with (0 + len (concat parts)) by lia.
  rewrite (elements_loop_reads h parts HF dfuel _ 0 [] rest).
  - cbn [bindd app]. f_equal. f_equal. len_simpl. rewrite Hil, Hdl. lia.
  - unfold entries_dsize. lia.
  - rewrite from_ptr_add, Z.add_0_r. apply (from_skip buffer _ _ _ _ Hq3). now len_simpl.
  - reflexivity.
  - exact Hd.
Qed.

Lemma items_elements (ck : bool) (items : list VALUE) (parts : list bytes) (i : nat) :
  length parts = length items ->
  (forall j v part, nth_error items j = Some v -> nth_error parts j = Some part ->
     snd (W (RString (INT2STRING (i + j))) v [] ck false) = Done part) ->
  forallb (canonical env) items = true ->
  len (concat parts) < 2 ^ 31 ->
  Forall2 item_element items parts.
Proof.
  revert parts i. induction items as [|v items IH]; intros [|part parts] i Hlen HW Hc Hl;
    try discriminate; [constructor|].
  cbn [forallb] in Hc. apply andb_true_iff in Hc. destruct Hc as [Hc1 Hc2].
  cbn [concat] in Hl. rewrite len_app in Hl.
  pose proof (len_nonneg part). pose proof (len_nonneg (concat parts)).
  constructor.
  - exists (INT2STRING (i + 0)).
    apply (IHW (RString (INT2STRING (i + 0))) _ v ck false part); try assumption.
    + reflexivity.
    + cbn [negb andb]. apply digits_not_id, INT2STRING_digits.
    + now apply (HW 0%nat).
    + lia.
  - apply (IH parts (S i)); try assumption.
    + cbn in Hlen. lia.
    + intros j w p Hw Hp. replace (S i + j)%nat with (i + S j)%nat by lia.
      now apply HW.
    + lia.
Qed.

Lemma array_element (k : bytes) (items : list VALUE) (ck : bool) (e : bytes) :
  canonical env (RArray items) = true ->
  snd (write_value env W k (RArray items) [] ck) = Done e ->
  len e < 2 ^ 31 ->
  element_of k (RArray items) e.
Proof.
  cbn [canonical]. intros Hc Hw Hl.
  rewrite write_value_array_eq in Hw.
  destruct (utf8_error env k true) eqn:Eu; [discriminate|].
  apply utf8_error_no_nul in Eu. cbn [snd] in Hw.
  destruct (snd (each_item W ck 0 items [])) as [body|x] eqn:Eb; [|discriminate].
  inversion Hw. subst e. clear Hw.
  apply each_item_parts in Eb. destruct Eb as [parts [Hlen [HW ->]]].
  rewrite ?app_nil_l in Hl. revert Hl. unfold zero. len_simpl. intros Hl.
  pose proof (len_nonneg k). pose proof (len_nonneg (concat parts)).
  assert (HF : Forall2 item_element items parts)
    by (apply (items_elements ck items parts 0); try assumption; lia).
  apply (element_intro k _ x04 (le_split 4 (len (concat parts) + 5) ++ concat parts ++ [x00]));
    [elem_shape|exact Eu|discriminate|].
  intros dfuel buffer position rest Hf Hfrom Hrest.
  cbn [dsize] in Hf. destruct dfuel as [|dfuel]; [lia|].
  change (char_to_int x04) with 4. cbn [get_value].
  list_norm in Hfrom.
  rewrite (read_int_at buffer position _ _ Hfrom) by (pows; lia). cbn [bindd].
  assert (Hb : from buffer (position + 4) = Some (concat parts ++ x00 :: rest)).
  { apply (from_skip buffer position _ _ _ Hfrom). now len_simpl. }
  replace (position + (len (concat parts) + 5) - 1)
    with (position + 4 + len (concat parts)) by lia.
  rewrite (array_loop_reads items parts HF dfuel buffer _ [] rest).
  - cbn [bindd app fst snd]. f_equal. f_equal. len_simpl. lia.
  - unfold items_dsize. lia.
  - exact Hb.
Qed.

Lemma dbref_element (k : bytes) (ns oid : VALUE) (ck : bool) (e : bytes) :
  canonical env (RDBRef ns oid) = true ->
  snd (write_value env W k (RDBRef ns oid) [] ck) = Done e ->
  len e < 2 ^ 31 ->
  element_of k (RDBRef ns oid) e.
Proof.
  cbn [canonical]. intros Hc Hw Hl.
  apply andb_true_iff in Hc. destruct Hc as [Hns Hoid].
  destruct ns as [| | | | | | |s| | | | | | | | | | | | |]; try discriminate. clear Hns.
  rewrite write_value_dbref_eq in Hw.
  destruct (utf8_error env k true) eqn:Eu; [discriminate|].
  apply utf8_error_no_nul in Eu. cbv zeta in Hw.
  destruct (snd (W (RString (str "$ref")) (RString s) [] false false)) as [e1|x] eqn:E1;
    [|discriminate].
  cbn [snd] in Hw.
  destruct (snd (W (RString (str "$id")) oid [] false false)) as [e2|x] eqn:E2;
    [|discriminate].
  inversion Hw. subst e. clear Hw.
  rewrite ?app_nil_l in Hl. unfold zero in Hl. len_simpl in Hl.
  pose proof (len_nonneg k). pose proof (len_nonneg e1). pose proof (len_nonneg e2).
  pose proof (len_nonneg s).
  assert (He1 : e1 = x02 :: str "$ref" ++ x00 :: le_split 4 (len s + 1) ++ s ++ [x00]).
  { destruct fuel as [|f]; [discriminate|].
    rewrite write_element_allow_id_S in E1. cbn [key_string] in E1.
    replace (negb false && id_like (RString (str "$ref"))) with false in E1 by reflexivity.
    unfold write_value in E1. cbn [snd] in E1.
    rewrite write_name_and_type_eq in E1.
    destruct (utf8_error env (str "$ref") true); [discriminate|].
    cbn [bindo SAFE_WRITE buffer_write] in E1. rewrite write_utf8_eq in E1.
    destruct (utf8_error env s false); [discriminate|].
    cbn [bindo SAFE_WRITE buffer_write] in E1. inversion E1. elem_shape. }
  apply (IHW (RString (str "$id")) (str "$id") oid false false e2) in E2;
    [|assumption|reflexivity|reflexivity|lia].
  destruct E2 as [t [payload [-> [_ [Ht Hdec]]]]].
  subst e1.
  set (body := (x02 :: str "$ref" ++ x00 :: le_split 4 (len s + 1) ++ s ++ [x00])
               ++ t :: str "$id" ++ x00 :: payload) in *.
  apply (element_intro k _ x03 (le_split 4 (len body + 5) ++ body ++ [x00]));
    [elem_shape|exact Eu|discriminate|].
  intros dfuel buffer position rest Hf Hfrom Hrest.
  cbn [dsize] in Hf. destruct dfuel as [|dfuel]; [lia|].
  change (char_to_int x03) with 3. cbn [get_value].
  pose proof (len_nonneg payload).
  assert (Hbl : len body = len s + len payload + 16).
  { subst body. len_simpl. change (len (str "$ref")) with 4.
    change (len (str "$id")) with 3. lia. }
  len_simpl in Hl. change (len (str "$ref")) with 4 in Hl.
  change (len (str "$id")) with 3 in Hl.
  list_norm in Hfrom.
  rewrite (read_int_at buffer position _ _ Hfrom) by (pows; lia). cbn [bindd].
  assert (Hq4 : from buffer (position + 4) = Some (body ++ x00 :: rest)).
  { apply (from_skip buffer position _ _ _ Hfrom). now len_simpl. }
  subst body. list_norm in Hq4.
  assert (Hq5 : from buffer (position + 5)
               = Some (str "$ref" ++ x00 :: le_split 4 (len s + 1) ++ s ++ x00
                       :: t :: str "$id" ++ x00 :: payload ++ x00 :: rest)).
  { apply (from_skip buffer (position + 4) _ [x02] _).
    - list_norm. exact Hq4.
    - len_simpl. lia. }
  unfold strcmp_at. rewrite Hq5.
  rewrite strcmp_eq_cstr by reflexivity. rewrite bytes_eqb_refl. cbn [bindd].
  assert (Hq10 : from buffer (position + 10)
                = Some (le_split 4 (len s + 1) ++ s ++ x00
                        :: t :: str "$id" ++ x00 :: payload ++ x00 :: rest)).
  { apply (from_skip buffer (position + 5) _ (str "$ref" ++ [x00]) _).
    - list_norm. exact Hq5.
    - len_simpl. change (len (str "$ref")) with 4. lia. }
  rewrite (read_int_at buffer _ _ _ Hq10) by (pows; lia). cbn [bindd].
  replace (len s + 1 - 1) with (len s) by lia.
  assert (Hq14 : from buffer (position + 10 + 4)
                = Some (s ++ x00 :: t :: str "$id" ++ x00 :: payload ++ x00 :: rest)).
  { apply (from_skip buffer _ _ _ _ Hq10). now len_simpl. }
  rewrite (STR_NEW_at buffer _ _ _ Hq14). cbn [bindd].
  assert (Ht' : from buffer (position + 10 + 4 + (len s + 1))
                = Some (t :: str "$id" ++ x00 :: payload ++ x00 :: rest)).
  { apply (from_skip buffer (position + 10 + 4) _ (s ++ [x00]) _).
    - list_norm. exact Hq14.
    - now len_simpl. }
  rewrite (peek_at buffer _ _ _ Ht'). cbn [bindd].
  assert (Hp : from buffer (position + 10 + 4 + (len s + 1) + 5)
               = Some (payload ++ x00 :: rest)).
  { apply (from_skip buffer (position + 10 + 4 + (len s + 1)) _ (t :: str "$id" ++ [x00]) _).
    - list_norm. exact Ht'.
    - len_simpl. change (len (str "$id")) with 3. lia. }
  rewrite (Hdec dfuel buffer _ _ ltac:(lia) Hp (rest_ok_cons x00 rest ltac:(discriminate))).
  cbn [bindd fst]. f_equal. f_equal. len_simpl. change (len (str "$ref")) with 4.
  change (len (str "$id")) with 3. lia.
Qed.

Lemma write_value_element (k : bytes) (v : VALUE) (ck : bool) (e : bytes) :
  canonical env v = true ->
  snd (write_value env W k v [] ck) = Done e ->
  len e < 2 ^ 31 ->
  element_of k v e.
Proof.
  intros Hc Hw Hl. destruct v; try discriminate Hc.
  - now apply (integer_element env W k n ck).
  - now apply (bool_nil_element env W k RTrue ck).
  - now apply (bool_nil_element env W k RFalse ck).
  - now apply (float_element env W k bits ck).
  - now apply (bool_nil_element env W k RNil ck).
  - now apply (hash_element k klass entries ck).
  - now apply (array_element k items ck).
  - now apply (string_element env W k s ck).
  - now apply (code_element k code scope_klass scope ck).
  - now apply (symbol_element env W k name ck).
  - now apply (binary_element env W k subtype data ck).
  - now apply (objectid_element env W k data ck).
  - now apply (dbref_element k v1 v2 ck).
  - now apply (bool_nil_element env W k RMaxKey ck).
  - now apply (bool_nil_element env W k RMinKey ck).
  - now apply (time_element env W k millis ck).
  - now apply (regexp_element env W k pattern options extra_options_str ck).
Qed.

End RoundTrip.

Lemma element_of_written (env : platform) (fuel : nat) :
  forall key k v ck a e,
    canonical env v = true ->
    key_string key = Some k ->
    negb a && id_like key = false ->
    snd (write_element_allow_id env fuel key v [] ck a) = Done e ->
    len e < 2 ^ 31 ->
    element_of k v e.
Proof.
  induction fuel as [|fuel IH]; intros key k v ck a e Hc Hk Hs Hw Hl; [discriminate|].
  rewrite write_element_allow_id_S, Hk, Hs in Hw.
  destruct (if ck then check_key k else None); [discriminate|].
  now apply (write_value_element env fuel IH k v ck).
Qed.

(** C1, amended. A canonical document, written without move_id, is read
    back as it was, by every run of the reader that has enough fuel. A
    document is canonical when it is made of the supported variants in the
    form in which the reader builds them: hashes are OrderedHash with distinct
    string keys, no embedded document has "$ref" as its first key, a DBRef
    has a string namespace, symbols are free of NUL, a binary has its subtype
    in a byte, an object id has twelve bytes, a float is 64 bits, a time is
    at a whole number of milliseconds that [(long long)round(to_f * 1000)]
    gives back, which the doubles of the writer do not do for every 64-bit
    count, and a regex has only engine flags among its options and sorted
    extra flags that the reader keeps. *)
Theorem C1_round_trip (env : platform) (doc h' : entries_t) (check_keys : bool)
    (out : bytes) :
  canonical_doc env doc = true ->
  method_serialize env OrderedHash doc check_keys false = (h', Done out) ->
  exists n, forall fuel, (n <= fuel)%nat -> method_deserialize fuel out = Value doc.
Proof.
  unfold canonical_doc, method_serialize. intros Hc Hw.
  apply andb_true_iff in Hc. destruct Hc as [Hs Hc].
  assert (Hlen : len out < 2 ^ 31).
  { destruct (write_doc_Done _ _ _ _ _ _ _ _ _ Hw) as [body [_ [-> Hmax]]].
    rewrite app_nil_l. unfold zero. len_simpl. rewrite MAX_DOC_value in Hmax.
    pows. lia. }
  apply (doc_written env _ (element_of_written env _)) in Hw; try assumption.
  destruct Hw as [parts [-> [Hlp [HF Hd]]]].
  exists (entries_dsize doc). intros fuel Hfuel.
  unfold method_deserialize, elements_to_hash.
  replace (len (le_split 4 (len (concat parts) + 5) ++ concat parts ++ [x00]) - 5)
    with (0 + len (concat parts)) by (len_simpl; lia).
  rewrite (elements_loop_reads doc parts HF fuel _ 0 [] []); try assumption.
  - reflexivity.
  - rewrite from_ptr_add. unfold from. cbn [mem off].
    rewrite (proj2 (andb_true_iff _ _)).
    + change (Z.to_nat (0 + (4 + 0))) with (length (le_split 4 (len (concat parts) + 5))).
      now rewrite List.skipn_app_r.
    + split; apply Z.leb_le; [lia|]. len_simpl. pose proof (len_nonneg (concat parts)). lia.
  - intros p _. reflexivity.
Qed.

Lemma C1_round_trip_witness :
  exists n, forall fuel, (n <= fuel)%nat ->
    method_deserialize fuel
      (le_split 4 31 ++ x10 :: str "a" ++ x00 :: le_split 4 1
       ++ x03 :: str "d" ++ x00 :: le_split 4 5 ++ x00
       :: x09 :: str "t" ++ x00 :: le_split 8 1262304000123 ++ [x00])
    = Value [(RString (str "a"), RInteger 1); (RString (str "d"), RHash OrderedHash []);
             (RString (str "t"), RTime 1262304000123)].
Proof.
  apply (C1_round_trip ruby19
           [(RString (str "a"), RInteger 1); (RString (str "d"), RHash OrderedHash []);
            (RString (str "t"), RTime 1262304000123)]
           [(RString (str "a"), RInteger 1); (RString (str "d"), RHash OrderedHash []);
            (RString (str "t"), RTime 1262304000123)]
           false);
    vm_compute; reflexivity.
Defined.

(** Times on the build [ruby19]. The time 2010-01-01 00:00:00.123 UTC is
    written as its count of milliseconds. A time 2^53 + 1 milliseconds after
    the epoch is written as 2^53, one millisecond earlier: its double, times
    1000, has no bit left for the last millisecond. *)
Example time_since_epoch_ruby19 :
  time_since_epoch ruby19 1262304000123 = 1262304000123
  /\ time_since_epoch ruby19 (2 ^ 53 + 1) = 2 ^ 53
  /\ canonical ruby19 (RTime (2 ^ 53 + 1)) = false.
Proof. repeat split; vm_compute; reflexivity. Qed.

(** C1 as stated fails: an embedded document whose first key is "$ref" is
    read back as a DBRef. *)
Lemma C1_counterexample :
  snd (method_serialize ruby19 OrderedHash
         [(RString (str "a"),
           RHash OrderedHash [(RString (str "$ref"), RString (str "c"));
                              (RString (str "$id"), RInteger 1)])] false false)
  = Done (le_split 4 34 ++ x03 :: str "a" ++ x00 :: le_split 4 26
          ++ x02 :: str "$ref" ++ x00 :: le_split 4 2 ++ str "c" ++ x00
          :: x10 :: str "$id" ++ x00 :: le_split 4 1 ++ [x00; x00])
  /\ (forall fuel,
        method_deserialize (3 + fuel)
          (le_split 4 34 ++ x03 :: str "a" ++ x00 :: le_split 4 26
           ++ x02 :: str "$ref" ++ x00 :: le_split 4 2 ++ str "c" ++ x00
           :: x10 :: str "$id" ++ x00 :: le_split 4 1 ++ [x00; x00])
        = Value [(RString (str "a"), RDBRef (RString (str "c")) (RInteger 1))])
  /\ [(RString (str "a"), RDBRef (RString (str "c")) (RInteger 1))]
     <> [(RString (str "a"),
          RHash OrderedHash [(RString (str "$ref"), RString (str "c"));
                             (RString (str "$id"), RInteger 1)])].
Proof.
  split; [reflexivity|]. split; [|discriminate].
  intros fuel. reflexivity.
Qed.

(** * Further properties *)

(** ** Packing and unpacking bytes *)

Lemma of_Z_mod_256 (x : Z) : byte.of_Z (x mod 256) = byte.of_Z x.
Proof.
  apply byte.unsigned_inj. rewrite !byte.unsigned_of_Z. unfold byte.wrap.
  change (2 ^ 8) with 256. now rewrite Z.mod_mod by lia.
Qed.

Lemma unpack_fast_pack (l : list Z) : byte_values l -> unpack_C (fast_pack l) = l.
Proof.
  unfold unpack_C, fast_pack. induction 1 as [|x l Hx Hl IH]; [reflexivity|].
  cbn [map]. rewrite IH. now rewrite unsigned_of_Z_small.
Qed.

Lemma fast_pack_unpack (s : bytes) : fast_pack (unpack_C s) = s.
Proof.
  unfold unpack_C, fast_pack. induction s as [|c s IH]; [reflexivity|].
  cbn [map]. now rewrite IH, byte.of_Z_unsigned.
Qed.

Lemma byte_values_unpack (s : bytes) : byte_values (unpack_C s).
Proof.
  unfold byte_values, unpack_C. induction s as [|c s IH]; constructor; [|exact IH].
  pose proof (byte.unsigned_range c) as H. change (2 ^ 8) with 256 in H. exact H.
Qed.

Lemma objectid_loop_fast_pack (data : list Z) (b : buffer_t) :
  length data = 12%nat ->
  Forall (fun x => -2147483648 <= x <= 2147483647) data ->
  objectid_loop data (seq 0 12) b = Done (b ++ fast_pack data).
Proof.
  intros Hl Hf.
  rewrite objectid_loop_fits.
  - f_equal. f_equal. unfold fast_pack.
    do 13 (destruct data as [|? data]; try discriminate Hl). reflexivity.
  - intros i _. destruct (nth_in_or_default i data 0) as [Hin| ->]; [|lia].
    rewrite Forall_forall in Hf. now apply Hf.
Qed.

Lemma objectid_loop_raises (data : list Z) (indices : list nat) (i : nat) (b : buffer_t) :
  In i indices ->
  FIX2INT (nth i data 0) = None ->
  objectid_loop data indices b = Raise RangeError.
Proof.
  intros Hin Hi. revert b. induction indices as [|j rest IH]; intros b; [contradiction|].
  cbn [objectid_loop]. destruct (FIX2INT (nth j data 0)) eqn:E; [|reflexivity].
  destruct Hin as [->|Hin]; [congruence|].
  cbn [bindo SAFE_WRITE buffer_write]. now apply IH.
Qed.

(** X1. [fast_pack] makes a string with one byte for each entry of the
    array, the entry modulo 256; on an array of byte values it is undone by
    unpack("C*"), and it undoes unpack("C*") on every string. For an array
    of twelve entries that fit a C int, the twelve bytes that the serializer
    writes for an ObjectID are those that [fast_pack] gives; where one of the
    twelve entries does not fit a C int the serializer raises RangeError,
    which [fast_pack] never does. *)
Theorem X1_fast_pack_unpack :
  (forall l, length (fast_pack l) = length l)
  /\ (forall l, fast_pack (map (fun x => x mod 256) l) = fast_pack l)
  /\ (forall l, byte_values l -> unpack_C (fast_pack l) = l)
  /\ (forall s, fast_pack (unpack_C s) = s)
  /\ (forall data b,
        length data = 12%nat ->
        Forall (fun x => -2147483648 <= x <= 2147483647) data ->
        objectid_loop data (seq 0 12) b = Done (b ++ fast_pack data))
  /\ (forall data b i,
        (i < 12)%nat ->
        (nth i data 0 < -2147483648 \/ 2147483647 < nth i data 0) ->
        objectid_loop data (seq 0 12) b = Raise RangeError).
Proof.
  split; [intros l; apply length_map|].
  split.
  { intros l. unfold fast_pack. rewrite map_map. apply map_ext.
    intros x. apply of_Z_mod_256. }
  split; [exact unpack_fast_pack|].
  split; [exact fast_pack_unpack|].
  split; [intros data b; apply objectid_loop_fast_pack|].
  intros data b i Hi Hx. apply (objectid_loop_raises data (seq 0 12) i).
  - apply in_seq. lia.
  - unfold FIX2INT.
    destruct ((-2147483648 <=? nth i data 0) && (nth i data 0 <=? 2147483647)) eqn:E;
      [|reflexivity].
    apply andb_true_iff in E. destruct E as [E1 E2].
    apply Z.leb_le in E1, E2. lia.
Qed.

Lemma X1_fast_pack_unpack_witness :
  unpack_C (fast_pack [0; 255; 65]) = [0; 255; 65]
  /\ objectid_loop [1; 2; 3; 4; 5; 6; 7; 8; 9; 10; 11; 300] (seq 0 12) []
     = Done ([] ++ fast_pack [1; 2; 3; 4; 5; 6; 7; 8; 9; 10; 11; 300])
  /\ objectid_loop [1; 2; 3; 4; 5; 6; 7; 8; 9; 10; 11; 2 ^ 31] (seq 0 12) []
     = Raise RangeError.
Proof.
  split; [|split].
  - apply (proj1 (proj2 (proj2 X1_fast_pack_unpack))).
    repeat constructor; lia.
  - apply (proj1 (proj2 (proj2 (proj2 (proj2 X1_fast_pack_unpack))))).
    + reflexivity.
    + repeat constructor; lia.
  - apply (proj2 (proj2 (proj2 (proj2 (proj2 X1_fast_pack_unpack)))) _ _ 11%nat).
    + lia.
    + right. vm_compute. reflexivity.
Defined.

(** ** The generator of object ids *)

Lemma be_number_unpack_rev (n : nat) (x : Z) :
  be_number (unpack_C (rev (le_split n x))) = x mod 2 ^ (Z.of_nat n * 8).
Proof.
  unfold be_number, unpack_C. rewrite <- map_rev, rev_involutive.
  change (fast_pack (map byte.unsigned ?s)) with (fast_pack (unpack_C s)).
  rewrite fast_pack_unpack. apply le_combine_split.
Qed.

Lemma le_split_3_of_4 (x : Z) : firstn 3 (skipn 1 (rev (le_split 4 x))) = rev (le_split 3 x).
Proof. reflexivity. Qed.

(** The object id that is made when the host has a name. *)
Lemma objectid_generate_Oid (h : host) (name : bytes) :
  gethostname h = Some name ->
  (3 <= length (md5_digest h (c_str name)))%nat ->
  objectid_generate h
  = Oid (unpack_C (rev (le_split 4 (time_now h)))
         ++ unpack_C (firstn 3 (md5_digest h (c_str name)))
         ++ unpack_C (rev (le_split 2 (getpid h)))
         ++ unpack_C (rev (le_split 3 (get_inc h)))).
Proof.
  intros Hn Hd. unfold objectid_generate. rewrite Hn.
  replace (length (md5_digest h (c_str name)) <? 3)%nat with false
    by (symmetry; apply Nat.ltb_ge; exact Hd).
  unfold htonl, htons. rewrite le_split_3_of_4.
  unfold unpack_C. now rewrite !map_app.
Qed.

(** X2. When the host has a name, [objectid_generate] returns an array of
    twelve byte values: four that spell the time in seconds modulo 2^32, the
    high byte first, then the first three bytes of the MD5 digest of the host
    name, two that spell the process id modulo 2^16 and three that spell the
    counter modulo 2^24. The serializer writes these twelve bytes and
    unpack("C*") gives the array back. When [gethostname] fails the call
    raises RuntimeError. *)
Theorem X2_objectid_generate_layout (h : host) :
  (gethostname h = None -> objectid_generate h = RuntimeError_hostname)
  /\ (forall name,
        gethostname h = Some name ->
        (3 <= length (md5_digest h (c_str name)))%nat ->
        exists oid,
          objectid_generate h = Oid oid
          /\ length oid = 12%nat
          /\ byte_values oid
          /\ be_number (firstn 4 oid) = time_now h mod 2 ^ 32
          /\ fast_pack (firstn 3 (skipn 4 oid)) = firstn 3 (md5_digest h (c_str name))
          /\ be_number (firstn 2 (skipn 7 oid)) = getpid h mod 2 ^ 16
          /\ be_number (skipn 9 oid) = get_inc h mod 2 ^ 24
          /\ (forall b, objectid_loop oid (seq 0 12) b = Done (b ++ fast_pack oid))
          /\ unpack_C (fast_pack oid) = oid).
Proof.
  split.
  { intros Hn. unfold objectid_generate. now rewrite Hn. }
  intros name Hn Hd. rewrite (objectid_generate_Oid h name Hn Hd).
  eexists. split; [reflexivity|].
  assert (H3 : length (unpack_C (firstn 3 (md5_digest h (c_str name)))) = 3%nat).
  { unfold unpack_C. rewrite length_map, length_firstn. lia. }
  assert (H4 : length (unpack_C (rev (le_split 4 (time_now h)))) = 4%nat) by reflexivity.
  assert (H2 : length (unpack_C (rev (le_split 2 (getpid h)))) = 2%nat) by reflexivity.
  assert (Hi : length (unpack_C (rev (le_split 3 (get_inc h)))) = 3%nat) by reflexivity.
  assert (Hl : length (unpack_C (rev (le_split 4 (time_now h)))
                       ++ unpack_C (firstn 3 (md5_digest h (c_str name)))
                       ++ unpack_C (rev (le_split 2 (getpid h)))
                       ++ unpack_C (rev (le_split 3 (get_inc h)))) = 12%nat).
  { rewrite !length_app, H3, H4, H2, Hi. reflexivity. }
  assert (Hb : byte_values (unpack_C (rev (le_split 4 (time_now h)))
                            ++ unpack_C (firstn 3 (md5_digest h (c_str name)))
                            ++ unpack_C (rev (le_split 2 (getpid h)))
                            ++ unpack_C (rev (le_split 3 (get_inc h))))).
  { unfold byte_values. rewrite !Forall_app. repeat split; apply byte_values_unpack. }
  split; [exact Hl|]. split; [exact Hb|].
  split.
  { rewrite List.firstn_app_l by exact H4. apply (be_number_unpack_rev 4). }
  split.
  { rewrite List.skipn_app_r by exact H4.
    rewrite List.firstn_app_l by (now rewrite H3). apply fast_pack_unpack. }
  split.
  { rewrite (app_assoc (unpack_C (rev (le_split 4 (time_now h))))).
    rewrite List.skipn_app_r by (now rewrite length_app, H4, H3).
    rewrite List.firstn_app_l by exact H2. apply (be_number_unpack_rev 2). }
  split.
  { rewrite (app_assoc (unpack_C (rev (le_split 4 (time_now h))))).
    rewrite (app_assoc (_ ++ _)).
    rewrite List.skipn_app_r by (now rewrite !length_app, H4, H3, H2).
    apply (be_number_unpack_rev 3). }
  split; [|now apply unpack_fast_pack].
  intros b. apply objectid_loop_fast_pack; [exact Hl|].
  apply (Forall_impl _ (P := fun x => 0 <= x < 256)); [intros x Hx; lia|exact Hb].
Qed.

Lemma X2_objectid_generate_layout_witness :
  exists oid,
    objectid_generate {| time_now := 2 ^ 32 + 258; gethostname := Some (str "db1");
                         md5_digest := fun _ => repeat xab 16; getpid := 65537;
                         get_inc := 7 |} = Oid oid
    /\ length oid = 12%nat
    /\ byte_values oid
    /\ be_number (firstn 4 oid) = (2 ^ 32 + 258) mod 2 ^ 32
    /\ fast_pack (firstn 3 (skipn 4 oid)) = firstn 3 (repeat xab 16)
    /\ be_number (firstn 2 (skipn 7 oid)) = 65537 mod 2 ^ 16
    /\ be_number (skipn 9 oid) = 7 mod 2 ^ 24
    /\ (forall b, objectid_loop oid (seq 0 12) b = Done (b ++ fast_pack oid))
    /\ unpack_C (fast_pack oid) = oid.
Proof.
  apply (proj2 (X2_objectid_generate_layout
                  {| time_now := 2 ^ 32 + 258; gethostname := Some (str "db1");
                     md5_digest := fun _ => repeat xab 16; getpid := 65537;
                     get_inc := 7 |}) (str "db1")).
  - reflexivity.
  - simpl. lia.
Defined.

Lemma objectid_generate_inv (h : host) (oid : list Z) :
  objectid_generate h = Oid oid ->
  exists name,
    gethostname h = Some name
    /\ oid = unpack_C (rev (le_split 4 (time_now h)))
             ++ unpack_C (firstn 3 (md5_digest h (c_str name)))
             ++ unpack_C (rev (le_split 2 (getpid h)))
             ++ unpack_C (rev (le_split 3 (get_inc h)))
    /\ length (unpack_C (rev (le_split 4 (time_now h)))
               ++ unpack_C (firstn 3 (md5_digest h (c_str name)))
               ++ unpack_C (rev (le_split 2 (getpid h)))) = 9%nat.
Proof.
  intros H. destruct (gethostname h) as [name|] eqn:Hn.
  - exists name. split; [reflexivity|].
    destruct (length (md5_digest h (c_str name)) <? 3)%nat eqn:Hd.
    + unfold objectid_generate in H. rewrite Hn, Hd in H. discriminate.
    + apply Nat.ltb_ge in Hd.
      rewrite (objectid_generate_Oid h name Hn Hd) in H. inversion H. split; [reflexivity|].
      unfold unpack_C. rewrite !length_app, !length_map, length_firstn.
      rewrite !length_rev, !length_le_split. lia.
  - unfold objectid_generate in H. rewrite Hn in H. discriminate.
Qed.

Lemma objectid_counter (h : host) (oid : list Z) :
  objectid_generate h = Oid oid -> be_number (skipn 9 oid) = get_inc h mod 2 ^ 24.
Proof.
  intros H. destruct (objectid_generate_inv h oid H) as [name [_ [-> Hl]]].
  rewrite !app_assoc. rewrite !app_assoc in Hl.
  rewrite List.skipn_app_r by (now rewrite Hl).
  apply (be_number_unpack_rev 3).
Qed.

(** X3. The last three entries of an object id are the counter modulo 2^24:
    two ids made from counters that differ modulo 2^24 are different,
    whatever the time, the host and the process; and two ids made by the
    same process on the same host in the same second from counters that are
    equal modulo 2^24 are the same id. *)
Theorem X3_objectid_generate_counter (h1 h2 : host) (o1 o2 : list Z) :
  objectid_generate h1 = Oid o1 ->
  objectid_generate h2 = Oid o2 ->
  (get_inc h1 mod 2 ^ 24 <> get_inc h2 mod 2 ^ 24 -> o1 <> o2)
  /\ (time_now h1 = time_now h2 -> gethostname h1 = gethostname h2 ->
      md5_digest h1 = md5_digest h2 -> getpid h1 = getpid h2 ->
      get_inc h1 mod 2 ^ 24 = get_inc h2 mod 2 ^ 24 -> o1 = o2).
Proof.
  intros H1 H2. split.
  - intros Hne Heq. apply Hne.
    rewrite <- (objectid_counter h1 o1 H1), <- (objectid_counter h2 o2 H2).
    now rewrite Heq.
  - intros Ht Hh Hm Hp Hi.
    destruct (objectid_generate_inv h1 o1 H1) as [n1 [Hn1 [-> _]]].
    destruct (objectid_generate_inv h2 o2 H2) as [n2 [Hn2 [-> _]]].
    rewrite Hh, Hn2 in Hn1. inversion Hn1. subst n1.
    rewrite Ht, Hm, Hp.
    rewrite (le_split_mod (get_inc h1)), (le_split_mod (get_inc h2)).
    change (2 ^ (Z.of_nat 3 * 8)) with (2 ^ 24). now rewrite Hi.
Qed.

Lemma X3_objectid_generate_counter_witness :
  map byte.unsigned (rev (le_split 4 5) ++ repeat xab 3 ++ rev (le_split 2 9)
                     ++ rev (le_split 3 1))
  <> map byte.unsigned (rev (le_split 4 6) ++ repeat xab 3 ++ rev (le_split 2 9)
                        ++ rev (le_split 3 (2 ^ 24 + 2))).
Proof.
  apply (proj1 (X3_objectid_generate_counter
                  {| time_now := 5; gethostname := Some (str "db1");
                     md5_digest := fun _ => repeat xab 16; getpid := 9; get_inc := 1 |}
                  {| time_now := 6; gethostname := Some (str "db1");
                     md5_digest := fun _ => repeat xab 16; getpid := 9;
                     get_inc := 2 ^ 24 + 2 |} _ _ eq_refl eq_refl)).
  vm_compute. discriminate.
Defined.

(** ** Short input *)

(** X4. [method_deserialize] skips four bytes and leaves out the last one
    without looking at them: a string of five bytes or fewer, the empty
    string too, has no room for an element and is read as the empty
    document, with no error. *)
Theorem X4_deserialize_short_input (fuel : nat) (bson : bytes) :
  len bson <= 5 -> method_deserialize (S fuel) bson = Value [].
Proof.
  intros H. unfold method_deserialize, elements_to_hash. cbn [elements_loop].
  now replace (0 <? len bson - 5) with false by (symmetry; apply Z.ltb_ge; lia).
Qed.

Lemma X4_deserialize_short_input_witness :
  method_deserialize 1 [] = Value []
  /\ method_deserialize 1 (le_split 4 5 ++ [x00]) = Value [].
Proof.
  split; apply X4_deserialize_short_input; vm_compute; discriminate.
Defined.

(** ** The exceptions of the serializer *)

Lemma raises_in_Done (P : exn -> bool) (b : buffer_t) : raises_in P (Done b).
Proof. intros e H. discriminate. Qed.

Lemma raises_in_Raise (P : exn -> bool) (x : exn) : P x = true -> raises_in P (Raise x).
Proof. intros Hx e H. now inversion H; subst. Qed.

Lemma raises_in_bind (P : exn -> bool) (o : outcome) (k : buffer_t -> outcome) :
  raises_in P o -> (forall b, raises_in P (k b)) -> raises_in P (bindo o k).
Proof. destruct o; cbn; auto. Qed.

Lemma raises_in_if (P : exn -> bool) (c : bool) (o1 o2 : outcome) :
  raises_in P o1 -> raises_in P o2 -> raises_in P (if c then o1 else o2).
Proof. now destruct c. Qed.

Lemma raises_in_appo (P : exn -> bool) (b : buffer_t) (o : outcome) :
  raises_in P o -> raises_in P (appo b o).
Proof. destruct o; cbn; [intros _; apply raises_in_Done|auto]. Qed.

Lemma raises_in_SAFE_WRITE (P : exn -> bool) (b : buffer_t) (data : bytes) :
  raises_in P (SAFE_WRITE b data).
Proof. apply raises_in_Done. Qed.

Lemma may_raise_weaken (env : platform) (ck : bool) (o : outcome) :
  raises_in (may_raise env false) o -> raises_in (may_raise env ck) o.
Proof.
  intros H e He. specialize (H e He). destruct e; try exact H; discriminate.
Qed.

Lemma may_raise_utf8_error (env : platform) (ck : bool) (s : bytes) (cn : bool) (e : exn) :
  utf8_error env s cn = Some e -> may_raise env ck e = true.
Proof.
  unfold utf8_error, write_utf8, check_string.
  destruct (have_ruby_encoding env) eqn:E; cbn [andb].
  - destruct (cn && existsb is_nul s); intros H; inversion H. reflexivity.
  - destruct (cn && existsb is_nul s); [intros H; inversion H; reflexivity|].
    destruct (negb (legal_utf8 env s)); intros H; inversion H.
    unfold may_raise, serialize_raises. now rewrite E.
Qed.

Lemma may_raise_write_utf8 (env : platform) (ck : bool) (b : buffer_t) (s : bytes)
    (cn : bool) :
  raises_in (may_raise env ck) (write_utf8 env b s cn).
Proof.
  rewrite write_utf8_eq. destruct (utf8_error env s cn) as [e|] eqn:E.
  - apply raises_in_Raise. now apply (may_raise_utf8_error env ck s cn).
  - apply raises_in_Done.
Qed.

Lemma may_raise_write_name_and_type (env : platform) (ck : bool) (b : buffer_t)
    (k : bytes) (t : byte) :
  raises_in (may_raise env ck) (write_name_and_type env b k t).
Proof.
  rewrite write_name_and_type_eq. destruct (utf8_error env k true) as [e|] eqn:E.
  - apply raises_in_Raise. now apply (may_raise_utf8_error env ck k true).
  - apply raises_in_Done.
Qed.

Lemma may_raise_objectid_loop (env : platform) (ck : bool) (as_array : list Z)
    (indices : list nat) (b : buffer_t) :
  raises_in (may_raise env ck) (objectid_loop as_array indices b).
Proof.
  revert b. induction indices as [|i rest IH]; intros b; cbn [objectid_loop];
    [apply raises_in_Done|].
  destruct (FIX2INT (nth i as_array 0)); [|apply raises_in_Raise; reflexivity].
  apply raises_in_bind; [apply raises_in_SAFE_WRITE|exact IH].
Qed.

Create HintDb raises.
#[local] Hint Resolve raises_in_Done raises_in_bind raises_in_if raises_in_appo
  raises_in_SAFE_WRITE may_raise_write_utf8 may_raise_write_name_and_type
  may_raise_objectid_loop : raises.
#[local] Hint Extern 1 (raises_in _ (Raise _)) => (apply raises_in_Raise; reflexivity) : raises.
#[local] Hint Extern 2 (raises_in _ (match ?x with _ => _ end)) => destruct x : raises.

Section Raises.

Variable env : platform.
Variable we : VALUE -> VALUE -> buffer_t -> bool -> bool -> VALUE * outcome.
Hypothesis we_raises : forall k v b ck a, raises_in (may_raise env ck) (snd (we k v b ck a)).

Lemma each_pair_raises (ck a : bool) (hash : entries_t) (b : buffer_t) :
  raises_in (may_raise env ck) (snd (each_pair we ck a hash b)).
Proof.
  revert b. induction hash as [|[k v] rest IH]; intros b; [apply raises_in_Done|].
  cbn [each_pair]. pose proof (we_raises k v b ck a) as H.
  destruct (we k v b ck a) as [v' [b'|x]]; cbn [snd] in *; [|exact H].
  specialize (IH b'). now destruct (each_pair we ck a rest b').
Qed.

Lemma each_item_raises (ck : bool) (items : list VALUE) (i : nat) (b : buffer_t) :
  raises_in (may_raise env ck) (snd (each_item we ck i items b)).
Proof.
  revert i b. induction items as [|v rest IH]; intros i b; [apply raises_in_Done|].
  cbn [each_item]. pose proof (we_raises (RString (INT2STRING i)) v b ck false) as H.
  destruct (we (RString (INT2STRING i)) v b ck false) as [v' [b'|x]]; cbn [snd] in *;
    [|exact H].
  specialize (IH (S i) b'). now destruct (each_item we ck (S i) rest b').
Qed.

Lemma write_doc_elements_raises (b : buffer_t) (klass : hash_class) (hash : entries_t)
    (ck mid : bool) :
  raises_in (may_raise env ck) (snd (write_doc_elements env we b klass hash ck mid)).
Proof.
  unfold write_doc_elements. destruct mid.
  - destruct (has_key hash id_str).
    + pose proof (we_raises id_str (rb_hash_aref hash id_str) b ck true) as H.
      destruct (we id_str (rb_hash_aref hash id_str) b ck true) as [id [b'|x]];
        cbn [snd] in *; [|exact H].
      destruct klass; apply each_pair_raises.
    + destruct (has_key hash id_sym).
      * pose proof (we_raises id_sym (rb_hash_aref hash id_sym) b ck true) as H.
        destruct (we id_sym (rb_hash_aref hash id_sym) b ck true) as [id [b'|x]];
          cbn [snd] in *; [|exact H].
        destruct klass; apply each_pair_raises.
      * destruct klass; apply each_pair_raises.
  - destruct (has_key hash id_str && has_key hash id_sym); destruct klass;
      apply each_pair_raises.
Qed.

End Raises.

Lemma write_doc_raises (env : platform) (fuel : nat) (b : buffer_t) (klass : hash_class)
    (hash : entries_t) (ck mid : bool) :
  (forall k v b ck a,
     raises_in (may_raise env ck) (snd (write_element_allow_id env fuel k v b ck a))) ->
  raises_in (may_raise env ck) (snd (write_doc env fuel b klass hash ck mid)).
Proof.
  intros IH. rewrite write_doc_eq. cbn [snd].
  pose proof (write_doc_elements_raises env _ IH [] klass hash ck mid) as H.
  destruct (snd (write_doc_elements env (write_element_allow_id env fuel) [] klass hash ck mid))
    as [e|x]; [|exact H].
  auto with raises.
Qed.

Lemma write_value_raises (env : platform) (fuel : nat) (k : bytes) (value : VALUE)
    (b : buffer_t) (ck : bool) :
  (forall k v b ck a,
     raises_in (may_raise env ck) (snd (write_element_allow_id env fuel k v b ck a))) ->
  raises_in (may_raise env ck)
    (snd (write_value env (write_element_allow_id env fuel) k value b ck)).
Proof.
  intros IH.
  destruct value as [z| | |d| |klass h|items|s|code klass scope|name|st data|data|arr
                    |ns oid| | |cls|t|cls|pattern flags extra|cls];
    try solve [cbn [write_value fst snd]; auto 12 with raises].
  - rewrite write_value_hash_eq.
    destruct (utf8_error env k true) as [e|] eqn:E; cbn [snd].
    + apply raises_in_Raise. now apply (may_raise_utf8_error env ck k true).
    + apply raises_in_appo. now apply write_doc_raises.
  - rewrite write_value_array_eq.
    destruct (utf8_error env k true) as [e|] eqn:E; cbn [snd].
    + apply raises_in_Raise. now apply (may_raise_utf8_error env ck k true).
    + pose proof (each_item_raises env _ IH ck items 0 []) as H.
      destruct (snd (each_item (write_element_allow_id env fuel) ck 0 items []));
        [apply raises_in_Done|exact H].
  - rewrite write_value_code_eq.
    destruct (utf8_error env k true) as [e|] eqn:E; cbn [snd].
    + apply raises_in_Raise. now apply (may_raise_utf8_error env ck k true).
    + pose proof (write_doc_raises env fuel [] klass scope false false IH) as H.
      apply may_raise_weaken with (ck := ck) in H.
      destruct (snd (write_doc env fuel [] klass scope false false));
        [apply raises_in_Done|exact H].
  - rewrite write_value_dbref_eq.
    destruct (utf8_error env k true) as [e|] eqn:E; cbn [snd].
    + apply raises_in_Raise. now apply (may_raise_utf8_error env ck k true).
    + cbv zeta.
      pose proof (IH (RString (str "$ref")) ns [] false false) as H1.
      apply may_raise_weaken with (ck := ck) in H1.
      destruct (snd (write_element_allow_id env fuel (RString (str "$ref")) ns []
                       false false)) as [e1|x]; cbn [snd]; [|exact H1].
      pose proof (IH (RString (str "$id")) oid [] false false) as H2.
      apply may_raise_weaken with (ck := ck) in H2.
      destruct (snd (write_element_allow_id env fuel (RString (str "$id")) oid []
                       false false)) as [e2|x]; [apply raises_in_Done|exact H2].
Qed.

Lemma write_element_allow_id_raises (env : platform) (fuel : nat) :
  forall k v b ck a,
    raises_in (may_raise env ck) (snd (write_element_allow_id env fuel k v b ck a)).
Proof.
  induction fuel as [|fuel IH]; intros key v b ck a.
  - apply raises_in_Raise. reflexivity.
  - rewrite write_element_allow_id_S.
    destruct (key_string key) as [k|]; [|apply raises_in_Raise; reflexivity].
    destruct (negb a && id_like key); [apply raises_in_Done|].
    destruct ck; cbn match.
    + destruct (check_key k) as [e|] eqn:E; [|now apply write_value_raises].
      apply raises_in_Raise. unfold check_key in E.
      destruct k as [|c k]; [discriminate|].
      destruct (Byte.eqb c "$"); [inversion E; reflexivity|].
      destruct (existsb (Byte.eqb ".") (c :: k)); inversion E; reflexivity.
    + now apply write_value_raises.
Qed.

(** X5. The exceptions of [method_serialize]: NoMemError from the buffer,
    TypeError for a key that is neither string nor symbol, RangeError for an
    integer outside 64 bits (and from [FIX2INT], for the subtype of a Binary
    or an entry of an ObjectID outside a C int), InvalidDocument for a NUL
    in a key or regex
    pattern, for a value of a class that has no encoding and for a document
    above 4 MiB, InvalidName only when check_keys is on, InvalidStringEncoding
    only in a build without Ruby's encodings. The RuntimeError of a write at
    a wrong position is not among them: every length is written into the
    four bytes that were reserved for it. *)
Theorem X5_serialize_exceptions (env : platform) (klass : hash_class) (doc h' : entries_t)
    (check_keys move_id : bool) (e : exn) :
  method_serialize env klass doc check_keys move_id = (h', Raise e) ->
  serialize_raises env check_keys e = true.
Proof.
  intros H.
  pose proof (method_serialize_within_bound env klass doc check_keys move_id) as Hb.
  pose proof (write_doc_raises env (S (hash_depth doc)) [] klass doc check_keys move_id
                (write_element_allow_id_raises env _)) as Hr.
  unfold method_serialize in *. rewrite H in Hb, Hr. cbn [snd] in *.
  specialize (Hr e eq_refl). unfold may_raise in Hr.
  apply orb_true_iff in Hr. destruct Hr as [Hr|Hr]; [exact Hr|].
  destruct e; try discriminate. now contradiction Hb.
Qed.

Lemma X5_serialize_exceptions_witness :
  serialize_raises ruby19 true InvalidName_dollar = true.
Proof.
  apply (X5_serialize_exceptions ruby19 OrderedHash [(RString (str "$a"), RNil)]
           [(RString (str "$a"), RNil)] true false).
  reflexivity.
Defined.

(** ** The shape of an element *)

Lemma named_shape (env : platform) (k : bytes) (t : byte) (g : buffer_t -> outcome)
    (out : bytes) :
  appender g ->
  bindo (write_name_and_type env [] k t) g = Done out ->
  exists payload, out = t :: k ++ x00 :: payload /\ no_nul k.
Proof.
  intros Hg. rewrite write_name_and_type_eq.
  destruct (utf8_error env k true) eqn:E; [discriminate|]. cbn [bindo].
  rewrite (Hg _). destruct (g []) as [e|x]; cbn [appo]; intros H; inversion H.
  exists e. split; [|now apply utf8_error_no_nul in E].
  unfold zero. list_norm. reflexivity.
Qed.

Lemma type_byte_known (value : VALUE) (t : byte) :
  type_byte value = Some t -> known_type (char_to_int t) = true.
Proof.
  destruct value; cbn [type_byte]; try discriminate;
    try (intros H; inversion H; reflexivity).
  destruct ((2147483647 <? n) || (n <? -2147483648)); intros H; inversion H; reflexivity.
Qed.

Lemma write_value_shape (env : platform) (fuel : nat) (k : bytes) (value : VALUE)
    (ck : bool) (e : bytes) :
  snd (write_value env (write_element_allow_id env fuel) k value [] ck) = Done e ->
  exists t payload, type_byte value = Some t /\ e = t :: k ++ x00 :: payload /\ no_nul k.
Proof.
  destruct value as [z| | |d| |klass h|items|s|code klass scope|name|st data|data|arr
                    |ns oid| | |cls|t|cls|pattern flags extra|cls];
    try (cbn [write_value snd type_byte]; discriminate);
    try (cbn [write_value snd type_byte];
         try (destruct (FIX2INT _); [|discriminate]);
         intros H;
         apply named_shape in H; [|appender_tac];
         destruct H as [p [-> Hk]]; eexists; exists p; auto; fail).
  - (* integers *)
    cbn [write_value snd type_byte].
    destruct ((9223372036854775807 <? z) || (z <? -9223372036854775808)); [discriminate|].
    destruct ((2147483647 <? z) || (z <? -2147483648)); intros H;
      (apply named_shape in H; [|appender_tac]);
      destruct H as [p [-> Hk]]; eexists; exists p; auto.
  - (* nil *)
    cbn [write_value snd type_byte]. rewrite write_name_and_type_eq.
    destruct (utf8_error env k true) eqn:E; [discriminate|]. intros H. inversion H.
    exists x0a, []. split; [reflexivity|]. split; [|now apply utf8_error_no_nul in E].
    unfold zero. now list_norm.
  - (* embedded document *)
    rewrite write_value_hash_eq.
    destruct (utf8_error env k true) eqn:E; [discriminate|]. cbn [snd].
    destruct (snd (write_doc env fuel [] klass h ck false)) as [d|x]; [|discriminate].
    cbn [appo]. intros H. inversion H. exists x03, d.
    split; [reflexivity|]. split; [|now apply utf8_error_no_nul in E].
    unfold zero. list_norm. reflexivity.
  - (* array *)
    rewrite write_value_array_eq.
    destruct (utf8_error env k true) eqn:E; [discriminate|]. cbn [snd].
    destruct (snd (each_item (write_element_allow_id env fuel) ck 0 items [])) as [d|x];
      [|discriminate].
    intros H. inversion H. eexists x04, _.
    split; [reflexivity|]. split; [|now apply utf8_error_no_nul in E].
    unfold zero. list_norm. reflexivity.
  - (* code with scope *)
    rewrite write_value_code_eq.
    destruct (utf8_error env k true) eqn:E; [discriminate|]. cbn [snd].
    destruct (snd (write_doc env fuel [] klass scope false false)) as [d|x]; [|discriminate].
    intros H. inversion H. eexists x0f, _.
    split; [reflexivity|]. split; [|now apply utf8_error_no_nul in E].
    unfold zero. list_norm. reflexivity.
  - (* DBRef *)
    rewrite write_value_dbref_eq.
    destruct (utf8_error env k true) eqn:E; [discriminate|]. cbv zeta.
    destruct (snd (write_element_allow_id env fuel (RString (str "$ref")) ns []
                     false false)) as [e1|x]; [|discriminate].
    cbn [snd].
    destruct (snd (write_element_allow_id env fuel (RString (str "$id")) oid []
                     false false)) as [e2|x]; [|discriminate].
    intros H. inversion H. eexists x03, _.
    split; [reflexivity|]. split; [|now apply utf8_error_no_nul in E].
    unfold zero. list_norm. reflexivity.
  - (* max key *)
    cbn [write_value snd type_byte]. rewrite write_name_and_type_eq.
    destruct (utf8_error env k true) eqn:E; [discriminate|]. intros H. inversion H.
    exists x7f, []. split; [reflexivity|]. split; [|now apply utf8_error_no_nul in E].
    unfold zero. now list_norm.
  - (* min key *)
    cbn [write_value snd type_byte]. rewrite write_name_and_type_eq.
    destruct (utf8_error env k true) eqn:E; [discriminate|]. intros H. inversion H.
    exists xff, []. split; [reflexivity|]. split; [|now apply utf8_error_no_nul in E].
    unfold zero. now list_norm.
Qed.

(** X6. An element that [write_element_allow_id] writes is the type byte of
    the value's class, the key without any NUL byte, a NUL byte and the
    payload, after what the buffer held; the type byte is one that
    [get_value] has a case for. The one call that returns without writing is
    that for a key "_id" when allow_id is off. *)
Theorem X6_element_shape (env : platform) (fuel : nat) (key : VALUE) (k : bytes)
    (value v' : VALUE) (b : buffer_t) (ck a : bool) (out : bytes) :
  key_string key = Some k ->
  write_element_allow_id env fuel key value b ck a = (v', Done out) ->
  (negb a && id_like key = true /\ out = b)
  \/ (negb a && id_like key = false
      /\ exists t payload,
           type_byte value = Some t
           /\ out = b ++ t :: k ++ x00 :: payload
           /\ no_nul k
           /\ known_type (char_to_int t) = true).
Proof.
  intros Hk H. rewrite (write_element_allow_id_indep env fuel key value ck a b) in H.
  inversion H as [[Hv Ho]]. clear H Hv.
  destruct fuel as [|fuel]; [discriminate|].
  rewrite write_element_allow_id_S, Hk in Ho.
  destruct (negb a && id_like key).
  - left. cbn in Ho. inversion Ho. split; [reflexivity|]. now rewrite app_nil_r.
  - right. split; [reflexivity|].
    destruct (if ck then check_key k else None); [discriminate|].
    destruct (snd (write_value env (write_element_allow_id env fuel) k value [] ck))
      as [e|x] eqn:E; [|discriminate].
    cbn [appo] in Ho. inversion Ho.
    destruct (write_value_shape env fuel k value ck e E) as [t [p [Ht [-> Hn]]]].
    exists t, p. repeat split; try assumption. now apply (type_byte_known value).
Qed.

Lemma X6_element_shape_witness :
  (negb false && id_like (RSymbol (str "n")) = true
   /\ str "ab" ++ x12 :: str "n" ++ x00 :: le_split 8 5000000000 = str "ab")
  \/ (negb false && id_like (RSymbol (str "n")) = false
      /\ exists t payload,
           type_byte (RInteger 5000000000) = Some t
           /\ str "ab" ++ x12 :: str "n" ++ x00 :: le_split 8 5000000000
              = str "ab" ++ t :: str "n" ++ x00 :: payload
           /\ no_nul (str "n")
           /\ known_type (char_to_int t) = true).
Proof.
  apply (X6_element_shape ruby19 1 (RSymbol (str "n")) (str "n") (RInteger 5000000000)
           (RInteger 5000000000) (str "ab") true false).
  - reflexivity.
  - reflexivity.
Defined.

(** ** Containers as documents *)

Lemma allow_id_irrelevant (env : platform) (fuel : nat) (key value : VALUE) (b : buffer_t)
    (ck a a' : bool) :
  id_like key = false ->
  write_element_allow_id env fuel key value b ck a
  = write_element_allow_id env fuel key value b ck a'.
Proof.
  intros Hk. destruct fuel as [|fuel]; [reflexivity|].
  rewrite !write_element_allow_id_S, Hk, !andb_false_r. reflexivity.
Qed.

Lemma index_keys_strings (i : nat) (items : list VALUE) :
  forallb (fun e => is_string_key (fst e)) (index_keys i items) = true.
Proof. revert i. induction items as [|v rest IH]; intros i; cbn; auto. Qed.

Lemma index_keys_no_id (i : nat) (items : list VALUE) :
  has_key (index_keys i items) id_str = false.
Proof.
  revert i. induction items as [|v rest IH]; intros i; [reflexivity|].
  cbn [index_keys has_key existsb fst]. fold (has_key (index_keys (S i) rest) id_str).
  rewrite IH, orb_false_r.
  destruct (key_eql (RString (INT2STRING i)) id_str) eqn:E; [|reflexivity].
  apply key_eql_id_str_like in E.
  now rewrite (digits_not_id _ (INT2STRING_digits i)) in E.
Qed.

Lemma each_item_as_pairs (env : platform) (fuel : nat) (ck : bool) (items : list VALUE)
    (i : nat) (b : buffer_t) :
  snd (each_item (write_element_allow_id env fuel) ck i items b)
  = snd (each_pair (write_element_allow_id env fuel) ck true (index_keys i items) b).
Proof.
  revert i b. induction items as [|v rest IH]; intros i b; [reflexivity|].
  cbn [each_item each_pair index_keys].
  rewrite (allow_id_irrelevant env fuel (RString (INT2STRING i)) v b ck false true)
    by (apply digits_not_id, INT2STRING_digits).
  destruct (write_element_allow_id env fuel (RString (INT2STRING i)) v b ck true)
    as [v' [b'|x]]; [|reflexivity].
  specialize (IH (S i) b').
  destruct (each_item (write_element_allow_id env fuel) ck (S i) rest b').
  destruct (each_pair (write_element_allow_id env fuel) ck true (index_keys (S i) rest) b').
  exact IH.
Qed.

(** X7. An array is written as the document that holds its items under the
    keys "0", "1", ... in decimal, with the type byte 4 in place of 3: when
    that document is written as an element, the array is written with the
    same bytes after the type byte. The array has no test of its own for the
    size, so it is also written where the document is too large. *)
Theorem X7_array_as_document (env : platform) (fuel : nat) (k : bytes)
    (items : list VALUE) (b : buffer_t) (ck : bool) :
  (forall out,
     snd (write_value env (write_element_allow_id env fuel) k
            (RHash OrderedHash (index_keys 0 items)) b ck) = Done out ->
     exists rest,
       out = b ++ x03 :: rest
       /\ snd (write_value env (write_element_allow_id env fuel) k (RArray items) b ck)
          = Done (b ++ x04 :: rest))
  /\ (forall out,
     snd (write_value env (write_element_allow_id env fuel) k (RArray items) b ck)
     = Done out ->
     exists rest,
       out = b ++ x04 :: rest
       /\ (snd (write_value env (write_element_allow_id env fuel) k
                  (RHash OrderedHash (index_keys 0 items)) b ck) = Done (b ++ x03 :: rest)
           \/ snd (write_value env (write_element_allow_id env fuel) k
                     (RHash OrderedHash (index_keys 0 items)) b ck)
              = Raise InvalidDocument_too_large)).
Proof.
  rewrite write_value_hash_eq, write_value_array_eq, write_doc_eq.
  unfold write_doc_elements.
  rewrite index_keys_no_id. cbn [andb].
  rewrite <- each_item_as_pairs.
  destruct (utf8_error env k true); [split; intros out H; discriminate|].
  cbn [snd].
  destruct (snd (each_item (write_element_allow_id env fuel) ck 0 items [])) as [e|x];
    [|split; intros out H; discriminate].
  split; intros out H.
  - destruct (MAX_DOC <? len e + 5); [discriminate|]. cbn [appo] in H. inversion H.
    exists (k ++ zero ++ le_split 4 (len e + 5) ++ e ++ zero).
    split; [now list_norm|reflexivity].
  - inversion H. exists (k ++ zero ++ le_split 4 (len e + 5) ++ e ++ zero).
    split; [reflexivity|].
    destruct (MAX_DOC <? len e + 5); [now right|left].
    cbn [appo]. now list_norm.
Qed.

Lemma X7_array_as_document_witness :
  exists rest,
    str "ab" ++ x03 :: str "k" ++ x00 :: le_split 4 12 ++ x10 :: str "0" ++ x00
      :: le_split 4 7 ++ [x00]
    = str "ab" ++ x03 :: rest
    /\ snd (write_value ruby19 (write_element_allow_id ruby19 1) (str "k")
              (RArray [RInteger 7]) (str "ab") false)
       = Done (str "ab" ++ x04 :: rest).
Proof.
  apply (proj1 (X7_array_as_document ruby19 1 (str "k") [RInteger 7] (str "ab") false)).
  reflexivity.
Defined.

(** X8. A DBRef is written as the document with the keys "$ref" and "$id"
    is written with check_keys off: when that document is written as an
    element, the DBRef is written with the same bytes, whatever check_keys
    is for the DBRef. The DBRef has no test of its own for the size, so it
    is also written where the document is too large. *)
Theorem X8_dbref_as_document (env : platform) (fuel : nat) (k : bytes) (ns oid : VALUE)
    (b : buffer_t) (ck : bool) :
  (forall out,
     snd (write_value env (write_element_allow_id env fuel) k
            (RHash OrderedHash (dbref_doc ns oid)) b false) = Done out ->
     snd (write_value env (write_element_allow_id env fuel) k (RDBRef ns oid) b ck)
     = Done out)
  /\ (forall out,
     snd (write_value env (write_element_allow_id env fuel) k (RDBRef ns oid) b ck)
     = Done out ->
     snd (write_value env (write_element_allow_id env fuel) k
            (RHash OrderedHash (dbref_doc ns oid)) b false) = Done out
     \/ snd (write_value env (write_element_allow_id env fuel) k
               (RHash OrderedHash (dbref_doc ns oid)) b false)
        = Raise InvalidDocument_too_large).
Proof.
  rewrite write_value_hash_eq, write_value_dbref_eq, write_doc_eq.
  unfold write_doc_elements, dbref_doc.
  replace (has_key [(RString (str "$ref"), ns); (RString (str "$id"), oid)] id_str
           && has_key [(RString (str "$ref"), ns); (RString (str "$id"), oid)] id_sym)
    with false by reflexivity.
  cbn [each_pair]. cbv zeta.
  rewrite (allow_id_irrelevant env fuel (RString (str "$ref")) ns [] false true false)
    by reflexivity.
  destruct (utf8_error env k true); [split; intros out H; discriminate|].
  destruct (write_element_allow_id env fuel (RString (str "$ref")) ns [] false false)
    as [ns' [e1|x]]; cbn [fst snd]; [|split; intros out H; discriminate].
  rewrite (allow_id_irrelevant env fuel (RString (str "$id")) oid e1 false true false)
    by reflexivity.
  rewrite (write_element_allow_id_indep env fuel (RString (str "$id")) oid false false e1).
  destruct (write_element_allow_id env fuel (RString (str "$id")) oid [] false false)
    as [oid' [e2|x]]; cbn [fst snd appo]; [|split; intros out H; discriminate].
  split; intros out H.
  - destruct (MAX_DOC <? len (e1 ++ e2) + 5); [discriminate|]. cbn [appo] in H.
    rewrite <- H. f_equal. now list_norm.
  - destruct (MAX_DOC <? len (e1 ++ e2) + 5); [now right|left].
    cbn [appo]. rewrite <- H. f_equal. now list_norm.
Qed.

Lemma X8_dbref_as_document_witness :
  snd (write_value ruby19 (write_element_allow_id ruby19 1) (str "k")
         (RDBRef (RString (str "c")) (RInteger 1)) [] true)
  = Done (x03 :: str "k" ++ x00 :: le_split 4 26
          ++ x02 :: str "$ref" ++ x00 :: le_split 4 2 ++ str "c" ++ x00
          :: x10 :: str "$id" ++ x00 :: le_split 4 1 ++ [x00]).
Proof.
  apply (proj1 (X8_dbref_as_document ruby19 1 (str "k") (RString (str "c")) (RInteger 1)
                  [] true)).
  reflexivity.
Defined.

(** X9. An embedded document is written as its key followed by the very
    bytes that [method_serialize] returns for it, called with the same
    check_keys and without move_id; the document that the call leaves is
    the one that [method_serialize] leaves. *)
Theorem X9_embedded_document (env : platform) (fuel : nat) (k : bytes) (klass : hash_class)
    (h h' : entries_t) (b : buffer_t) (ck : bool) (d : bytes) :
  (hash_depth h < fuel)%nat ->
  utf8_error env k true = None ->
  method_serialize env klass h ck false = (h', Done d) ->
  write_value env (write_element_allow_id env fuel) k (RHash klass h) b ck
  = (RHash klass h', Done (b ++ x03 :: k ++ x00 :: d)).
Proof.
  intros Hf Hk Hs. rewrite write_value_hash_eq, Hk.
  rewrite (method_serialize_fuel env klass h ck false fuel) by lia.
  rewrite Hs. cbn [fst snd appo]. unfold zero. now list_norm.
Qed.

Lemma X9_embedded_document_witness :
  write_value ruby19 (write_element_allow_id ruby19 2) (str "k")
    (RHash OrderedHash [(RString (str "a"), RInteger 1)]) (str "ab") true
  = (RHash OrderedHash [(RString (str "a"), RInteger 1)],
     Done (str "ab" ++ x03 :: str "k" ++ x00
           :: le_split 4 12 ++ x10 :: str "a" ++ x00 :: le_split 4 1 ++ [x00])).
Proof.
  apply (X9_embedded_document ruby19 2 (str "k") OrderedHash
           [(RString (str "a"), RInteger 1)] [(RString (str "a"), RInteger 1)]
           (str "ab") true).
  - simpl. lia.
  - reflexivity.
  - reflexivity.
Defined.

(** ** Reading documents *)

(** A document whose elements are those of [doc] is read as [doc], whatever
    its first four bytes. *)
Lemma read_document (hdr : bytes) (doc : entries_t) (parts : list bytes) (fuel : nat) :
  length hdr = 4%nat ->
  Forall2 pair_element doc parts ->
  distinct_keys doc = true ->
  (entries_dsize doc <= fuel)%nat ->
  method_deserialize fuel (hdr ++ concat parts ++ [x00]) = Value doc.
Proof.
  intros Hh HF Hd Hfuel. unfold method_deserialize, elements_to_hash.
  assert (Hl : len hdr = 4) by (unfold len; now rewrite Hh).
  replace (len (hdr ++ concat parts ++ [x00]) - 5) with (0 + len (concat parts))
    by (len_simpl; lia).
  rewrite (elements_loop_reads doc parts HF fuel _ 0 [] []); try assumption.
  - reflexivity.
  - rewrite from_ptr_add. unfold from. cbn [mem off].
    rewrite (proj2 (andb_true_iff _ _)).
    + change (Z.to_nat (0 + (4 + 0))) with 4%nat. rewrite <- Hh.
      now rewrite List.skipn_app_r.
    + split; apply Z.leb_le; [lia|]. len_simpl. pose proof (len_nonneg (concat parts)). lia.
  - intros p _. reflexivity.
Qed.

(** The elements of a canonical document that was written. *)
Lemma serialize_parts (env : platform) (doc : entries_t) (ck : bool) (out : bytes) :
  canonical_doc env doc = true ->
  snd (method_serialize env OrderedHash doc ck false) = Done out ->
  exists parts,
    out = le_split 4 (len (concat parts) + 5) ++ concat parts ++ [x00]
    /\ Forall2 pair_element doc parts
    /\ distinct_keys doc = true.
Proof.
  unfold canonical_doc, method_serialize. intros Hc Hw.
  apply andb_true_iff in Hc. destruct Hc as [Hs Hc].
  destruct (write_doc env (S (hash_depth doc)) [] OrderedHash doc ck false) as [h' o] eqn:E.
  cbn [snd] in Hw. subst o.
  assert (Hlen : len out < 2 ^ 31).
  { destruct (write_doc_Done _ _ _ _ _ _ _ _ _ E) as [body [_ [-> Hmax]]].
    rewrite app_nil_l. unfold zero. len_simpl. rewrite MAX_DOC_value in Hmax.
    pows. lia. }
  apply (doc_written env _ (element_of_written env _)) in E; try assumption.
  destruct E as [parts [-> [_ [HF Hd]]]]. exists parts.
  split; [reflexivity|]. split; assumption.
Qed.

(** X10. [method_deserialize] makes no use of the length at the start of
    the document: the bytes of a canonical document that was written are read
    back as the document when any four bytes stand in place of the length. *)
Theorem X10_length_prefix_not_read (env : platform) (doc h' : entries_t) (ck : bool)
    (out hdr : bytes) :
  canonical_doc env doc = true ->
  method_serialize env OrderedHash doc ck false = (h', Done out) ->
  length hdr = 4%nat ->
  exists n, forall fuel, (n <= fuel)%nat ->
    method_deserialize fuel (hdr ++ skipn 4 out) = Value doc.
Proof.
  intros Hc Hw Hh.
  destruct (serialize_parts env doc ck out Hc) as [parts [-> [HF Hd]]];
    [now rewrite Hw|].
  exists (entries_dsize doc). intros fuel Hfuel.
  rewrite List.skipn_app_r by (now rewrite length_le_split).
  now apply read_document.
Qed.

Lemma X10_length_prefix_not_read_witness :
  exists n, forall fuel, (n <= fuel)%nat ->
    method_deserialize fuel
      (str "abcd" ++ skipn 4 (le_split 4 12 ++ x10 :: str "a" ++ x00 :: le_split 4 1 ++ [x00]))
    = Value [(RString (str "a"), RInteger 1)].
Proof.
  apply (X10_length_prefix_not_read ruby19 [(RString (str "a"), RInteger 1)]
           [(RString (str "a"), RInteger 1)] false).
  - reflexivity.
  - reflexivity.
  - reflexivity.
Defined.

Lemma decode_one (hdr k : bytes) (t : byte) (payload : bytes) (v : VALUE) (fuel : nat) :
  length hdr = 4%nat ->
  no_nul k ->
  t <> "$"%byte ->
  decodes t payload v ->
  (S (S (dsize v)) <= fuel)%nat ->
  method_deserialize fuel (hdr ++ t :: k ++ x00 :: payload ++ [x00])
  = Value [(RString k, v)].
Proof.
  intros Hh Hk Ht Hd Hfuel.
  replace (t :: k ++ x00 :: payload ++ [x00])
    with (concat [t :: k ++ x00 :: payload] ++ [x00])
    by (cbn [concat]; rewrite app_nil_r; now list_norm).
  apply read_document; try assumption.
  - constructor; [|constructor]. exists k. split; [reflexivity|].
    now apply (element_intro k v t payload).
  - reflexivity.
  - unfold entries_dsize. cbn [fold_right snd]. lia.
Qed.

Lemma undefined_decodes : decodes x06 [] RNil.
Proof.
  start_decode. change (char_to_int x06) with 6. cbn [get_value].
  now rewrite len_nil, Z.add_0_r.
Qed.

Lemma true_decodes (c : byte) : c <> x00 -> decodes x08 [c] RTrue.
Proof.
  intros Hc. start_decode. change (char_to_int x08) with 8. cbn [get_value].
  rewrite (peek_at buffer position c rest) by assumption. cbn [bindd].
  unfold is_nul. destruct (Byte.eqb c x00) eqn:E; [|reflexivity].
  apply byte_dec_bl in E. contradiction.
Qed.

Lemma code_decodes (s : bytes) :
  len s + 1 < 2 ^ 31 -> decodes x0d (le_split 4 (len s + 1) ++ s ++ [x00]) (RString s).
Proof.
  intros Hlen. start_decode. change (char_to_int x0d) with 13. cbn [get_value].
  pose proof (len_nonneg s). rewrite <- app_assoc in Hfrom.
  rewrite (read_int_at buffer position (len s + 1) _ Hfrom) by (pows; lia).
  cbn [bindd]. replace (len s + 1 - 1) with (len s) by lia.
  apply from_shift in Hfrom. rewrite len_le_split_4 in Hfrom. rewrite <- app_assoc in Hfrom.
  rewrite (STR_NEW_at buffer _ s _ Hfrom). cbn [bindd].
  f_equal. f_equal. len_simpl. lia.
Qed.

Lemma timestamp_decodes (i j : Z) :
  - 2 ^ 31 <= i < 2 ^ 31 -> - 2 ^ 31 <= j < 2 ^ 31 ->
  decodes x11 (le_split 4 i ++ le_split 4 j) (RArray [RInteger i; RInteger j]).
Proof.
  intros Hi Hj. start_decode. change (char_to_int x11) with 17. cbn [get_value].
  rewrite <- app_assoc in Hfrom.
  rewrite (read_int_at buffer position i _ Hfrom) by assumption. cbn [bindd].
  apply from_shift in Hfrom. rewrite len_le_split_4 in Hfrom.
  rewrite (read_int_at buffer (position + 4) j _ Hfrom) by assumption. cbn [bindd].
  reflexivity.
Qed.

Lemma dbpointer_decodes (ns oid : bytes) :
  len ns + 1 < 2 ^ 31 -> length oid = 12%nat ->
  decodes x0c (le_split 4 (len ns + 1) ++ ns ++ x00 :: oid)
    (RDBRef (RString ns) (RObjectID (unpack_C oid))).
Proof.
  intros Hlen Ho. start_decode. change (char_to_int x0c) with 12. cbn [get_value].
  pose proof (len_nonneg ns). rewrite <- app_assoc in Hfrom.
  rewrite (read_int_at buffer position (len ns + 1) _ Hfrom) by (pows; lia).
  cbn [bindd]. replace (len ns + 1 - 1) with (len ns) by lia.
  apply from_shift in Hfrom. rewrite len_le_split_4 in Hfrom. rewrite <- app_assoc in Hfrom.
  rewrite (STR_NEW_at buffer _ ns _ Hfrom). cbn [bindd].
  apply from_shift in Hfrom. cbn [app] in Hfrom. apply from_shift1 in Hfrom.
  assert (Hl : len oid = 12) by (unfold len; now rewrite Ho).
  replace (position + 4 + (len ns + 1)) with (position + 4 + len ns + 1) by lia.
  rewrite <- Hl at 1. rewrite (read_bytes_at buffer _ oid rest Hfrom). cbn [bindd].
  f_equal. f_equal. len_simpl. lia.
Qed.

(** X11. The types that only the reader knows. In a document with one
    element under the key [k]: type 6 (undefined) is read as nil, type 13
    (code without scope) as the string of the code, type 12 (a pointer) as a
    DBRef to the ObjectID of its twelve bytes, type 17 (a timestamp) as the
    array of its two 32-bit numbers, and a boolean with any byte other than
    0 as true. *)
Theorem X11_reader_only_types (hdr k : bytes) (fuel : nat) :
  length hdr = 4%nat ->
  no_nul k ->
  (8 <= fuel)%nat ->
  method_deserialize fuel (hdr ++ x06 :: k ++ x00 :: [] ++ [x00]) = Value [(RString k, RNil)]
  /\ (forall s,
        len s + 1 < 2 ^ 31 ->
        method_deserialize fuel
          (hdr ++ x0d :: k ++ x00 :: (le_split 4 (len s + 1) ++ s ++ [x00]) ++ [x00])
        = Value [(RString k, RString s)])
  /\ (forall ns oid,
        len ns + 1 < 2 ^ 31 -> length oid = 12%nat ->
        method_deserialize fuel
          (hdr ++ x0c :: k ++ x00 :: (le_split 4 (len ns + 1) ++ ns ++ x00 :: oid) ++ [x00])
        = Value [(RString k, RDBRef (RString ns) (RObjectID (unpack_C oid)))])
  /\ (forall i j,
        - 2 ^ 31 <= i < 2 ^ 31 -> - 2 ^ 31 <= j < 2 ^ 31 ->
        method_deserialize fuel
          (hdr ++ x11 :: k ++ x00 :: (le_split 4 i ++ le_split 4 j) ++ [x00])
        = Value [(RString k, RArray [RInteger i; RInteger j])])
  /\ (forall c,
        c <> x00 ->
        method_deserialize fuel (hdr ++ x08 :: k ++ x00 :: [c] ++ [x00])
        = Value [(RString k, RTrue)]).
Proof.
  intros Hh Hk Hfuel.
  split; [apply decode_one; try assumption; [discriminate|apply undefined_decodes|cbn; lia]|].
  split.
  { intros s Hs. apply decode_one; try assumption;
      [discriminate|now apply code_decodes|cbn; lia]. }
  split.
  { intros ns oid Hn Ho. apply decode_one; try assumption;
      [discriminate|now apply dbpointer_decodes|cbn; lia]. }
  split.
  { intros i j Hi Hj. apply decode_one; try assumption;
      [discriminate|now apply timestamp_decodes]. }
  intros c Hc. apply decode_one; try assumption;
    [discriminate|now apply true_decodes|cbn; lia].
Qed.

Lemma X11_reader_only_types_witness :
  method_deserialize 8 (le_split 4 8 ++ x06 :: str "u" ++ x00 :: [] ++ [x00])
  = Value [(RString (str "u"), RNil)]
  /\ method_deserialize 8 (le_split 4 9 ++ x08 :: str "u" ++ x00 :: [x07] ++ [x00])
     = Value [(RString (str "u"), RTrue)].
Proof.
  split.
  - apply (proj1 (X11_reader_only_types (le_split 4 8) (str "u") 8
                    eq_refl eq_refl (le_n 8))).
  - apply (proj2 (proj2 (proj2 (proj2 (X11_reader_only_types (le_split 4 9) (str "u") 8
                    eq_refl eq_refl (le_n 8)))))).
    discriminate.
Defined.

(** ** Reading what was written with move_id *)

Lemma forallb_filter_keep {A : Type} (P f : A -> bool) (l : list A) :
  forallb P l = true -> forallb P (filter f l) = true.
Proof.
  induction l as [|x l IH]; [reflexivity|]. cbn [forallb filter].
  intros H. apply andb_true_iff in H. destruct H as [H1 H2].
  destruct (f x); cbn [forallb]; [rewrite H1|]; auto.
Qed.

Lemma has_key_filter_false (f : VALUE * VALUE -> bool) (hash : entries_t) (key : VALUE) :
  has_key hash key = false -> has_key (filter f hash) key = false.
Proof.
  unfold has_key. induction hash as [|p rest IH]; [reflexivity|]. cbn [existsb filter].
  intros H. apply orb_false_iff in H. destruct H as [H1 H2].
  destruct (f p); cbn [existsb]; [rewrite H1|]; auto.
Qed.

Lemma distinct_keys_filter (f : VALUE * VALUE -> bool) (hash : entries_t) :
  distinct_keys hash = true -> distinct_keys (filter f hash) = true.
Proof.
  induction hash as [|[k v] rest IH]; [reflexivity|]. cbn [distinct_keys filter].
  intros H. apply andb_true_iff in H. destruct H as [H1 H2].
  destruct (f (k, v)); cbn [distinct_keys]; [|auto].
  apply negb_true_iff in H1. rewrite (has_key_filter_false f rest k H1). cbn [negb andb].
  auto.
Qed.

Lemma canonical_aref (env : platform) (hash : entries_t) (key : VALUE) :
  forallb (fun e => canonical env (snd e)) hash = true ->
  canonical env (rb_hash_aref hash key) = true.
Proof.
  induction hash as [|[k v] rest IH]; cbn; [reflexivity|].
  intros H. apply andb_true_iff in H. destruct H as [H1 H2].
  destruct (key_eql k key); auto.
Qed.

Lemma hash_depth_filter (f : VALUE * VALUE -> bool) (hash : entries_t) :
  (hash_depth (filter f hash) <= hash_depth hash)%nat.
Proof.
  induction hash as [|[k v] rest IH]; [apply Nat.le_refl|].
  cbn [filter].
  change (hash_depth ((k, v) :: rest)) with (Nat.max (depth v) (hash_depth rest)).
  destruct (f (k, v)); [|lia].
  change (hash_depth ((k, v) :: ?r)) with (Nat.max (depth v) (hash_depth r)). lia.
Qed.

Lemma hash_depth_id_first (hash : entries_t) :
  (hash_depth (id_first hash) <= hash_depth hash)%nat.
Proof.
  unfold id_first.
  pose proof (hash_depth_filter (fun e => negb (id_like (fst e))) hash) as Hf.
  destruct (has_key hash id_str) eqn:E1.
  - pose proof (depth_aref hash id_str E1).
    change (hash_depth ((id_str, ?v) :: ?r)) with (Nat.max (depth v) (hash_depth r)). lia.
  - destruct (has_key hash id_sym) eqn:E2; [|exact Hf].
    pose proof (depth_aref hash id_sym E2).
    change (hash_depth ((id_sym, ?v) :: ?r)) with (Nat.max (depth v) (hash_depth r)). lia.
Qed.

Lemma canonical_id_first (env : platform) (doc : entries_t) :
  canonical_doc env doc = true -> canonical_doc env (id_first doc) = true.
Proof.
  unfold canonical_doc, string_keys. intros H.
  apply andb_true_iff in H. destruct H as [H Hc].
  apply andb_true_iff in H. destruct H as [Hs Hd].
  unfold id_first. rewrite (string_keys_no_sym doc Hs).
  pose proof (forallb_filter_keep (fun e => is_string_key (fst e))
                (fun e => negb (id_like (fst e))) doc Hs) as Hs'.
  pose proof (forallb_filter_keep (fun e => canonical env (snd e))
                (fun e => negb (id_like (fst e))) doc Hc) as Hc'.
  pose proof (distinct_keys_filter (fun e => negb (id_like (fst e))) doc Hd) as Hd'.
  destruct (has_key doc id_str).
  - cbn [forallb distinct_keys fst snd is_string_key id_str].
    fold id_str. rewrite Hs', Hd', Hc'.
    rewrite (has_key_filter_id doc id_str key_eql_id_str_like).
    now rewrite (canonical_aref env doc id_str Hc).
  - now rewrite Hs', Hd', Hc'.
Qed.

Lemma write_doc_move_id (env : platform) (fuel : nat) (b : buffer_t) (hash : entries_t)
    (ck : bool) :
  snd (write_doc env (S fuel) b OrderedHash hash ck true)
  = snd (write_doc env (S fuel) b OrderedHash (id_first hash) ck false).
Proof.
  rewrite !write_doc_eq. cbn [snd]. now rewrite write_doc_elements_move_id.
Qed.

(** X12. A canonical document that is written with move_id is read back as
    [id_first] of the document: its "_id" entry first, then its other
    entries in their order, without those whose key reads "_id" as a C
    string (such as "_id" followed by a NUL byte and more), which the
    traversal skips. *)
Theorem X12_round_trip_move_id (env : platform) (doc h' : entries_t) (ck : bool)
    (out : bytes) :
  canonical_doc env doc = true ->
  method_serialize env OrderedHash doc ck true = (h', Done out) ->
  exists n, forall fuel, (n <= fuel)%nat ->
    method_deserialize fuel out = Value (id_first doc).
Proof.
  intros Hc Hw. apply canonical_id_first in Hc.
  assert (Hs : snd (method_serialize env OrderedHash (id_first doc) ck false) = Done out).
  { rewrite <- (method_serialize_fuel env OrderedHash (id_first doc) ck false
                  (S (hash_depth doc)))
      by (pose proof (hash_depth_id_first doc); lia).
    rewrite <- write_doc_move_id. unfold method_serialize in Hw. now rewrite Hw. }
  destruct (serialize_parts env (id_first doc) ck out Hc Hs) as [parts [-> [HF Hd]]].
  exists (entries_dsize (id_first doc)). intros fuel Hfuel.
  apply read_document; try assumption. apply length_le_split.
Qed.

Lemma X12_round_trip_move_id_witness :
  exists n, forall fuel, (n <= fuel)%nat ->
    method_deserialize fuel
      (le_split 4 21 ++ x10 :: str "_id" ++ x00 :: le_split 4 2
       ++ x10 :: str "a" ++ x00 :: le_split 4 1 ++ [x00])
    = Value [(RString (str "_id"), RInteger 2); (RString (str "a"), RInteger 1)].
Proof.
  apply (X12_round_trip_move_id ruby19
           [(RString (str "a"), RInteger 1); (RString (str "_id"), RInteger 2)]
           [(RString (str "a"), RInteger 1); (RString (str "_id"), RInteger 2)] false).
  - reflexivity.
  - reflexivity.
Defined.

Lemma each_pair_allow_id (env : platform) (fuel : nat) (ck a a' : bool) (hash : entries_t)
    (b : buffer_t) :
  forallb (fun e => negb (id_like (fst e))) hash = true ->
  each_pair (write_element_allow_id env fuel) ck a hash b
  = each_pair (write_element_allow_id env fuel) ck a' hash b.
Proof.
  revert b. induction hash as [|[k v] rest IH]; intros b H; [reflexivity|].
  cbn [forallb fst] in H. apply andb_true_iff in H. destruct H as [H1 H2].
  apply negb_true_iff in H1. cbn [each_pair].
  rewrite (allow_id_irrelevant env fuel k v b ck a a' H1).
  destruct (write_element_allow_id env fuel k v b ck a') as [v' [b'|x]]; [|reflexivity].
  now rewrite (IH b' H2).
Qed.

Lemma no_id_like_has_key (hash : entries_t) (key : VALUE) :
  (forall k, key_eql k key = true -> id_like k = true) ->
  forallb (fun e => negb (id_like (fst e))) hash = true ->
  has_key hash key = false.
Proof.
  intros Hk. induction hash as [|[k v] rest IH]; [reflexivity|].
  cbn [forallb fst]. intros H. apply andb_true_iff in H. destruct H as [H1 H2].
  cbn [has_key existsb fst]. fold (has_key rest key). rewrite (IH H2), orb_false_r.
  destruct (key_eql k key) eqn:E; [|reflexivity].
  apply Hk in E. now rewrite E in H1.
Qed.

(** X13. move_id matters only for a document that has an "_id" key: when
    no key of the document reads "_id" as a C string, the call with move_id
    and the call without it return the same bytes or raise the same
    exception, and leave the same document. *)
Theorem X13_move_id_without_id (env : platform) (klass : hash_class) (doc : entries_t)
    (ck : bool) :
  forallb (fun e => negb (id_like (fst e))) doc = true ->
  method_serialize env klass doc ck true = method_serialize env klass doc ck false.
Proof.
  intros H. unfold method_serialize, write_doc, write_doc_gen, write_doc_elements.
  rewrite (no_id_like_has_key doc id_str key_eql_id_str_like H).
  rewrite (no_id_like_has_key doc id_sym key_eql_id_sym_like H).
  cbn [andb buffer_save_space].
  destruct klass; [|reflexivity].
  now rewrite (each_pair_allow_id env _ ck false true doc _ H).
Qed.

Lemma X13_move_id_without_id_witness :
  method_serialize ruby19 OrderedHash [(RString (str "a"), RInteger 1)] true true
  = method_serialize ruby19 OrderedHash [(RString (str "a"), RInteger 1)] true false.
Proof.
  apply (X13_move_id_without_id ruby19 OrderedHash [(RString (str "a"), RInteger 1)] true).
  reflexivity.
Defined.

(** ** The regex flags that the reader keeps *)

Lemma lor_flag_bound (flags mask : Z) :
  0 <= flags <= 7 -> mask = 1 \/ mask = 2 \/ mask = 4 -> 0 <= Z.lor flags mask <= 7.
Proof.
  intros Hf Hm.
  assert (E : flags = 0 \/ flags = 1 \/ flags = 2 \/ flags = 3 \/ flags = 4 \/ flags = 5
              \/ flags = 6 \/ flags = 7) by lia.
  destruct Hm as [->|[->| ->]];
    repeat (destruct E as [->|E]; [cbn; lia|]); subst; cbn; lia.
Qed.

Lemma regex_flags_invariant (chars : bytes) :
  forall flags extra,
    0 <= flags <= 7 ->
    len extra <= 9 ->
    forallb (fun c => negb (engine_flag c)) extra = true ->
    0 <= fst (regex_flags chars flags extra) <= 7
    /\ len (snd (regex_flags chars flags extra)) <= 9
    /\ forallb (fun c => negb (engine_flag c)) (snd (regex_flags chars flags extra)) = true.
Proof.
  induction chars as [|c rest IH]; intros flags extra Hf Hl He; [cbn; auto|].
  cbn [regex_flags].
  destruct (Byte.eqb c "i") eqn:Ei;
    [apply IH; try assumption; apply lor_flag_bound; [assumption|now left]|].
  destruct (Byte.eqb c "m") eqn:Em;
    [apply IH; try assumption; apply lor_flag_bound; [assumption|right; now right]|].
  destruct (Byte.eqb c "x") eqn:Ex;
    [apply IH; try assumption; apply lor_flag_bound; [assumption|right; now left]|].
  destruct (len extra <? 9) eqn:E9; [|now apply IH].
  apply Z.ltb_lt in E9. apply IH; [assumption| |].
  - rewrite len_app, len_cons, len_nil. lia.
  - rewrite forallb_app, He. cbn [forallb]. unfold engine_flag. now rewrite Ei, Em, Ex.
Qed.

Lemma regex_flags_keeps_nine (chars : bytes) :
  forall flags extra,
    (length extra <= 9)%nat ->
    forallb (fun c => negb (engine_flag c)) chars = true ->
    regex_flags chars flags extra = (flags, extra ++ firstn (9 - length extra) chars).
Proof.
  induction chars as [|c rest IH]; intros flags extra Hl Hc.
  - cbn [regex_flags]. now rewrite firstn_nil, app_nil_r.
  - cbn [forallb] in Hc. apply andb_true_iff in Hc. destruct Hc as [Hc Hr].
    unfold engine_flag in Hc. apply negb_true_iff in Hc.
    apply orb_false_iff in Hc. destruct Hc as [Hc Hx].
    apply orb_false_iff in Hc. destruct Hc as [Hi Hm].
    cbn [regex_flags]. rewrite Hi, Hm, Hx.
    destruct (len extra <? 9) eqn:E9.
    + apply Z.ltb_lt in E9. unfold len in E9.
      rewrite IH by (try assumption; rewrite length_app; cbn [length]; lia).
      rewrite length_app. cbn [length].
      replace (9 - length extra)%nat with (S (9 - (length extra + 1))) by lia.
      cbn [firstn]. now rewrite <- app_assoc.
    + apply Z.ltb_ge in E9. unfold len in E9.
      rewrite IH by assumption.
      now replace (9 - length extra)%nat with 0%nat by lia.
Qed.

Lemma byte_eqb_true (c d : byte) : Byte.eqb c d = true -> c = d.
Proof. apply byte_dec_bl. Qed.

Lemma regex_flags_all (chars : bytes) :
  forall flags extra,
    (length extra <= 9)%nat ->
    regex_flags chars flags extra
    = (Z.lor flags (engine_options chars),
       extra ++ firstn (9 - length extra) (filter (fun c => negb (engine_flag c)) chars)).
Proof.
  induction chars as [|c rest IH]; intros flags extra Hl.
  - cbn [regex_flags filter]. unfold engine_options. cbn [existsb].
    now rewrite firstn_nil, app_nil_r, Z.lor_0_r.
  - cbn [regex_flags filter]. unfold engine_flag, engine_options. cbn [existsb].
    destruct (Byte.eqb c "i") eqn:Ei.
    { apply byte_eqb_true in Ei. subst c. cbn [orb negb].
      rewrite IH by assumption. unfold engine_options.
      change (Byte.eqb "i" "m") with false. change (Byte.eqb "i" "x") with false.
      cbn [orb]. f_equal. rewrite <- !Z.lor_assoc. f_equal.
      destruct (existsb (fun c => Byte.eqb c "i") rest);
        destruct (existsb (fun c => Byte.eqb c "m") rest);
        destruct (existsb (fun c => Byte.eqb c "x") rest); reflexivity. }
    destruct (Byte.eqb c "m") eqn:Em.
    { apply byte_eqb_true in Em. subst c. cbn [orb negb].
      rewrite IH by assumption. unfold engine_options.
      change (Byte.eqb "m" "x") with false.
      cbn [orb]. f_equal. rewrite <- !Z.lor_assoc. f_equal.
      destruct (existsb (fun c => Byte.eqb c "i") rest);
        destruct (existsb (fun c => Byte.eqb c "m") rest);
        destruct (existsb (fun c => Byte.eqb c "x") rest); reflexivity. }
    destruct (Byte.eqb c "x") eqn:Ex.
    { apply byte_eqb_true in Ex. subst c. cbn [orb negb].
      rewrite IH by assumption. unfold engine_options.
      cbn [orb]. f_equal. rewrite <- !Z.lor_assoc. f_equal.
      destruct (existsb (fun c => Byte.eqb c "i") rest);
        destruct (existsb (fun c => Byte.eqb c "m") rest);
        destruct (existsb (fun c => Byte.eqb c "x") rest); reflexivity. }
    cbn [orb negb]. fold (engine_options rest).
    destruct (len extra <? 9) eqn:E9.
    + apply Z.ltb_lt in E9. unfold len in E9.
      rewrite IH by (rewrite length_app; cbn [length]; lia).
      rewrite length_app. cbn [length].
      replace (9 - length extra)%nat with (S (9 - (length extra + 1))) by lia.
      cbn [firstn]. now rewrite <- app_assoc.
    + apply Z.ltb_ge in E9. unfold len in E9.
      rewrite IH by assumption.
      now replace (9 - length extra)%nat with 0%nat by lia.
Qed.

Lemma engine_options_bound (chars : bytes) : 0 <= engine_options chars <= 7.
Proof.
  unfold engine_options, IGNORECASE, MULTILINE, EXTENDED.
  destruct (existsb (fun c => Byte.eqb c "i") chars);
    destruct (existsb (fun c => Byte.eqb c "m") chars);
    destruct (existsb (fun c => Byte.eqb c "x") chars); cbn; lia.
Qed.

(** X14. The loop of the reader over the flag letters of a regex, for
    every string of letters: the options it builds have the flag of each of
    "i", "m", "x" that occurs among the letters and nothing else, and the
    extra letters it keeps are the other letters in their order, up to the
    ninth, which is what [char extra[10]] has room for; the rest is
    dropped. *)
Theorem X14_regex_flags_kept (chars : bytes) :
  regex_flags chars 0 []
  = (engine_options chars, firstn 9 (filter (fun c => negb (engine_flag c)) chars))
  /\ 0 <= fst (regex_flags chars 0 []) <= 7
  /\ len (snd (regex_flags chars 0 [])) <= 9
  /\ forallb (fun c => negb (engine_flag c)) (snd (regex_flags chars 0 [])) = true.
Proof.
  rewrite (regex_flags_all chars 0 []) by (cbn; lia).
  cbn [fst snd app length]. rewrite Z.lor_0_l. split; [reflexivity|].
  split; [apply engine_options_bound|]. split.
  - unfold len. pose proof (firstn_le_length 9 (filter (fun c => negb (engine_flag c)) chars)).
    change (9 - 0)%nat with 9%nat. lia.
  - change (9 - 0)%nat with 9%nat. apply forallb_forall. intros c Hc.
    assert (Hin : In c (filter (fun c => negb (engine_flag c)) chars)).
    { rewrite <- (firstn_skipn 9 (filter (fun c => negb (engine_flag c)) chars)).
      apply in_or_app. now left. }
    apply filter_In in Hin. now destruct Hin.
Qed.

Example regex_flags_mixed :
  regex_flags (str "zia") 0 [] = (IGNORECASE, str "za")
  /\ regex_flags (str "abcdefghjkxl") 0 [] = (EXTENDED, str "abcdefghj").
Proof. split; reflexivity. Qed.

(** ** The extra flags of a regex *)

Lemma insert_char_perm (c : byte) (l : bytes) : Permutation (c :: l) (insert_char c l).
Proof.
  induction l as [|d l IH]; cbn [insert_char]; [apply Permutation_refl|].
  destruct (cmp_char c d <=? 0); [apply Permutation_refl|].
  apply perm_trans with (d :: c :: l); [apply perm_swap|]. now apply perm_skip.
Qed.

Lemma qsort_perm (l : bytes) : Permutation l (qsort l).
Proof.
  unfold qsort. induction l as [|c l IH]; cbn [fold_right]; [apply perm_nil|].
  apply perm_trans with (c :: fold_right insert_char [] l); [now apply perm_skip|].
  apply insert_char_perm.
Qed.

Lemma insert_char_sorted (c : byte) (l : bytes) :
  StronglySorted char_le l -> StronglySorted char_le (insert_char c l).
Proof.
  induction 1 as [|d l Hs IH Hd]; cbn [insert_char].
  - constructor; constructor.
  - unfold cmp_char. destruct (char_to_int c - char_to_int d <=? 0) eqn:E.
    + apply Z.leb_le in E. constructor; [now constructor|].
      constructor; [unfold char_le; lia|].
      apply (Forall_impl _ (P := char_le d)); [|exact Hd].
      unfold char_le. intros a Ha. lia.
    + apply Z.leb_gt in E. constructor; [exact IH|].
      apply (Permutation_Forall (insert_char_perm c l)).
      constructor; [unfold char_le; lia|exact Hd].
Qed.

Lemma qsort_sorted (l : bytes) : StronglySorted char_le (qsort l).
Proof.
  unfold qsort. induction l as [|c l IH]; cbn [fold_right]; [constructor|].
  now apply insert_char_sorted.
Qed.

(** X15. The flags that are written for a regex with extra flag letters:
    the engine flags among "i", "m", "x" in this order, then the extra
    letters, which are the letters of extra_options_str put in the order of
    [cmp_char], the order of signed chars. *)
Theorem X15_extra_flags_sorted (env : platform) (fuel : nat) (k pattern : bytes)
    (options : Z) (extra : bytes) (ck : bool) (e : bytes) :
  snd (write_value env (write_element_allow_id env fuel) k
         (RRegexp pattern options (Some extra)) [] ck) = Done e ->
  exists sorted,
    e = x0b :: k ++ x00 :: pattern ++ x00 :: imx_flags options ++ sorted ++ [x00]
    /\ Permutation extra sorted
    /\ StronglySorted char_le sorted.
Proof.
  intros H. apply regexp_written in H. destruct H as [_ [_ ->]].
  exists (qsort extra). split; [reflexivity|]. split; [apply qsort_perm|apply qsort_sorted].
Qed.

Lemma X15_extra_flags_sorted_witness :
  exists sorted,
    x0b :: str "r" ++ x00 :: str "a" ++ x00 :: str "m" ++ str "lsu" ++ [x00]
    = x0b :: str "r" ++ x00 :: str "a" ++ x00 :: imx_flags MULTILINE ++ sorted ++ [x00]
    /\ Permutation (str "usl") sorted
    /\ StronglySorted char_le sorted.
Proof.
  apply (X15_extra_flags_sorted ruby19 0 (str "r") (str "a") MULTILINE (str "usl") false).
  reflexivity.
Defined.

(** ** Keys that are not strings *)

Lemma key_eql_no_string (key other : VALUE) :
  key_string key = None -> key_eql key other = false.
Proof. destruct key; try discriminate; reflexivity. Qed.

Lemma In_hash_store (hash : entries_t) (key v k0 x : VALUE) :
  In (key, v) hash -> key_eql key k0 = false -> In (key, v) (hash_store hash k0 x).
Proof.
  intros Hin Hk. induction hash as [|[k1 v1] rest IH]; [contradiction|].
  cbn [hash_store]. destruct Hin as [E|Hin].
  - inversion E. subst. rewrite Hk. now left.
  - destruct (key_eql k1 k0); right; auto.
Qed.

Lemma In_hash_delete (hash : entries_t) (key v k0 : VALUE) :
  In (key, v) hash -> key_eql key k0 = false -> In (key, v) (rb_hash_delete hash k0).
Proof.
  intros Hin Hk. unfold rb_hash_delete. apply filter_In. split; [exact Hin|].
  cbn [fst]. now rewrite Hk.
Qed.

Lemma each_pair_bad_key (env : platform) (fuel : nat) (ck a : bool) (hash : entries_t)
    (key v : VALUE) :
  In (key, v) hash ->
  key_string key = None ->
  forall b, exists e,
    snd (each_pair (write_element_allow_id env (S fuel)) ck a hash b) = Raise e.
Proof.
  intros Hin Hk. induction hash as [|[k1 v1] rest IH]; [contradiction|].
  intros b. cbn [each_pair].
  destruct (write_element_allow_id env (S fuel) k1 v1 b ck a) as [v' [b'|x]] eqn:E.
  - destruct Hin as [Heq|Hin].
    + inversion Heq. subst. rewrite write_element_allow_id_S, Hk in E. discriminate.
    + destruct (IH Hin b') as [e He].
      destruct (each_pair (write_element_allow_id env (S fuel)) ck a rest b').
      now exists e.
  - now exists x.
Qed.

(** X16. Keys must be strings or symbols: a document that has an entry
    whose key is neither is never written; the call raises. *)
Theorem X16_key_not_a_string (env : platform) (klass : hash_class) (doc : entries_t)
    (ck mid : bool) (key v : VALUE) :
  In (key, v) doc ->
  key_string key = None ->
  exists e, snd (method_serialize env klass doc ck mid) = Raise e.
Proof.
  intros Hin Hk. unfold method_serialize. rewrite write_doc_eq. cbn [snd].
  assert (H : exists e,
    snd (write_doc_elements env (write_element_allow_id env (S (hash_depth doc))) []
           klass doc ck mid) = Raise e).
  { unfold write_doc_elements. destruct mid.
    - destruct (has_key doc id_str).
      + destruct (write_element_allow_id env (S (hash_depth doc)) id_str
                    (rb_hash_aref doc id_str) [] ck true) as [id [b'|x]]; [|now exists x].
        destruct klass; apply (each_pair_bad_key env _ ck _ _ key v); try assumption;
          apply In_hash_store; try assumption; now apply key_eql_no_string.
      + destruct (has_key doc id_sym).
        * destruct (write_element_allow_id env (S (hash_depth doc)) id_sym
                      (rb_hash_aref doc id_sym) [] ck true) as [id [b'|x]]; [|now exists x].
          destruct klass; apply (each_pair_bad_key env _ ck _ _ key v); try assumption;
            apply In_hash_store; try assumption; now apply key_eql_no_string.
        * destruct klass; now apply (each_pair_bad_key env _ ck _ _ key v).
    - destruct (has_key doc id_str && has_key doc id_sym).
      + destruct klass; apply (each_pair_bad_key env _ ck _ _ key v); try assumption;
          apply In_hash_delete; try assumption; now apply key_eql_no_string.
      + destruct klass; now apply (each_pair_bad_key env _ ck _ _ key v). }
  destruct H as [e He]. rewrite He. now exists e.
Qed.

Lemma X16_key_not_a_string_witness :
  exists e,
    snd (method_serialize ruby19 OrderedHash
           [(RString (str "a"), RNil); (RInteger 1, RNil)] false false) = Raise e.
Proof.
  apply (X16_key_not_a_string ruby19 OrderedHash
           [(RString (str "a"), RNil); (RInteger 1, RNil)] false false (RInteger 1) RNil).
  - right. now left.
  - reflexivity.
Defined.

(** ** Arrays in the reader *)

Lemma array_decodes (items : list VALUE) (parts : list bytes) :
  Forall2 item_element items parts ->
  len (concat parts) + 5 < 2 ^ 31 ->
  decodes x04 (le_split 4 (len (concat parts) + 5) ++ concat parts ++ [x00]) (RArray items).
Proof.
  intros HF Hl. intros dfuel buffer position rest Hf Hfrom Hrest.
  cbn [dsize] in Hf. destruct dfuel as [|dfuel]; [lia|].
  change (char_to_int x04) with 4. cbn [get_value].
  pose proof (len_nonneg (concat parts)).
  list_norm in Hfrom.
  rewrite (read_int_at buffer position _ _ Hfrom) by (pows; lia). cbn [bindd].
  assert (Hb : from buffer (position + 4) = Some (concat parts ++ x00 :: rest)).
  { apply (from_skip buffer position _ _ _ Hfrom). now len_simpl. }
  replace (position + (len (concat parts) + 5) - 1)
    with (position + 4 + len (concat parts)) by lia.
  rewrite (array_loop_reads items parts HF dfuel buffer _ [] rest).
  - cbn [bindd app fst snd]. f_equal. f_equal. len_simpl. lia.
  - unfold items_dsize. lia.
  - exact Hb.
Qed.

(** X17. The reader does not look at the keys of the elements of an array
    ("just skip the key, they're in order"): whatever keys the elements
    carry, the array that is read holds their values in the order of the
    elements. *)
Theorem X17_array_keys_skipped (hdr k : bytes) (items : list VALUE) (parts : list bytes)
    (fuel : nat) :
  length hdr = 4%nat ->
  no_nul k ->
  Forall2 item_element items parts ->
  len (concat parts) + 5 < 2 ^ 31 ->
  (S (S (dsize (RArray items))) <= fuel)%nat ->
  method_deserialize fuel
    (hdr ++ x04 :: k ++ x00
         :: (le_split 4 (len (concat parts) + 5) ++ concat parts ++ [x00]) ++ [x00])
  = Value [(RString k, RArray items)].
Proof.
  intros Hh Hk HF Hl Hfuel.
  apply decode_one; try assumption; [discriminate|now apply array_decodes].
Qed.

Lemma X17_array_keys_skipped_witness :
  method_deserialize 6
    (le_split 4 0 ++ x04 :: str "a" ++ x00
       :: (le_split 4 (len (concat [x10 :: str "zz" ++ x00 :: le_split 4 5]) + 5)
           ++ concat [x10 :: str "zz" ++ x00 :: le_split 4 5] ++ [x00]) ++ [x00])
  = Value [(RString (str "a"), RArray [RInteger 5])].
Proof.
  apply (X17_array_keys_skipped (le_split 4 0) (str "a") [RInteger 5]
           [x10 :: str "zz" ++ x00 :: le_split 4 5] 6).
  - reflexivity.
  - reflexivity.
  - constructor; [|constructor]. exists (str "zz").
    apply (integer_element ruby19 (write_element_allow_id ruby19 0) (str "zz") 5 false).
    reflexivity.
  - vm_compute. reflexivity.
  - simpl. lia.
Defined.

(** ** Symbol keys *)

Lemma key_string_to_string (key : VALUE) : key_string (key_to_string key) = key_string key.
Proof.
  unfold key_to_string. destruct (key_string key) eqn:E; [reflexivity|exact E].
Qed.

Lemma id_like_to_string (key : VALUE) : id_like (key_to_string key) = id_like key.
Proof. unfold id_like. now rewrite key_string_to_string. Qed.

Lemma has_key_stringify_sym (hash : entries_t) : has_key (stringify_doc hash) id_sym = false.
Proof.
  induction hash as [|[k v] rest IH]; [reflexivity|].
  cbn [stringify_doc map has_key existsb fst].
  fold (stringify_doc rest). fold (has_key (stringify_doc rest) id_sym).
  rewrite IH, orb_false_r. destruct k; reflexivity.
Qed.

Lemma depth_stringify_le (n : nat) :
  forall value, (depth value <= n)%nat -> depth (stringify value) = depth value.
Proof.
  induction n as [|n IH]; intros value Hd.
  - pose proof (depth_pos value). lia.
  - assert (Hh : forall h : entries_t,
              (hash_depth h <= n)%nat ->
              hash_depth (map (fun e => (key_to_string (fst e), stringify (snd e))) h)
              = hash_depth h).
    { induction h as [|[k v] rest IHh]; [reflexivity|].
      change (hash_depth ((k, v) :: rest)) with (Nat.max (depth v) (hash_depth rest)).
      intros Hm. cbn [map fst snd].
      change (hash_depth ((?k', ?v') :: ?r)) with (Nat.max (depth v') (hash_depth r)).
      rewrite IH by lia. rewrite IHh by lia. reflexivity. }
    assert (Hi : forall items : list VALUE,
              (items_depth items <= n)%nat ->
              items_depth (map stringify items) = items_depth items).
    { induction items as [|v rest IHi]; [reflexivity|].
      change (items_depth (v :: rest)) with (Nat.max (depth v) (items_depth rest)).
      intros Hm. cbn [map].
      change (items_depth (?v' :: ?r)) with (Nat.max (depth v') (items_depth r)).
      rewrite IH by lia. rewrite IHi by lia. reflexivity. }
    destruct value; try reflexivity; cbn [stringify depth] in *.
    + fold (hash_depth entries) in Hd.
      fold (hash_depth (map (fun e => (key_to_string (fst e), stringify (snd e))) entries)).
      fold (hash_depth entries). rewrite Hh by lia. reflexivity.
    + fold (items_depth items) in Hd. fold (items_depth (map stringify items)).
      fold (items_depth items). rewrite Hi by lia. reflexivity.
    + fold (hash_depth scope) in Hd.
      fold (hash_depth (map (fun e => (key_to_string (fst e), stringify (snd e))) scope)).
      fold (hash_depth scope). rewrite Hh by lia. reflexivity.
    + rewrite !IH by lia. reflexivity.
Qed.

Lemma hash_depth_stringify (doc : entries_t) :
  hash_depth (stringify_doc doc) = hash_depth doc.
Proof.
  pose proof (depth_stringify_le (S (hash_depth doc)) (RHash OrderedHash doc)) as H.
  cbn [stringify depth] in H. fold (hash_depth doc) in H. fold (stringify_doc doc) in H.
  fold (hash_depth (stringify_doc doc)) in H. specialize (H (Nat.le_refl _)). lia.
Qed.

Section Stringify.

Variable env : platform.
Variables we1 we2 : VALUE -> VALUE -> buffer_t -> bool -> bool -> VALUE * outcome.
Hypothesis we_str : forall key v b ck a,
  clash_free v = true ->
  snd (we1 key v b ck a) = snd (we2 (key_to_string key) (stringify v) b ck a).

Lemma each_pair_str (ck a : bool) (hash : entries_t) (b : buffer_t) :
  forallb (fun e => clash_free (snd e)) hash = true ->
  snd (each_pair we1 ck a hash b) = snd (each_pair we2 ck a (stringify_doc hash) b).
Proof.
  revert b. induction hash as [|[k v] rest IH]; intros b H; [reflexivity|].
  cbn [forallb snd] in H. apply andb_true_iff in H. destruct H as [H1 H2].
  cbn [each_pair stringify_doc map fst snd]. fold (stringify_doc rest).
  pose proof (we_str k v b ck a H1) as Hw.
  destruct (we1 k v b ck a) as [v1 [b1|x1]];
    destruct (we2 (key_to_string k) (stringify v) b ck a) as [v2 [b2|x2]];
    cbn [snd] in Hw; try discriminate; inversion Hw; subst; [|reflexivity].
  specialize (IH b2 H2).
  destruct (each_pair we1 ck a rest b2); destruct (each_pair we2 ck a (stringify_doc rest) b2).
  exact IH.
Qed.

Lemma each_item_str (ck : bool) (items : list VALUE) (i : nat) (b : buffer_t) :
  forallb clash_free items = true ->
  snd (each_item we1 ck i items b) = snd (each_item we2 ck i (map stringify items) b).
Proof.
  revert i b. induction items as [|v rest IH]; intros i b H; [reflexivity|].
  cbn [forallb] in H. apply andb_true_iff in H. destruct H as [H1 H2].
  cbn [each_item map].
  pose proof (we_str (RString (INT2STRING i)) v b ck false H1) as Hw.
  change (key_to_string (RString (INT2STRING i))) with (RString (INT2STRING i)) in Hw.
  destruct (we1 (RString (INT2STRING i)) v b ck false) as [v1 [b1|x1]];
    destruct (we2 (RString (INT2STRING i)) (stringify v) b ck false) as [v2 [b2|x2]];
    cbn [snd] in Hw; try discriminate; inversion Hw; subst; [|reflexivity].
  specialize (IH (S i) b2 H2).
  destruct (each_item we1 ck (S i) rest b2);
    destruct (each_item we2 ck (S i) (map stringify rest) b2).
  exact IH.
Qed.

Lemma write_doc_gen_str (b : buffer_t) (klass : hash_class) (hash : entries_t) (ck : bool) :
  id_clash hash = false ->
  forallb (fun e => clash_free (snd e)) hash = true ->
  snd (write_doc_gen env we1 b klass hash ck false)
  = snd (write_doc_gen env we2 b klass (stringify_doc hash) ck false).
Proof.
  intros Hc Hf. unfold write_doc_gen, buffer_save_space, write_doc_elements.
  unfold id_clash in Hc. rewrite Hc, has_key_stringify_sym, andb_false_r.
  assert (E : forall a,
    snd (each_pair we1 ck a hash (b ++ repeat Byte.x00 4))
    = snd (each_pair we2 ck a (stringify_doc hash) (b ++ repeat Byte.x00 4)))
    by (intros a; now apply each_pair_str).
  destruct klass.
  - specialize (E true).
    destruct (each_pair we1 ck true hash (b ++ repeat Byte.x00 4));
      destruct (each_pair we2 ck true (stringify_doc hash) (b ++ repeat Byte.x00 4)).
    cbn [snd] in *. now subst.
  - specialize (E (foreach_allow_id env)).
    destruct (each_pair we1 ck (foreach_allow_id env) hash (b ++ repeat Byte.x00 4));
      destruct (each_pair we2 ck (foreach_allow_id env) (stringify_doc hash)
                  (b ++ repeat Byte.x00 4)).
    cbn [snd] in *. now subst.
Qed.

Lemma write_value_str (k : bytes) (value : VALUE) (b : buffer_t) (ck : bool) :
  clash_free value = true ->
  snd (write_value env we1 k value b ck) = snd (write_value env we2 k (stringify value) b ck).
Proof.
  destruct value as [z| | |d| |klass h|items|s|code klass scope|name|st data|data|arr
                    |ns oid| | |cls|t|cls|pattern flags extra|cls];
    try reflexivity; cbn [clash_free stringify write_value]; intros Hc.
  - apply andb_true_iff in Hc. destruct Hc as [Hc Hf]. apply negb_true_iff in Hc.
    fold (stringify_doc h).
    destruct (write_name_and_type env b k x03) as [b1|x]; [|reflexivity].
    pose proof (write_doc_gen_str b1 klass h ck Hc Hf) as E.
    destruct (write_doc_gen env we1 b1 klass h ck false);
      destruct (write_doc_gen env we2 b1 klass (stringify_doc h) ck false).
    exact E.
  - destruct (write_name_and_type env b k x04) as [b1|x]; [|reflexivity].
    unfold buffer_save_space.
    pose proof (each_item_str ck items 0 (b1 ++ repeat Byte.x00 4) Hc) as E.
    destruct (each_item we1 ck 0 items (b1 ++ repeat Byte.x00 4));
      destruct (each_item we2 ck 0 (map stringify items) (b1 ++ repeat Byte.x00 4)).
    cbn [snd] in *. now subst.
  - apply andb_true_iff in Hc. destruct Hc as [Hc Hf]. apply negb_true_iff in Hc.
    fold (stringify_doc scope).
    destruct (write_name_and_type env b k x0f) as [b1|x]; [|reflexivity].
    unfold buffer_save_space. cbn [bindo SAFE_WRITE buffer_write].
    match goal with
    | |- context [write_doc_gen env we1 ?b2 klass scope false false] =>
        pose proof (write_doc_gen_str b2 klass scope false Hc Hf) as E;
        destruct (write_doc_gen env we1 b2 klass scope false false);
        destruct (write_doc_gen env we2 b2 klass (stringify_doc scope) false false)
    end.
    cbn [snd] in *. now subst.
  - apply andb_true_iff in Hc. destruct Hc as [Hn Ho].
    destruct (write_name_and_type env b k x03) as [b1|x]; [|reflexivity].
    unfold buffer_save_space.
    pose proof (we_str (RString (str "$ref")) ns (b1 ++ repeat Byte.x00 4) false false Hn)
      as E1.
    change (key_to_string (RString (str "$ref"))) with (RString (str "$ref")) in E1.
    destruct (we1 (RString (str "$ref")) ns (b1 ++ repeat Byte.x00 4) false false)
      as [n1 [b2|x1]];
      destruct (we2 (RString (str "$ref")) (stringify ns) (b1 ++ repeat Byte.x00 4)
                  false false) as [n2 [b2'|x2]];
      cbn [snd] in E1; try discriminate; inversion E1; subst; [|reflexivity].
    pose proof (we_str (RString (str "$id")) oid b2' false false Ho) as E2.
    change (key_to_string (RString (str "$id"))) with (RString (str "$id")) in E2.
    destruct (we1 (RString (str "$id")) oid b2' false false);
      destruct (we2 (RString (str "$id")) (stringify oid) b2' false false).
    cbn [snd] in *. now subst.
Qed.

End Stringify.

Lemma write_element_allow_id_str (env : platform) (fuel : nat) :
  forall key v b ck a,
    clash_free v = true ->
    snd (write_element_allow_id env fuel key v b ck a)
    = snd (write_element_allow_id env fuel (key_to_string key) (stringify v) b ck a).
Proof.
  induction fuel as [|fuel IH]; intros key v b ck a Hc; [reflexivity|].
  rewrite !write_element_allow_id_S, key_string_to_string, id_like_to_string.
  destruct (key_string key) as [k|]; [|reflexivity].
  destruct (negb a && id_like key); [reflexivity|].
  destruct (if ck then check_key k else None); [reflexivity|].
  now apply write_value_str.
Qed.

(** X18. Symbol keys are written as their names and read back as strings,
    and a ByteBuffer is read back as the Binary of subtype 2: a document
    in which no hash holds both spellings of "_id" and which is canonical
    once its keys are taken as strings, written without move_id, is read
    back with the keys as strings. *)
Theorem X18_round_trip_symbol_keys (env : platform) (doc h' : entries_t) (ck : bool)
    (out : bytes) :
  clash_free_doc false doc = true ->
  canonical_doc env (stringify_doc doc) = true ->
  method_serialize env OrderedHash doc ck false = (h', Done out) ->
  exists n, forall fuel, (n <= fuel)%nat ->
    method_deserialize fuel out = Value (stringify_doc doc).
Proof.
  intros Hf Hc Hw. unfold clash_free_doc in Hf. cbn [orb] in Hf.
  apply andb_true_iff in Hf. destruct Hf as [Hf1 Hf2]. apply negb_true_iff in Hf1.
  assert (Hs : snd (method_serialize env OrderedHash (stringify_doc doc) ck false) = Done out).
  { unfold method_serialize, write_doc in *. rewrite hash_depth_stringify.
    rewrite <- (write_doc_gen_str env _ _ (write_element_allow_id_str env _)
                  [] OrderedHash doc ck Hf1 Hf2).
    now rewrite Hw. }
  destruct (serialize_parts env (stringify_doc doc) ck out Hc Hs) as [parts [-> [HF Hd]]].
  exists (entries_dsize (stringify_doc doc)). intros fuel Hfuel.
  apply read_document; try assumption. apply length_le_split.
Qed.

Lemma X18_round_trip_symbol_keys_witness :
  exists n, forall fuel, (n <= fuel)%nat ->
    method_deserialize fuel
      (le_split 4 25 ++ x10 :: str "a" ++ x00 :: le_split 4 1
       ++ x05 :: str "b" ++ x00 :: le_split 4 5 ++ x02 :: le_split 4 1 ++ str "z" ++ [x00])
    = Value [(RString (str "a"), RInteger 1); (RString (str "b"), RBinary 2 (str "z"))].
Proof.
  apply (X18_round_trip_symbol_keys ruby19
           [(RSymbol (str "a"), RInteger 1); (RString (str "b"), RByteBuffer (str "z"))]
           [(RSymbol (str "a"), RInteger 1); (RString (str "b"), RByteBuffer (str "z"))]
           false).
  - reflexivity.
  - reflexivity.
  - reflexivity.
Defined.

(** ** NUL bytes *)

Lemma utf8_error_nul (env : platform) (s : bytes) :
  existsb is_nul s = true -> utf8_error env s true = Some InvalidDocument_null.
Proof.
  intros H. unfold utf8_error, write_utf8, check_string. rewrite H. cbn [andb].
  now destruct (have_ruby_encoding env).
Qed.

Lemma utf8_error_value (env : platform) (s : bytes) :
  have_ruby_encoding env = true -> utf8_error env s false = None.
Proof.
  intros H. unfold utf8_error, write_utf8, check_string. rewrite H. reflexivity.
Qed.

Lemma write_value_nul_key (env : platform) (fuel : nat) (k : bytes) (value : VALUE)
    (b : buffer_t) (ck : bool) :
  existsb is_nul k = true ->
  names_key value = true ->
  snd (write_value env (write_element_allow_id env fuel) k value b ck)
  = Raise InvalidDocument_null.
Proof.
  intros Hk Hr. pose proof (utf8_error_nul env k Hk) as Hu.
  destruct value as [z| | |d| |klass h|items|s|code klass scope|name|st data|data|arr
                    |ns oid| | |cls|t|cls|pattern flags extra|cls];
    try discriminate Hr;
    try (cbn [write_value snd]; rewrite write_name_and_type_eq, Hu; reflexivity).
  - cbn [names_key] in Hr. apply andb_true_iff in Hr. destruct Hr as [H1 H2].
    apply Z.leb_le in H1, H2.
    cbn [write_value snd]. rewrite !write_name_and_type_eq, Hu.
    replace ((9223372036854775807 <? z) || (z <? -9223372036854775808)) with false
      by (symmetry; apply orb_false_iff; split; apply Z.ltb_ge; lia).
    now destruct ((2147483647 <? z) || (z <? -2147483648)).
  - cbn [names_key] in Hr. cbn [write_value snd].
    destruct (FIX2INT st); [|discriminate]. cbv zeta.
    now rewrite write_name_and_type_eq, Hu.
Qed.

(** X19. NUL bytes. The element writer does not look at the bytes of a key
    that it skips: a key that reads "_id" as a C string, with allow_id off,
    returns without an error whatever follows its first NUL. For a key that
    is not skipped and passes the key checks, a NUL byte in the key raises
    InvalidDocument for every value whose case comes to write the key (a
    class that has an encoding, an integer within 64 bits, a Binary whose
    subtype fits a C int), and so does a NUL byte in the pattern of a regex
    once the key is written. A string value may hold NUL bytes: in a build
    with Ruby's encodings it is written with its length, whatever its
    bytes. *)
Theorem X19_nul_bytes (env : platform) (fuel : nat) (key : VALUE) (k : bytes)
    (b : buffer_t) (ck a : bool) :
  key_string key = Some k ->
  (negb a && id_like key = true ->
   forall value, write_element_allow_id env (S fuel) key value b ck a = (value, Done b))
  /\ (negb a && id_like key = false ->
      (if ck then check_key k else None) = None ->
      (forall value,
         existsb is_nul k = true ->
         names_key value = true ->
         snd (write_element_allow_id env (S fuel) key value b ck a)
         = Raise InvalidDocument_null)
      /\ (forall pattern options extra,
         utf8_error env k true = None ->
         existsb is_nul pattern = true ->
         snd (write_element_allow_id env (S fuel) key (RRegexp pattern options extra)
                b ck a)
         = Raise InvalidDocument_null)
      /\ (forall s,
         have_ruby_encoding env = true ->
         existsb is_nul k = false ->
         snd (write_element_allow_id env (S fuel) key (RString s) b ck a)
         = Done (b ++ x02 :: k ++ x00 :: le_split 4 (len s + 1) ++ s ++ [x00]))).
Proof.
  intros Hk. split.
  { intros Hs value. now rewrite write_element_allow_id_S, Hk, Hs. }
  intros Hs Hc.
  assert (E : forall value,
    snd (write_element_allow_id env (S fuel) key value b ck a)
    = snd (write_value env (write_element_allow_id env fuel) k value b ck))
    by (intros value; now rewrite write_element_allow_id_S, Hk, Hs, Hc).
  split; [intros value Hn Hr; rewrite E; now apply write_value_nul_key|].
  split.
  - intros pattern options extra Hu Hp. rewrite E. cbn [write_value snd].
    rewrite write_name_and_type_eq, Hu. cbn [bindo].
    rewrite write_utf8_eq, (utf8_error_nul env pattern Hp). reflexivity.
  - intros s He Hn. rewrite E. cbn [write_value snd].
    rewrite write_name_and_type_eq.
    assert (Hu : utf8_error env k true = None).
    { unfold utf8_error, write_utf8, check_string. rewrite He, Hn. reflexivity. }
    rewrite Hu. cbn [bindo SAFE_WRITE buffer_write].
    rewrite write_utf8_eq, (utf8_error_value env s He).
    cbn [bindo SAFE_WRITE buffer_write]. f_equal. unfold zero. now list_norm.
Qed.

Lemma X19_nul_bytes_witness :
  write_element_allow_id ruby19 1 (RString [x5f; x69; x64; x00; x78]) RNil [] true false
  = (RNil, Done [])
  /\ snd (write_element_allow_id ruby19 1 (RString [x61; x00]) (RBinary 5 []) []
            true true)
     = Raise InvalidDocument_null
  /\ snd (write_element_allow_id ruby19 1 (RString (str "k")) (RString [x61; x00; x62]) []
            true true)
     = Done ([] ++ x02 :: str "k" ++ x00 :: le_split 4 (len [x61; x00; x62] + 1)
             ++ [x61; x00; x62] ++ [x00]).
Proof.
  split; [|split].
  - apply (proj1 (X19_nul_bytes ruby19 0 (RString [x5f; x69; x64; x00; x78])
                    [x5f; x69; x64; x00; x78] [] true false eq_refl)).
    reflexivity.
  - apply (proj1 (proj2 (X19_nul_bytes ruby19 0 (RString [x61; x00]) [x61; x00] []
                           true true eq_refl) eq_refl eq_refl)).
    + reflexivity.
    + reflexivity.
  - apply (proj2 (proj2 (proj2 (X19_nul_bytes ruby19 0 (RString (str "k")) (str "k") []
                                  true true eq_refl) eq_refl eq_refl))).
    + reflexivity.
    + reflexivity.
Defined.

(** ** A document that starts with "$ref" *)

Lemma dbref_doc_written (env : platform) (fuel : nat) (k : bytes) (ns oid : VALUE)
    (b : buffer_t) (out : bytes) :
  snd (write_value env (write_element_allow_id env fuel) k
         (RHash OrderedHash (dbref_doc ns oid)) b false) = Done out ->
  snd (write_value env (write_element_allow_id env fuel) k (RDBRef ns oid) b false)
  = Done out.
Proof.
  rewrite write_value_hash_eq, write_value_dbref_eq, write_doc_eq.
  unfold write_doc_elements, dbref_doc.
  replace (has_key [(RString (str "$ref"), ns); (RString (str "$id"), oid)] id_str
           && has_key [(RString (str "$ref"), ns); (RString (str "$id"), oid)] id_sym)
    with false by reflexivity.
  cbn [each_pair]. cbv zeta.
  rewrite (allow_id_irrelevant env fuel (RString (str "$ref")) ns [] false true false)
    by reflexivity.
  destruct (utf8_error env k true); [discriminate|].
  destruct (write_element_allow_id env fuel (RString (str "$ref")) ns [] false false)
    as [ns' [e1|x]]; cbn [fst snd]; [|discriminate].
  rewrite (allow_id_irrelevant env fuel (RString (str "$id")) oid e1 false true false)
    by reflexivity.
  rewrite (write_element_allow_id_indep env fuel (RString (str "$id")) oid false false e1).
  destruct (write_element_allow_id env fuel (RString (str "$id")) oid [] false false)
    as [oid' [e2|x]]; cbn [fst snd appo]; [|discriminate].
  destruct (MAX_DOC <? len (e1 ++ e2) + 5); [discriminate|]. cbn [appo].
  intros H. rewrite <- H. f_equal. now list_norm.
Qed.

Lemma single_pair_doc (env : platform) (fuel : nat) (k : bytes) (v : VALUE) :
  snd (write_doc env (S fuel) [] OrderedHash [(RString k, v)] false false)
  = match snd (write_value env (write_element_allow_id env fuel) k v [] false) with
    | Raise x => Raise x
    | Done e =>
        if MAX_DOC <? len e + 5 then Raise InvalidDocument_too_large
        else Done ([] ++ le_split 4 (len e + 5) ++ e ++ zero)
    end.
Proof.
  rewrite write_doc_eq. cbn [snd]. unfold write_doc_elements.
  change (has_key [(RString k, v)] id_sym) with false. rewrite andb_false_r.
  cbn [each_pair]. rewrite write_element_allow_id_S. cbn [key_string negb andb].
  destruct (write_value env (write_element_allow_id env fuel) k v [] false) as [v' [e|x]];
    reflexivity.
Qed.

(** X20. What the reader makes of a document that starts with "$ref". An
    embedded document with the two keys "$ref" and "$id", a string under the
    first and a canonical value under the second, is written with the bytes
    of a DBRef and read back as the DBRef of the two values. *)
Theorem X20_ref_document_read_as_dbref (env : platform) (k : bytes) (ns oid : VALUE)
    (h' : entries_t) (out : bytes) :
  canonical env (RDBRef ns oid) = true ->
  method_serialize env OrderedHash [(RString k, RHash OrderedHash (dbref_doc ns oid))]
    false false = (h', Done out) ->
  exists n, forall fuel, (n <= fuel)%nat ->
    method_deserialize fuel out = Value [(RString k, RDBRef ns oid)].
Proof.
  intros Hc Hw.
  assert (Hs : snd (method_serialize env OrderedHash [(RString k, RDBRef ns oid)] false false)
               = Done out).
  { unfold method_serialize in *.
    replace (hash_depth [(RString k, RDBRef ns oid)])
      with (hash_depth [(RString k, RHash OrderedHash (dbref_doc ns oid))])
      by (unfold hash_depth, dbref_doc; cbn [fold_right depth snd]; lia).
    apply (f_equal snd) in Hw. cbn [snd] in Hw.
    rewrite single_pair_doc in *.
    destruct (snd (write_value env _ k (RHash OrderedHash (dbref_doc ns oid)) [] false))
      as [e|x] eqn:E; [|discriminate].
    now rewrite (dbref_doc_written env _ k ns oid [] e E). }
  assert (Hd : canonical_doc env [(RString k, RDBRef ns oid)] = true).
  { unfold canonical_doc, string_keys. cbn [forallb fst snd is_string_key distinct_keys
      has_key existsb negb andb]. now rewrite Hc. }
  destruct (serialize_parts env _ false out Hd Hs) as [parts [-> [HF Hk]]].
  exists (entries_dsize [(RString k, RDBRef ns oid)]). intros fuel Hfuel.
  apply read_document; try assumption. apply length_le_split.
Qed.

Lemma X20_ref_document_read_as_dbref_witness :
  exists n, forall fuel, (n <= fuel)%nat ->
    method_deserialize fuel
      (le_split 4 34 ++ x03 :: str "a" ++ x00 :: le_split 4 26
       ++ x02 :: str "$ref" ++ x00 :: le_split 4 2 ++ str "c" ++ x00
       :: x10 :: str "$id" ++ x00 :: le_split 4 1 ++ [x00; x00])
    = Value [(RString (str "a"), RDBRef (RString (str "c")) (RInteger 1))].
Proof.
  apply (X20_ref_document_read_as_dbref ruby19 (str "a") (RString (str "c")) (RInteger 1)
           [(RString (str "a"),
             RHash OrderedHash (dbref_doc (RString (str "c")) (RInteger 1)))]).
  - reflexivity.
  - reflexivity.
Defined.
